(** * ACP messaging core: conversations and the request/response protocol

    A shallow embedding of three classes of the repository,
      - [Message]                 (src/ACP/src/core/message.ts),
      - [Conversation]            (src/unnamed/part_003, the module
                                   conversation/conversation.ts),
      - [RequestResponseProtocol] (src/ACP/src/conversation/protocols/
                                   request-response.ts),
    followed by the properties of the specification that concern them
    and by further properties of the three classes.

    Conventions of the embedding.
    - A JavaScript [number] that the code uses as a count, a time or a
      duration in milliseconds is an integer of [Z]; [x || d] on such a
      number takes [d] when [x] is [undefined] or [0].
    - A string is truthy when it is not the empty string.
    - A method that may [throw] is a computation in the monad [M]: it
      returns the state after the call together with [Return v] or
      [Throw e], so that what a failed call leaves behind can be stated.
    - [Date.now()] and [uuidv4()] are read from the environment: the
      caller of the model passes them in ([now], [uuid]).
    - [emit] appends to a log of emitted events; listeners are outside the
      model. *)

From stdpp Require Import gmap strings list fin_maps pretty.

(** ** JavaScript values and the exception/state monad *)

(** The part of [unknown] that message contents, results and metadata
    values range over in this development. *)
Inductive JsValue : Type :=
  | JUndefined
  | JNull
  | JBool (b : bool)
  | JNum (n : Z)
  | JStr (s : string).

#[global] Instance JsValue_eq_dec : EqDecision JsValue.
Proof. solve_decision. Defined.

(** [Boolean(s)] for a string. *)
Definition truthy_str (s : string) : bool :=
  if decide (s = "") then false else true.

(** [Boolean(s)] for an optional string (a property that may be absent). *)
Definition truthy_ostr (o : option string) : bool :=
  match o with
  | Some s => truthy_str s
  | None => false
  end.

(** [Boolean(n)] for an optional number. *)
Definition truthy_onum (o : option Z) : bool :=
  match o with
  | Some n => if decide (n = 0%Z) then false else true
  | None => false
  end.

(** [x || d] for an optional number [x]. *)
Definition num_or (x : option Z) (d : Z) : Z :=
  match x with
  | Some n => if decide (n = 0%Z) then d else n
  | None => d
  end.

(** [x || d] for an optional string [x]. *)
Definition str_or (x : option string) (d : string) : string :=
  match x with
  | Some s => if truthy_str s then s else d
  | None => d
  end.

(** [v?.toString()]: [undefined] for [undefined] and [null]. A number of
    the model is an integer and is printed in decimal, which is what
    JavaScript prints for an integer below 1e21 in absolute value (from
    there on it prints an exponent, which the model does not). *)
Definition js_toString (v : JsValue) : option string :=
  match v with
  | JUndefined | JNull => None
  | JBool true => Some "true"
  | JBool false => Some "false"
  | JNum n => Some (pretty n)
  | JStr s => Some s
  end.

Inductive Outcome (E A : Type) : Type :=
  | Return (a : A)
  | Throw (e : E).
Arguments Return {E A} a.
Arguments Throw {E A} e.

(** A call on an object of state [S] that returns an [A] or throws an [E]. *)
Definition M (S E A : Type) : Type := S -> Outcome E A * S.

Definition ret {S E A} (a : A) : M S E A := fun s => (Return a, s).

Definition throw {S E A} (e : E) : M S E A := fun s => (Throw e, s).

Definition bind {S E A B} (m : M S E A) (k : A -> M S E B) : M S E B :=
  fun s =>
    match m s with
    | (Return a, s') => k a s'
    | (Throw e, s') => (Throw e, s')
    end.

Definition get {S E} : M S E S := fun s => (Return s, s).

Definition modify {S E} (f : S -> S) : M S E unit := fun s => (Return tt, f s).

(** [if (c) throw e;] *)
Definition throw_if {S E} (c : bool) (e : E) : M S E unit :=
  if c then throw e else ret tt.

(** [if (c) { m }] *)
Definition when {S E} (c : bool) (m : M S E unit) : M S E unit :=
  if c then m else ret tt.

Declare Scope js_scope.
Delimit Scope js_scope with js.
Notation "'let!' x ':=' m 'in' k" := (bind m (fun x => k))
  (at level 10, x name, m at level 100, k at level 200) : js_scope.
Notation "m ;; k" := (bind m (fun _ => k))
  (at level 100, k at level 200, right associativity) : js_scope.

Definition state_of {S E A} (r : Outcome E A * S) : S := snd r.
Definition outcome_of {S E A} (r : Outcome E A * S) : Outcome E A := fst r.

(** ** [Message] (src/ACP/src/core/message.ts) *)

Record Message : Type := mkMessage {
  m_id : string;
  m_conversationId : option string;
  m_performative : string;
  m_sender : string;
  m_receiver : string + list string;
  m_content : JsValue;
  m_timestamp : Z;
  m_inReplyTo : option string
}.

#[global] Instance Message_eq_dec : EqDecision Message.
Proof. solve_decision. Defined.

Record MessageOptions : Type := mkMessageOptions {
  mo_id : option string;
  mo_timestamp : option Z;
  mo_conversationId : option string;
  mo_performative : string;
  mo_sender : string;
  mo_receiver : string + list string;
  mo_content : JsValue;
  mo_inReplyTo : option string
}.

Inductive MessageError : Type :=
  | PerformativeRequired      (* 'Performative is required' *)
  | SenderRequired            (* 'Sender is required' *)
  | ReceiverRequired          (* 'Receiver is required' *)
  | ReceiverArrayEmpty.       (* 'Message receiver array cannot be empty' *)

(** [!this.receiver]: an array is always truthy. *)
Definition receiver_falsy (r : string + list string) : bool :=
  match r with
  | inl s => negb (truthy_str s)
  | inr _ => false
  end.

Definition receiver_empty_array (r : string + list string) : bool :=
  match r with
  | inl _ => false
  | inr l => bool_decide (l = [])
  end.

(** [Message.validate]; the warning on an unknown performative goes to the
    console and rejects nothing. *)
Definition Message_validate (m : Message) : option MessageError :=
  if negb (truthy_str (m_performative m)) then Some PerformativeRequired
  else if negb (truthy_str (m_sender m)) then Some SenderRequired
  else if receiver_falsy (m_receiver m) then Some ReceiverRequired
  else if receiver_empty_array (m_receiver m) then Some ReceiverArrayEmpty
  else None.

(** [new Message(options)] *)
Definition Message_new (options : MessageOptions) (uuid : string) (now : Z)
  : MessageError + Message :=
  let m := {| m_id := str_or (mo_id options) uuid;
              m_timestamp := num_or (mo_timestamp options) now;
              m_performative := mo_performative options;
              m_sender := mo_sender options;
              m_receiver := mo_receiver options;
              m_content := mo_content options;
              m_conversationId := mo_conversationId options;
              m_inReplyTo := mo_inReplyTo options |} in
  match Message_validate m with
  | Some e => inl e
  | None => inr m
  end.

(** ** [Conversation] (src/unnamed/part_003) *)

Module Conversation.

(** [ConversationState] of src/types/index.ts. *)
Inductive ConversationState : Type :=
  | initiated
  | active
  | waiting
  | completed
  | failed
  | timeout
  | cancelled.

#[global] Instance ConversationState_eq_dec : EqDecision ConversationState.
Proof. solve_decision. Defined.

Definition state_name (st : ConversationState) : string :=
  match st with
  | initiated => "initiated"
  | active => "active"
  | waiting => "waiting"
  | completed => "completed"
  | failed => "failed"
  | timeout => "timeout"
  | cancelled => "cancelled"
  end.

(** The events a conversation emits. [transitionTo] emits two:
    ['stateChanged'] with the new and the old state, and one named after
    the new state. *)
Inductive Event : Type :=
  | stateChanged (newState oldState : ConversationState)
  | entered (newState : ConversationState)
  | messageAdded (message : Message)
  | participantAdded (agentId : string)
  | participantRemoved (agentId : string).

(** One constructor per [throw new Error(...)] of the class. *)
Inductive Error : Type :=
  | InitiatorRequired
  | NoParticipants
  | TimeoutNotPositive
  | MaxMessagesNotPositive
  | CannotActivate (from : ConversationState)
  | CannotSetWaiting (from : ConversationState)
  | CannotComplete (from : ConversationState)
  | CannotFail (from : ConversationState)
  | CannotCancel (from : ConversationState)
  | ConversationIdMismatch
  | MaxMessagesReached
  | CannotRemoveInitiator.

(** The text of the thrown [Error]. *)
Definition error_message (e : Error) : string :=
  match e with
  | InitiatorRequired => "Conversation initiator is required"
  | NoParticipants => "Conversation must have at least one participant"
  | TimeoutNotPositive => "Timeout must be positive"
  | MaxMessagesNotPositive => "Max messages must be positive"
  | CannotActivate st => "Cannot activate conversation from state: " +:+ state_name st
  | CannotSetWaiting st => "Cannot set waiting from state: " +:+ state_name st
  | CannotComplete st =>
      "Cannot complete conversation from terminal state: " +:+ state_name st
  | CannotFail st => "Cannot fail conversation from terminal state: " +:+ state_name st
  | CannotCancel st =>
      "Cannot cancel conversation from terminal state: " +:+ state_name st
  | ConversationIdMismatch => "Message conversation ID does not match"
  | MaxMessagesReached => "Maximum number of messages reached"
  | CannotRemoveInitiator => "Cannot remove conversation initiator"
  end.

(** The code throws plain [Error]s; the specification names them by kind
    (its section 7). This is that naming, by throw site. *)
Inductive ErrorKind : Type :=
  | InvalidArgument
  | InvalidTransition
  | CapacityExceeded.

Definition kind (e : Error) : ErrorKind :=
  match e with
  | InitiatorRequired | NoParticipants | TimeoutNotPositive
  | MaxMessagesNotPositive | ConversationIdMismatch
  | CannotRemoveInitiator => InvalidArgument
  | CannotActivate _ | CannotSetWaiting _ | CannotComplete _
  | CannotFail _ | CannotCancel _ => InvalidTransition
  | MaxMessagesReached => CapacityExceeded
  end.

Record ConversationOptions : Type := mkOptions {
  o_id : option string;
  o_participants : list string;
  o_protocol : option string;
  o_initiator : string;
  o_timeout : option Z;
  o_maxMessages : option Z;
  o_metadata : option (gmap string JsValue)
}.

(** The object. [c_timeoutHandle] is [Some d] while the field holds the
    handle of the timer armed with delay [d]; [c_emitted] is the log of
    emitted events, oldest first. *)
Record t : Type := mk {
  c_id : string;
  c_participants : list string;
  c_protocol : option string;
  c_initiator : string;
  c_timeout : option Z;
  c_maxMessages : option Z;
  c_created : Z;
  c_state : ConversationState;
  c_updated : Z;
  c_messages : list Message;
  c_messageIndex : gmap string Message;
  c_metadata : gmap string JsValue;
  c_timeoutHandle : option Z;
  c_result : JsValue;
  c_error : option string;
  c_emitted : list Event
}.

Definition set_participants (v : list string) (c : t) : t :=
  {| c_id := c_id c;
     c_participants := v;
     c_protocol := c_protocol c;
     c_initiator := c_initiator c;
     c_timeout := c_timeout c;
     c_maxMessages := c_maxMessages c;
     c_created := c_created c;
     c_state := c_state c;
     c_updated := c_updated c;
     c_messages := c_messages c;
     c_messageIndex := c_messageIndex c;
     c_metadata := c_metadata c;
     c_timeoutHandle := c_timeoutHandle c;
     c_result := c_result c;
     c_error := c_error c;
     c_emitted := c_emitted c |}.

Definition set_state (v : ConversationState) (c : t) : t :=
  {| c_id := c_id c;
     c_participants := c_participants c;
     c_protocol := c_protocol c;
     c_initiator := c_initiator c;
     c_timeout := c_timeout c;
     c_maxMessages := c_maxMessages c;
     c_created := c_created c;
     c_state := v;
     c_updated := c_updated c;
     c_messages := c_messages c;
     c_messageIndex := c_messageIndex c;
     c_metadata := c_metadata c;
     c_timeoutHandle := c_timeoutHandle c;
     c_result := c_result c;
     c_error := c_error c;
     c_emitted := c_emitted c |}.

Definition set_updated (v : Z) (c : t) : t :=
  {| c_id := c_id c;
     c_participants := c_participants c;
     c_protocol := c_protocol c;
     c_initiator := c_initiator c;
     c_timeout := c_timeout c;
     c_maxMessages := c_maxMessages c;
     c_created := c_created c;
     c_state := c_state c;
     c_updated := v;
     c_messages := c_messages c;
     c_messageIndex := c_messageIndex c;
     c_metadata := c_metadata c;
     c_timeoutHandle := c_timeoutHandle c;
     c_result := c_result c;
     c_error := c_error c;
     c_emitted := c_emitted c |}.

Definition set_messages (v : list Message) (c : t) : t :=
  {| c_id := c_id c;
     c_participants := c_participants c;
     c_protocol := c_protocol c;
     c_initiator := c_initiator c;
     c_timeout := c_timeout c;
     c_maxMessages := c_maxMessages c;
     c_created := c_created c;
     c_state := c_state c;
     c_updated := c_updated c;
     c_messages := v;
     c_messageIndex := c_messageIndex c;
     c_metadata := c_metadata c;
     c_timeoutHandle := c_timeoutHandle c;
     c_result := c_result c;
     c_error := c_error c;
     c_emitted := c_emitted c |}.

Definition set_messageIndex (v : gmap string Message) (c : t) : t :=
  {| c_id := c_id c;
     c_participants := c_participants c;
     c_protocol := c_protocol c;
     c_initiator := c_initiator c;
     c_timeout := c_timeout c;
     c_maxMessages := c_maxMessages c;
     c_created := c_created c;
     c_state := c_state c;
     c_updated := c_updated c;
     c_messages := c_messages c;
     c_messageIndex := v;
     c_metadata := c_metadata c;
     c_timeoutHandle := c_timeoutHandle c;
     c_result := c_result c;
     c_error := c_error c;
     c_emitted := c_emitted c |}.

Definition set_metadata (v : gmap string JsValue) (c : t) : t :=
  {| c_id := c_id c;
     c_participants := c_participants c;
     c_protocol := c_protocol c;
     c_initiator := c_initiator c;
     c_timeout := c_timeout c;
     c_maxMessages := c_maxMessages c;
     c_created := c_created c;
     c_state := c_state c;
     c_updated := c_updated c;
     c_messages := c_messages c;
     c_messageIndex := c_messageIndex c;
     c_metadata := v;
     c_timeoutHandle := c_timeoutHandle c;
     c_result := c_result c;
     c_error := c_error c;
     c_emitted := c_emitted c |}.

Definition set_timeoutHandle (v : option Z) (c : t) : t :=
  {| c_id := c_id c;
     c_participants := c_participants c;
     c_protocol := c_protocol c;
     c_initiator := c_initiator c;
     c_timeout := c_timeout c;
     c_maxMessages := c_maxMessages c;
     c_created := c_created c;
     c_state := c_state c;
     c_updated := c_updated c;
     c_messages := c_messages c;
     c_messageIndex := c_messageIndex c;
     c_metadata := c_metadata c;
     c_timeoutHandle := v;
     c_result := c_result c;
     c_error := c_error c;
     c_emitted := c_emitted c |}.

Definition set_result (v : JsValue) (c : t) : t :=
  {| c_id := c_id c;
     c_participants := c_participants c;
     c_protocol := c_protocol c;
     c_initiator := c_initiator c;
     c_timeout := c_timeout c;
     c_maxMessages := c_maxMessages c;
     c_created := c_created c;
     c_state := c_state c;
     c_updated := c_updated c;
     c_messages := c_messages c;
     c_messageIndex := c_messageIndex c;
     c_metadata := c_metadata c;
     c_timeoutHandle := c_timeoutHandle c;
     c_result := v;
     c_error := c_error c;
     c_emitted := c_emitted c |}.

Definition set_error (v : option string) (c : t) : t :=
  {| c_id := c_id c;
     c_participants := c_participants c;
     c_protocol := c_protocol c;
     c_initiator := c_initiator c;
     c_timeout := c_timeout c;
     c_maxMessages := c_maxMessages c;
     c_created := c_created c;
     c_state := c_state c;
     c_updated := c_updated c;
     c_messages := c_messages c;
     c_messageIndex := c_messageIndex c;
     c_metadata := c_metadata c;
     c_timeoutHandle := c_timeoutHandle c;
     c_result := c_result c;
     c_error := v;
     c_emitted := c_emitted c |}.

Definition set_emitted (v : list Event) (c : t) : t :=
  {| c_id := c_id c;
     c_participants := c_participants c;
     c_protocol := c_protocol c;
     c_initiator := c_initiator c;
     c_timeout := c_timeout c;
     c_maxMessages := c_maxMessages c;
     c_created := c_created c;
     c_state := c_state c;
     c_updated := c_updated c;
     c_messages := c_messages c;
     c_messageIndex := c_messageIndex c;
     c_metadata := c_metadata c;
     c_timeoutHandle := c_timeoutHandle c;
     c_result := c_result c;
     c_error := c_error c;
     c_emitted := v |}.

Definition emit (e : Event) : M t Error unit :=
  modify (fun c => set_emitted (c_emitted c ++ [e]) c).

Local Open Scope js_scope.

(** [isActive] and [isTerminal] *)
Definition isActive (c : t) : bool := bool_decide (c_state c = active).

Definition isTerminal (c : t) : bool :=
  bool_decide (c_state c ∈ [completed; failed; cancelled; timeout]).

(** [clearTimeout] *)
Definition clearTimeout : M t Error unit :=
  modify (fun c =>
    match c_timeoutHandle c with
    | Some _ => set_timeoutHandle None c
    | None => c
    end).

(** [setupTimeout]: [if (this.timeout)] arms the timer. *)
Definition setupTimeout : M t Error unit :=
  modify (fun c =>
    if truthy_onum (c_timeout c) then set_timeoutHandle (c_timeout c) c else c).

(** [transitionTo] *)
Definition transitionTo (newState : ConversationState) (now : Z) : M t Error unit :=
  let! c := get in
  let oldState := c_state c in
  modify (set_state newState) ;;
  modify (set_updated now) ;;
  clearTimeout ;;
  emit (stateChanged newState oldState) ;;
  emit (entered newState).

(** The constructor. It validates, then builds the object in state
    [initiated] with an empty log. *)
Definition new (options : ConversationOptions) (uuid : string) (now : Z)
  : Outcome Error t :=
  if negb (truthy_str (o_initiator options)) then Throw InitiatorRequired
  else if bool_decide (length (o_participants options) = 0) then Throw NoParticipants
  else if truthy_onum (o_timeout options)
          && bool_decide (default 0 (o_timeout options) ≤ 0)%Z
       then Throw TimeoutNotPositive
  else if truthy_onum (o_maxMessages options)
          && bool_decide (default 0 (o_maxMessages options) ≤ 0)%Z
       then Throw MaxMessagesNotPositive
  else
    let participants := o_participants options in
    let c :=
      {| c_id := str_or (o_id options) uuid;
         c_participants :=
           if bool_decide (o_initiator options ∈ participants)
           then participants
           else participants ++ [o_initiator options];
         c_protocol := o_protocol options;
         c_initiator := o_initiator options;
         c_timeout := o_timeout options;
         c_maxMessages := o_maxMessages options;
         c_created := now;
         c_state := initiated;
         c_updated := now;
         c_messages := [];
         c_messageIndex := ∅;
         c_metadata := default ∅ (o_metadata options);
         c_timeoutHandle := None;
         c_result := JUndefined;
         c_error := None;
         c_emitted := [] |} in
    Return (state_of (setupTimeout c)).

(** [activate] *)
Definition activate (now : Z) : M t Error unit :=
  let! c := get in
  throw_if (negb (bool_decide (c_state c = initiated))) (CannotActivate (c_state c)) ;;
  transitionTo active now.

(** [setWaiting] *)
Definition setWaiting (now : Z) : M t Error unit :=
  let! c := get in
  throw_if (negb (isActive c)) (CannotSetWaiting (c_state c)) ;;
  transitionTo waiting now.

(** [complete] *)
Definition complete (result : JsValue) (now : Z) : M t Error unit :=
  let! c := get in
  throw_if (isTerminal c) (CannotComplete (c_state c)) ;;
  modify (set_result result) ;;
  transitionTo completed now.

(** [fail]; the argument is the message of the error (an [Error] is kept,
    a string is wrapped in one). *)
Definition fail (error : string) (now : Z) : M t Error unit :=
  let! c := get in
  throw_if (isTerminal c) (CannotFail (c_state c)) ;;
  modify (set_error (Some error)) ;;
  transitionTo failed now.

(** [cancel] *)
Definition cancel (reason : option string) (now : Z) : M t Error unit :=
  let! c := get in
  throw_if (isTerminal c) (CannotCancel (c_state c)) ;;
  when (truthy_ostr reason)
    (modify (fun c =>
       set_metadata (<["cancellationReason" := JStr (default "" reason)]> (c_metadata c)) c)) ;;
  transitionTo cancelled now.

(** [handleTimeout], the callback of the deadline timer *)
Definition handleTimeout (now : Z) : M t Error unit :=
  let! c := get in
  when (negb (isTerminal c)) (transitionTo timeout now).

(** [addMessage] *)
Definition addMessage (message : Message) (now : Z) : M t Error unit :=
  let! c := get in
  throw_if (match m_conversationId message with
            | Some cid => negb (bool_decide (cid = c_id c))
            | None => false
            end) ConversationIdMismatch ;;
  throw_if (truthy_onum (c_maxMessages c)
            && bool_decide (default 0 (c_maxMessages c) ≤ Z.of_nat (length (c_messages c)))%Z)
           MaxMessagesReached ;;
  modify (fun c => set_messages (c_messages c ++ [message]) c) ;;
  modify (fun c => set_messageIndex (<[m_id message := message]> (c_messageIndex c)) c) ;;
  modify (set_updated now) ;;
  emit (messageAdded message).

(** The queries *)
Definition getMessage (messageId : string) (c : t) : option Message :=
  c_messageIndex c !! messageId.

Definition getMessages (c : t) : list Message := c_messages c.

Definition getMessageCount (c : t) : nat := length (c_messages c).

Definition getLastMessage (c : t) : option Message := last (c_messages c).

Definition hasParticipant (agentId : string) (c : t) : bool :=
  bool_decide (agentId ∈ c_participants c).

Definition getParticipantCount (c : t) : nat := length (c_participants c).

(** [participants.indexOf(agentId)] followed by [splice(index, 1)]: the
    first occurrence is removed. *)
Fixpoint remove_first (agentId : string) (l : list string) : list string :=
  match l with
  | [] => []
  | x :: l' => if decide (x = agentId) then l' else x :: remove_first agentId l'
  end.

(** [addParticipant] *)
Definition addParticipant (agentId : string) (now : Z) : M t Error unit :=
  let! c := get in
  when (negb (bool_decide (agentId ∈ c_participants c)))
    (modify (fun c => set_participants (c_participants c ++ [agentId]) c) ;;
     modify (set_updated now) ;;
     emit (participantAdded agentId)).

(** [removeParticipant] *)
Definition removeParticipant (agentId : string) (now : Z) : M t Error unit :=
  let! c := get in
  throw_if (bool_decide (agentId = c_initiator c)) CannotRemoveInitiator ;;
  when (bool_decide (agentId ∈ c_participants c))
    (modify (fun c => set_participants (remove_first agentId (c_participants c)) c) ;;
     modify (set_updated now) ;;
     emit (participantRemoved agentId)).

(** [setMetadata]. The metadata of the model is the finite map of the own
    properties of [_metadata], and the write [this._metadata[key] = value]
    is the insertion under [key]. This is what the code does for every
    key but [__proto__], which a plain object hands to the setter of
    [Object.prototype]; the model does not follow the code there, nor in
    the sharing of the object with the options or the context it came
    from. *)
Definition setMetadata (key : string) (value : JsValue) (now : Z) : M t Error unit :=
  modify (fun c => set_metadata (<[key := value]> (c_metadata c)) c) ;;
  modify (set_updated now).

(** [ConversationContext] of src/types/index.ts. *)
Record ConversationContext : Type := mkContext {
  ctx_id : string;
  ctx_participants : list string;
  ctx_protocol : option string;
  ctx_state : ConversationState;
  ctx_metadata : option (gmap string JsValue);
  ctx_created : Z;
  ctx_updated : Z
}.

(** [toContext] *)
Definition toContext (c : t) : ConversationContext :=
  {| ctx_id := c_id c;
     ctx_participants := c_participants c;
     ctx_state := c_state c;
     ctx_metadata := Some (c_metadata c);
     ctx_created := c_created c;
     ctx_updated := c_updated c;
     ctx_protocol := c_protocol c |}.

(** The second argument of [fromContext]. *)
Record FromContextOptions : Type := mkFromContextOptions {
  fo_timeout : option Z;
  fo_maxMessages : option Z
}.

(** [Conversation.fromContext]: the first participant is taken as the
    initiator; the state and the last-updated time are written over the
    freshly constructed object. *)
Definition fromContext (context : ConversationContext)
    (options : option FromContextOptions) (uuid : string) (now : Z)
  : Outcome Error t :=
  match ctx_participants context with
  | [] => Throw NoParticipants
  | first :: _ =>
      let conversationOptions :=
        {| o_id := Some (ctx_id context);
           o_participants := ctx_participants context;
           o_initiator := first;
           o_protocol := ctx_protocol context;
           o_timeout := options ≫= fo_timeout;
           o_maxMessages := options ≫= fo_maxMessages;
           o_metadata := ctx_metadata context |} in
      match new conversationOptions uuid now with
      | Throw e => Throw e
      | Return conversation =>
          Return (set_updated (ctx_updated context)
                    (set_state (ctx_state context) conversation))
      end
  end.

(** The calls a conversation receives from its owner and from its timer. *)
Inductive Call : Type :=
  | Activate
  | SetWaiting
  | Complete (result : JsValue)
  | Fail (error : string)
  | Cancel (reason : option string)
  | AddMessage (message : Message)
  | AddParticipant (agentId : string)
  | RemoveParticipant (agentId : string)
  | SetMetadata (key : string) (value : JsValue)
  | TimerFires.

Definition call (op : Call) (now : Z) : M t Error unit :=
  match op with
  | Activate => activate now
  | SetWaiting => setWaiting now
  | Complete result => complete result now
  | Fail error => fail error now
  | Cancel reason => cancel reason now
  | AddMessage message => addMessage message now
  | AddParticipant agentId => addParticipant agentId now
  | RemoveParticipant agentId => removeParticipant agentId now
  | SetMetadata key value => setMetadata key value now
  | TimerFires =>
      let! c := get in
      when (bool_decide (is_Some (c_timeoutHandle c))) (handleTimeout now)
  end.

(** A sequence of calls, each with the clock reading at the call; a call
    that throws leaves the object as it is and the sequence goes on. *)
Fixpoint calls (ops : list (Call * Z)) (c : t) : t :=
  match ops with
  | [] => c
  | (op, now) :: ops' => calls ops' (state_of (call op now c))
  end.

(** The outcomes of a sequence of calls, in order. *)
Fixpoint outcomes (ops : list (Call * Z)) (c : t) : list (Outcome Error unit) :=
  match ops with
  | [] => []
  | (op, now) :: ops' =>
      outcome_of (call op now c) :: outcomes ops' (state_of (call op now c))
  end.

(** The conversations there are: built by the constructor or by
    [fromContext], then called. [uuidv4()] never returns the empty
    string. *)
Inductive reachable : t -> Prop :=
  | reachable_new options uuid now c :
      uuid <> "" -> new options uuid now = Return c -> reachable c
  | reachable_fromContext context options uuid now c :
      uuid <> "" -> fromContext context options uuid now = Return c -> reachable c
  | reachable_call op now c :
      reachable c -> reachable (state_of (call op now c)).

(** *** Vocabulary of the properties *)

(** The call [r] on [c] threw an error of kind [k] and left [c] as it was. *)
Definition rejected (k : ErrorKind) (r : Outcome Error unit * t) (c : t) : Prop :=
  exists e, r = (Throw e, c) /\ kind e = k.

(** [message] declares no conversation id other than that of [c]. *)
Definition compatible (c : t) (message : Message) : Prop :=
  m_conversationId message = None \/ m_conversationId message = Some (c_id c).

(** The log of [c] is below the configured maximum, if there is one. *)
Definition below_capacity (c : t) : Prop :=
  match c_maxMessages c with
  | Some n => n = 0%Z \/ (Z.of_nat (length (c_messages c)) < n)%Z
  | None => True
  end.

(** [c] comes out of the constructor with [maxMessages = n], called
    directly or by [fromContext]. *)
Definition built_with_maxMessages (n : Z) (c : t) : Prop :=
  (exists options uuid now,
      o_maxMessages options = Some n /\ new options uuid now = Return c)
  \/ (exists context options uuid now,
        fo_maxMessages options = Some n
        /\ fromContext context (Some options) uuid now = Return c).

(** The calls that append the messages [ms], each at its time. *)
Definition appends (ms : list (Message * Z)) : list (Call * Z) :=
  map (fun x => (AddMessage x.1, x.2)) ms.

(** The invariant of the identity and of the participant list. *)
Definition well_formed (c : t) : Prop :=
  c_id c <> "" /\ c_initiator c <> "" /\ c_initiator c ∈ c_participants c.

(** The options of [fromContext] that the constructor accepts. *)
Definition accepted (options : option FromContextOptions) : Prop :=
  match options with
  | Some o =>
      (forall n, fo_timeout o = Some n -> 0 <= n)%Z
      /\ (forall n, fo_maxMessages o = Some n -> 0 <= n)%Z
  | None => True
  end.

(** *** The remaining methods of the class *)

(** [getMessagesFrom] and [getMessagesByPerformative] *)
Definition getMessagesFrom (sender : string) (c : t) : list Message :=
  filter (fun msg => m_sender msg = sender) (c_messages c).

Definition getMessagesByPerformative (performative : string) (c : t) : list Message :=
  filter (fun msg => m_performative msg = performative) (c_messages c).

(** [findMessage] *)
Definition findMessage (messageId : string) (c : t) : option Message :=
  getMessage messageId c.

(** [getMetadata]: the own property under [key], and [undefined] when the
    object has none. The code answers a read under a name of
    [Object.prototype] that the object does not own with the member of
    the prototype, which is no value of the model: the model says what
    the code returns for a key that is not such a name
    ([ordinary_key] below). *)
Definition getMetadata (key : string) (c : t) : JsValue :=
  default JUndefined (c_metadata c !! key).

(** The names [Object.prototype] defines. *)
Definition Object_prototype_names : list string :=
  ["__proto__"; "constructor"; "hasOwnProperty"; "isPrototypeOf";
   "propertyIsEnumerable"; "toLocaleString"; "toString"; "valueOf";
   "__defineGetter__"; "__defineSetter__"; "__lookupGetter__";
   "__lookupSetter__"].

(** A key that is none of them: reads and writes of a plain object under
    such a key concern its own properties only. *)
Definition ordinary_key (key : string) : Prop := key ∉ Object_prototype_names.

(** [isCompleted], [isFailed], [isCancelled], [isTimedOut] *)
Definition isCompleted (c : t) : bool := bool_decide (c_state c = completed).
Definition isFailed (c : t) : bool := bool_decide (c_state c = failed).
Definition isCancelled (c : t) : bool := bool_decide (c_state c = cancelled).
Definition isTimedOut (c : t) : bool := bool_decide (c_state c = timeout).

(** How far a state is along the lifecycle. *)
Definition rank (st : ConversationState) : nat :=
  match st with
  | initiated => 0
  | active => 1
  | waiting => 2
  | completed | failed | timeout | cancelled => 3
  end.

(** The messages of the log with the id [messageId], oldest first. *)
Definition logged_as (messageId : string) (c : t) : list Message :=
  filter (fun msg => m_id msg = messageId) (c_messages c).

(** An observer of the events: it holds the state it believes the
    conversation to be in, and whether it has seen a ['stateChanged']
    whose second event, the one named after the new state, is still to
    come. An event that does not fit is the end of it. *)
Definition observe (seen : option (ConversationState * bool)) (e : Event)
  : option (ConversationState * bool) :=
  match seen, e with
  | Some (st, false), stateChanged newState oldState =>
      if decide (oldState = st) then Some (newState, true) else None
  | Some (st, true), entered newState =>
      if decide (newState = st) then Some (st, false) else None
  | Some (st, false), entered _ => None
  | Some (st, false), _ => Some (st, false)
  | Some (st, true), _ => None
  | None, _ => None
  end.

(** The observer of a conversation from its construction. *)
Definition follow (events : list Event) : option (ConversationState * bool) :=
  foldl observe (Some (initiated, false)) events.

(** The call has ended the conversation [c] in the state [st] at the
    time [now]: [c'] is in this terminal state, its timer is cleared, its
    last update is [now], the two events of the transition are emitted,
    and its log and participants are those of [c]. *)
Definition ended (st : ConversationState) (now : Z) (c c' : t) : Prop :=
  c_state c' = st
  /\ isTerminal c' = true
  /\ c_timeoutHandle c' = None
  /\ c_updated c' = now
  /\ c_emitted c' = c_emitted c ++ [stateChanged st (c_state c); entered st]
  /\ c_messages c' = c_messages c
  /\ c_participants c' = c_participants c.

(** The options the constructor accepts. *)
Definition valid_options (options : ConversationOptions) : Prop :=
  o_initiator options <> ""
  /\ o_participants options <> []
  /\ (forall n, o_timeout options = Some n -> 0 <= n)%Z
  /\ (forall n, o_maxMessages options = Some n -> 0 <= n)%Z.

End Conversation.

(** ** [RequestResponseProtocol] (src/ACP/src/conversation/protocols/request-response.ts)

    The protocol object is modelled together with the part of the runtime
    its methods act on:
    - the [PendingRequest] objects live in a store ([heap]) and the
      [pendingRequests] map holds references to them, because
      [retryRequest] keeps a reference across its [await] and writes to
      the object whether or not the map still holds it;
    - [timers] holds the timers that are armed: [setTimeout] adds one,
      [clearTimeout] and the firing remove it;
    - the promise returned by [initiateRequest] is identified with the
      [PendingRequest] object created for it, which holds its [resolve]
      and [reject]; [settled] records how and when it was settled (only
      the first settlement of a promise counts);
    - [clock] is the time in milliseconds. *)

Module RequestResponseProtocol.

Record RequestResponseOptions : Type := mkOptions {
  opt_timeout : option Z;
  opt_maxRetries : option Z;
  opt_retryDelay : option Z
}.

Definition no_options : RequestResponseOptions :=
  {| opt_timeout := None; opt_maxRetries := None; opt_retryDelay := None |}.

(** References to [PendingRequest] objects and timer handles. *)
Definition addr : Type := nat.
Definition handle : Type := nat.

Record PendingRequest : Type := mkPendingRequest {
  pr_id : string;
  pr_message : Message;
  pr_conversation : Conversation.t;
  pr_timeout : option handle;
  pr_retries : Z;
  pr_maxRetries : Z;
  pr_retryDelay : Z
}.

Definition pr_set_timeout (h : option handle) (r : PendingRequest) : PendingRequest :=
  {| pr_id := pr_id r;
     pr_message := pr_message r;
     pr_conversation := pr_conversation r;
     pr_timeout := h;
     pr_retries := pr_retries r;
     pr_maxRetries := pr_maxRetries r;
     pr_retryDelay := pr_retryDelay r |}.

Definition pr_set_retries (n : Z) (r : PendingRequest) : PendingRequest :=
  {| pr_id := pr_id r;
     pr_message := pr_message r;
     pr_conversation := pr_conversation r;
     pr_timeout := pr_timeout r;
     pr_retries := n;
     pr_maxRetries := pr_maxRetries r;
     pr_retryDelay := pr_retryDelay r |}.

(** What a timer runs when it fires: the arrow function of
    [initiateRequest] and [retryRequest] that calls [handleTimeout], or
    the rest of [retryRequest] after its [await] of the retry delay. *)
Inductive Callback : Type :=
  | HandleTimeout (requestId : string)
  | ResumeRetry (pendingRequest : addr).

Record Timer : Type := mkTimer {
  t_delay : Z;
  t_due : Z;
  t_callback : Callback
}.

(** One constructor per [new Error(...)] of the class, and the error of
    the [Message] constructor that [handleMessage] calls. *)
Inductive Error : Type :=
  | NotARequest                       (* Message must have performative request *)
  | RequestTimeout                    (* 'Request timeout' *)
  | RequestFailed (text : string)     (* the content of the failure, or 'Request failed' *)
  | RequestCancelled                  (* 'Request cancelled' *)
  | InvalidMessage (e : MessageError).

Inductive Settlement : Type :=
  | Resolved (response : Message)
  | Rejected (error : Error).

Inductive Event : Type :=
  | requestInitiated (message : Message) (conversation : Conversation.t)
  | requestReceived (message : Message) (conversation : Conversation.t)
  | responseReceived (message request : Message)
  | requestFailed (message request : Message) (error : Error)
  | requestTimeout (request : Message) (error : Error)
  | requestRetry (request : Message) (retries : Z)
  | requestCancelled (request : Message).

Record t : Type := mk {
  pendingRequests : gmap string addr;
  heap : gmap addr PendingRequest;
  nextAddr : addr;
  defaultTimeout : Z;
  defaultMaxRetries : Z;
  defaultRetryDelay : Z;
  timers : gmap handle Timer;
  nextTimer : handle;
  settled : gmap addr (Settlement * Z);
  emitted : list Event;
  clock : Z
}.

Definition set_pendingRequests (v : gmap string addr) (p : t) : t :=
  {| pendingRequests := v;
     heap := heap p;
     nextAddr := nextAddr p;
     defaultTimeout := defaultTimeout p;
     defaultMaxRetries := defaultMaxRetries p;
     defaultRetryDelay := defaultRetryDelay p;
     timers := timers p;
     nextTimer := nextTimer p;
     settled := settled p;
     emitted := emitted p;
     clock := clock p |}.

Definition set_heap (v : gmap addr PendingRequest) (p : t) : t :=
  {| pendingRequests := pendingRequests p;
     heap := v;
     nextAddr := nextAddr p;
     defaultTimeout := defaultTimeout p;
     defaultMaxRetries := defaultMaxRetries p;
     defaultRetryDelay := defaultRetryDelay p;
     timers := timers p;
     nextTimer := nextTimer p;
     settled := settled p;
     emitted := emitted p;
     clock := clock p |}.

Definition set_nextAddr (v : addr) (p : t) : t :=
  {| pendingRequests := pendingRequests p;
     heap := heap p;
     nextAddr := v;
     defaultTimeout := defaultTimeout p;
     defaultMaxRetries := defaultMaxRetries p;
     defaultRetryDelay := defaultRetryDelay p;
     timers := timers p;
     nextTimer := nextTimer p;
     settled := settled p;
     emitted := emitted p;
     clock := clock p |}.

Definition set_timers (v : gmap handle Timer) (p : t) : t :=
  {| pendingRequests := pendingRequests p;
     heap := heap p;
     nextAddr := nextAddr p;
     defaultTimeout := defaultTimeout p;
     defaultMaxRetries := defaultMaxRetries p;
     defaultRetryDelay := defaultRetryDelay p;
     timers := v;
     nextTimer := nextTimer p;
     settled := settled p;
     emitted := emitted p;
     clock := clock p |}.

Definition set_nextTimer (v : handle) (p : t) : t :=
  {| pendingRequests := pendingRequests p;
     heap := heap p;
     nextAddr := nextAddr p;
     defaultTimeout := defaultTimeout p;
     defaultMaxRetries := defaultMaxRetries p;
     defaultRetryDelay := defaultRetryDelay p;
     timers := timers p;
     nextTimer := v;
     settled := settled p;
     emitted := emitted p;
     clock := clock p |}.

Definition set_settled (v : gmap addr (Settlement * Z)) (p : t) : t :=
  {| pendingRequests := pendingRequests p;
     heap := heap p;
     nextAddr := nextAddr p;
     defaultTimeout := defaultTimeout p;
     defaultMaxRetries := defaultMaxRetries p;
     defaultRetryDelay := defaultRetryDelay p;
     timers := timers p;
     nextTimer := nextTimer p;
     settled := v;
     emitted := emitted p;
     clock := clock p |}.

Definition set_emitted (v : list Event) (p : t) : t :=
  {| pendingRequests := pendingRequests p;
     heap := heap p;
     nextAddr := nextAddr p;
     defaultTimeout := defaultTimeout p;
     defaultMaxRetries := defaultMaxRetries p;
     defaultRetryDelay := defaultRetryDelay p;
     timers := timers p;
     nextTimer := nextTimer p;
     settled := settled p;
     emitted := v;
     clock := clock p |}.

Definition set_clock (v : Z) (p : t) : t :=
  {| pendingRequests := pendingRequests p;
     heap := heap p;
     nextAddr := nextAddr p;
     defaultTimeout := defaultTimeout p;
     defaultMaxRetries := defaultMaxRetries p;
     defaultRetryDelay := defaultRetryDelay p;
     timers := timers p;
     nextTimer := nextTimer p;
     settled := settled p;
     emitted := emitted p;
     clock := v |}.

Local Open Scope js_scope.
Local Open Scope Z_scope.

(** The constructor; the clock starts at [0]. *)
Definition new (options : RequestResponseOptions) : t :=
  {| pendingRequests := ∅;
     heap := ∅;
     nextAddr := 0%nat;
     defaultTimeout := num_or (opt_timeout options) 30000;
     defaultMaxRetries := num_or (opt_maxRetries options) 3;
     defaultRetryDelay := num_or (opt_retryDelay options) 1000;
     timers := ∅;
     nextTimer := 0%nat;
     settled := ∅;
     emitted := [];
     clock := 0 |}.

Definition emit (e : Event) : M t Error unit :=
  modify (fun p => set_emitted (emitted p ++ [e]) p).

(** The runtime takes a delay below 1 or above 2^31-1 as 1. *)
Definition effective_delay (delay : Z) : Z :=
  if bool_decide (delay < 1 ∨ 2147483647 < delay) then 1 else delay.

(** [setTimeout(callback, delay)] returns the handle of the new timer. *)
Definition setTimeout (callback : Callback) (delay : Z) : M t Error handle :=
  let! p := get in
  let h := nextTimer p in
  modify (set_timers (<[h := {| t_delay := delay;
                                t_due := clock p + effective_delay delay;
                                t_callback := callback |}]> (timers p))) ;;
  modify (set_nextTimer (S h)) ;;
  ret h.

(** [clearTimeout(h)] *)
Definition clearTimeout (h : handle) : M t Error unit :=
  modify (fun p => set_timers (delete h (timers p)) p).

(** [resolve] and [reject] of the promise of the object at [a]. *)
Definition settle (a : addr) (r : Settlement) : M t Error unit :=
  modify (fun p =>
    match settled p !! a with
    | Some _ => p
    | None => set_settled (<[a := (r, clock p)]> (settled p)) p
    end).

(** [this.pendingRequests.get(requestId)]: the reference, and the object it
    points to as it is now. *)
Definition getPendingRequest (requestId : string) (p : t) : option (addr * PendingRequest) :=
  a ← pendingRequests p !! requestId;
  r ← heap p !! a;
  Some (a, r).

(** A write to a field of the object at [a]. *)
Definition update (a : addr) (f : PendingRequest -> PendingRequest) : M t Error unit :=
  modify (fun p => set_heap (alter f a (heap p)) p).

(** [clearPendingRequest] *)
Definition clearPendingRequest (requestId : string) : M t Error unit :=
  let! p := get in
  match getPendingRequest requestId p with
  | Some (_, pendingRequest) =>
      match pr_timeout pendingRequest with
      | Some h => clearTimeout h
      | None => ret tt
      end ;;
      modify (fun p => set_pendingRequests (delete requestId (pendingRequests p)) p)
  | None => ret tt
  end.

(** [initiateRequest]. The function is [async]: its [throw] rejects the
    promise it returns, which is the outcome [Throw] here; otherwise the
    promise of the new object is returned. *)
Definition initiateRequest (message : Message) (conversation : Conversation.t)
    (options : RequestResponseOptions) : M t Error addr :=
  throw_if (negb (bool_decide (m_performative message = "request"))) NotARequest ;;
  let! p := get in
  let timeout := num_or (opt_timeout options) (defaultTimeout p) in
  let maxRetries := num_or (opt_maxRetries options) (defaultMaxRetries p) in
  let retryDelay := num_or (opt_retryDelay options) (defaultRetryDelay p) in
  let a := nextAddr p in
  modify (set_heap (<[a := {| pr_id := m_id message;
                              pr_message := message;
                              pr_conversation := conversation;
                              pr_timeout := None;
                              pr_retries := 0;
                              pr_maxRetries := maxRetries;
                              pr_retryDelay := retryDelay |}]> (heap p))) ;;
  modify (set_nextAddr (S a)) ;;
  when (bool_decide (0 < timeout))
    (let! h := setTimeout (HandleTimeout (m_id message)) timeout in
     update a (pr_set_timeout (Some h))) ;;
  modify (fun p => set_pendingRequests (<[m_id message := a]> (pendingRequests p)) p) ;;
  emit (requestInitiated message conversation) ;;
  ret a.

(** [handleRequest] *)
Definition handleRequest (message : Message) (conversation : Conversation.t)
  : M t Error unit :=
  emit (requestReceived message conversation).

(** [handleResponse] *)
Definition handleResponse (message : Message) : M t Error unit :=
  if negb (truthy_ostr (m_inReplyTo message)) then ret tt
  else
    let inReplyTo := default "" (m_inReplyTo message) in
    let! p := get in
    match getPendingRequest inReplyTo p with
    | None => ret tt
    | Some (a, pendingRequest) =>
        clearPendingRequest inReplyTo ;;
        settle a (Resolved message) ;;
        emit (responseReceived message (pr_message pendingRequest))
    end.

(** [retryRequest] up to its [await]: the rest runs when the timer of the
    retry delay fires. *)
Definition retryRequest (a : addr) : M t Error unit :=
  update a (fun r => pr_set_retries (pr_retries r + 1) r) ;;
  let! p := get in
  match heap p !! a with
  | None => ret tt
  | Some pendingRequest =>
      match pr_timeout pendingRequest with
      | Some h => clearTimeout h
      | None => ret tt
      end ;;
      let! _ := setTimeout (ResumeRetry a) (pr_retryDelay pendingRequest) in
      ret tt
  end.

(** [retryRequest] after its [await]. *)
Definition retryRequest_resume (a : addr) : M t Error unit :=
  let! p := get in
  match heap p !! a with
  | None => ret tt
  | Some pendingRequest =>
      let timeout := defaultTimeout p in
      when (bool_decide (0 < timeout))
        (let! h := setTimeout (HandleTimeout (pr_id pendingRequest)) timeout in
         update a (pr_set_timeout (Some h))) ;;
      emit (requestRetry (pr_message pendingRequest) (pr_retries pendingRequest))
  end.

(** [handleFailure] *)
Definition handleFailure (message : Message) : M t Error unit :=
  if negb (truthy_ostr (m_inReplyTo message)) then ret tt
  else
    let inReplyTo := default "" (m_inReplyTo message) in
    let! p := get in
    match getPendingRequest inReplyTo p with
    | None => ret tt
    | Some (a, pendingRequest) =>
        let error :=
          RequestFailed (str_or (js_toString (m_content message)) "Request failed") in
        if bool_decide (pr_retries pendingRequest < pr_maxRetries pendingRequest)
        then retryRequest a
        else
          clearPendingRequest inReplyTo ;;
          settle a (Rejected error) ;;
          emit (requestFailed message (pr_message pendingRequest) error)
    end.

(** [handleTimeout] *)
Definition handleTimeout (requestId : string) : M t Error unit :=
  let! p := get in
  match getPendingRequest requestId p with
  | None => ret tt
  | Some (a, pendingRequest) =>
      let error := RequestTimeout in
      if bool_decide (pr_retries pendingRequest < pr_maxRetries pendingRequest)
      then retryRequest a
      else
        clearPendingRequest requestId ;;
        settle a (Rejected error) ;;
        emit (requestTimeout (pr_message pendingRequest) error)
  end.

(** [handleMessageWithConversation] *)
Definition handleMessageWithConversation (message : Message)
    (conversation : Conversation.t) : M t Error unit :=
  if bool_decide (m_performative message = "inform") && truthy_ostr (m_inReplyTo message)
  then handleResponse message
  else if bool_decide (m_performative message = "request")
  then handleRequest message conversation
  else if bool_decide (m_performative message = "failure")
          && truthy_ostr (m_inReplyTo message)
  then handleFailure message
  else ret tt.

(** [handleMessage] of the [ProtocolHandler] interface: it builds a
    [Message] from the plain object it is given, which validates it. *)
Definition handleMessage (message : Message) (uuid : string) : M t Error unit :=
  let! p := get in
  let messageOptions :=
    {| mo_id := Some (m_id message);
       mo_performative := m_performative message;
       mo_sender := m_sender message;
       mo_receiver := m_receiver message;
       mo_content := m_content message;
       mo_timestamp := Some (m_timestamp message);
       mo_conversationId := m_conversationId message;
       mo_inReplyTo := m_inReplyTo message |} in
  match Message_new messageOptions uuid (clock p) with
  | inl e => throw (InvalidMessage e)
  | inr internalMessage =>
      if bool_decide (m_performative message = "inform")
         && truthy_ostr (m_inReplyTo message)
      then handleResponse internalMessage
      else if bool_decide (m_performative message = "failure")
              && truthy_ostr (m_inReplyTo message)
      then handleFailure internalMessage
      else ret tt
  end.

(** [cancelRequest] *)
Definition cancelRequest (requestId : string) : M t Error bool :=
  let! p := get in
  match getPendingRequest requestId p with
  | Some (a, pendingRequest) =>
      clearPendingRequest requestId ;;
      settle a (Rejected RequestCancelled) ;;
      emit (requestCancelled (pr_message pendingRequest)) ;;
      ret true
  | None => ret false
  end.

(** [getPendingRequestCount], [hasPendingRequests] *)
Definition getPendingRequestCount (p : t) : nat := size (pendingRequests p).

Definition hasPendingRequests (p : t) : bool :=
  bool_decide (0 < size (pendingRequests p))%nat.

(** [getCurrentState] *)
Definition getCurrentState (p : t) : string :=
  if bool_decide (size (pendingRequests p) = 0%nat) then "idle" else "waiting".

(** *** The event loop *)

(** The timer [h] fires: it is no longer armed, and its callback runs, at
    its due time or now if that is past. *)
Definition fire (h : handle) : M t Error unit :=
  let! p := get in
  match timers p !! h with
  | None => ret tt
  | Some tm =>
      modify (set_timers (delete h (timers p))) ;;
      modify (set_clock (Z.max (clock p) (t_due tm))) ;;
      match t_callback tm with
      | HandleTimeout requestId => handleTimeout requestId
      | ResumeRetry a => retryRequest_resume a
      end
  end.

(** The armed timer that is due first (the older one of two due at the
    same time). *)
Definition earlier (x y : handle * Timer) : bool :=
  bool_decide (t_due x.2 < t_due y.2 ∨ (t_due x.2 = t_due y.2 ∧ x.1 < y.1)%nat).

Definition next_timer (p : t) : option (handle * Timer) :=
  foldr (fun x best =>
           match best with
           | None => Some x
           | Some y => if earlier x y then Some x else Some y
           end) None (map_to_list (timers p)).

(** The loop runs the timers that are due by [deadline], in order, and
    then lets the clock reach [deadline]. *)
Fixpoint run_until (fuel : nat) (deadline : Z) (p : t) : option t :=
  match next_timer p with
  | Some (h, tm) =>
      if bool_decide (t_due tm ≤ deadline) then
        match fuel with
        | O => None
        | S fuel' => run_until fuel' deadline (state_of (fire h p))
        end
      else Some (set_clock (Z.max (clock p) deadline) p)
  | None => Some (set_clock (Z.max (clock p) deadline) p)
  end.

(** What reaches the protocol: the calls of its owner, the messages of the
    transport, and its timers. *)
Inductive Input : Type :=
  | InitiateRequest (message : Message) (conversation : Conversation.t)
      (options : RequestResponseOptions)
  | Receive (message : Message) (conversation : Conversation.t)
  | ReceivePlain (message : Message) (uuid : string)
  | CancelRequest (requestId : string)
  | TimerFires (h : handle)
  | Elapse (ms : Z).

Definition step (i : Input) (p : t) : t :=
  match i with
  | InitiateRequest message conversation options =>
      state_of (initiateRequest message conversation options p)
  | Receive message conversation =>
      state_of (handleMessageWithConversation message conversation p)
  | ReceivePlain message uuid => state_of (handleMessage message uuid p)
  | CancelRequest requestId => state_of (cancelRequest requestId p)
  | TimerFires h => state_of (fire h p)
  | Elapse ms => set_clock (clock p + Z.max 0 ms) p
  end.

Definition steps (inputs : list Input) (p : t) : t :=
  foldl (fun p i => step i p) p inputs.

(** The [Message] values there are come from the constructor. *)
Definition constructed (message : Message) : Prop :=
  exists options uuid now,
    uuid <> "" /\ Message_new options uuid now = inr message.

(** The inputs that carry a [Message] carry a constructed one;
    [handleMessage] takes any plain object of the shape. *)
Definition admissible (i : Input) : Prop :=
  match i with
  | InitiateRequest message _ _ => constructed message
  | Receive message _ => constructed message
  | _ => True
  end.

(** The states the protocol can be in. *)
Inductive reachable : t -> Prop :=
  | reachable_new options : reachable (new options)
  | reachable_step i p : reachable p -> admissible i -> reachable (step i p).

(** *** Vocabulary of the properties *)

#[global] Instance Callback_eq_dec : EqDecision Callback.
Proof. solve_decision. Defined.

(** The armed deadline timers of the request [requestId]: those that will
    call [handleTimeout(requestId)]. *)
Definition deadline_timers (requestId : string) (p : t) : gmap handle Timer :=
  filter (fun x => t_callback x.2 = HandleTimeout requestId) (timers p).

(** The armed timers of a retry delay of the object at [a]. *)
Definition delay_timers (a : addr) (p : t) : gmap handle Timer :=
  filter (fun x => t_callback x.2 = ResumeRetry a) (timers p).

(** The protocol keeps its three defaults. *)
Definition same_defaults (p p' : t) : Prop :=
  defaultTimeout p' = defaultTimeout p
  /\ defaultMaxRetries p' = defaultMaxRetries p
  /\ defaultRetryDelay p' = defaultRetryDelay p.

(** The timers once the handle of [r], if it has one, is cleared. *)
Definition cleared (r : PendingRequest) (tms : gmap handle Timer) : gmap handle Timer :=
  match pr_timeout r with
  | Some h => delete h tms
  | None => tms
  end.

(** The settlements once the promise at [a] is settled with [s] at time [now]. *)
Definition settled_with (a : addr) (s : Settlement) (now : Z)
    (st : gmap addr (Settlement * Z)) : gmap addr (Settlement * Z) :=
  match st !! a with
  | Some _ => st
  | None => <[a := (s, now)]> st
  end.

(** The entry of [requestId] is dropped and the promise at [a] settled
    with [s]; the event [e] is emitted. *)
Definition finished (requestId : string) (a : addr) (r : PendingRequest)
    (s : Settlement) (e : Event) (p p' : t) : Prop :=
  pendingRequests p' = delete requestId (pendingRequests p)
  /\ heap p' = heap p
  /\ nextAddr p' = nextAddr p
  /\ timers p' = cleared r (timers p)
  /\ nextTimer p' = nextTimer p
  /\ settled p' = settled_with a s (clock p) (settled p)
  /\ emitted p' = emitted p ++ [e]
  /\ clock p' = clock p
  /\ same_defaults p p'.

(** The first half of a retry of the object at [a]: one more retry is
    counted, the handle of [r] is cleared and the timer of the retry delay
    is armed. *)
Definition retrying (a : addr) (r : PendingRequest) (p p' : t) : Prop :=
  pendingRequests p' = pendingRequests p
  /\ heap p' = <[a := pr_set_retries (pr_retries r + 1) r]> (heap p)
  /\ nextAddr p' = nextAddr p
  /\ timers p' = <[nextTimer p := {| t_delay := pr_retryDelay r;
                                     t_due := clock p + effective_delay (pr_retryDelay r);
                                     t_callback := ResumeRetry a |}]>
                   (cleared r (timers p))
  /\ nextTimer p' = S (nextTimer p)
  /\ settled p' = settled p
  /\ emitted p' = emitted p
  /\ clock p' = clock p
  /\ same_defaults p p'.

(** The second half of a retry, when the default timeout is positive: a
    deadline timer of that duration is armed, its handle stored in the
    object, and the retry announced. *)
Definition rearmed (a : addr) (r : PendingRequest) (p p' : t) : Prop :=
  pendingRequests p' = pendingRequests p
  /\ heap p' = <[a := pr_set_timeout (Some (nextTimer p)) r]> (heap p)
  /\ nextAddr p' = nextAddr p
  /\ timers p' = <[nextTimer p := {| t_delay := defaultTimeout p;
                                     t_due := clock p + effective_delay (defaultTimeout p);
                                     t_callback := HandleTimeout (pr_id r) |}]> (timers p)
  /\ nextTimer p' = S (nextTimer p)
  /\ settled p' = settled p
  /\ emitted p' = emitted p ++ [requestRetry (pr_message r) (pr_retries r)]
  /\ clock p' = clock p
  /\ same_defaults p p'.

(** The second half of a retry, when the default timeout is not positive:
    the retry is announced and nothing is armed. *)
Definition not_rearmed (r : PendingRequest) (p p' : t) : Prop :=
  pendingRequests p' = pendingRequests p
  /\ heap p' = heap p
  /\ nextAddr p' = nextAddr p
  /\ timers p' = timers p
  /\ nextTimer p' = nextTimer p
  /\ settled p' = settled p
  /\ emitted p' = emitted p ++ [requestRetry (pr_message r) (pr_retries r)]
  /\ clock p' = clock p
  /\ same_defaults p p'.

(** The new object of [initiateRequest]. *)
Definition new_request (message : Message) (conversation : Conversation.t)
    (options : RequestResponseOptions) (p : t) : PendingRequest :=
  {| pr_id := m_id message;
     pr_message := message;
     pr_conversation := conversation;
     pr_timeout :=
       if bool_decide (0 < num_or (opt_timeout options) (defaultTimeout p))
       then Some (nextTimer p) else None;
     pr_retries := 0;
     pr_maxRetries := num_or (opt_maxRetries options) (defaultMaxRetries p);
     pr_retryDelay := num_or (opt_retryDelay options) (defaultRetryDelay p) |}.

(** What [initiateRequest] does with a request: the new object is stored
    and entered in the map under the id of the message, its deadline
    timer is armed when the timeout is positive, and
    ['requestInitiated'] is emitted. *)
Definition initiated (message : Message) (conversation : Conversation.t)
    (options : RequestResponseOptions) (p p' : t) : Prop :=
  let timeout := num_or (opt_timeout options) (defaultTimeout p) in
  pendingRequests p' = <[m_id message := nextAddr p]> (pendingRequests p)
  /\ heap p' = <[nextAddr p := new_request message conversation options p]> (heap p)
  /\ nextAddr p' = S (nextAddr p)
  /\ timers p' =
       (if bool_decide (0 < timeout)
        then <[nextTimer p := {| t_delay := timeout;
                                 t_due := clock p + effective_delay timeout;
                                 t_callback := HandleTimeout (m_id message) |}]> (timers p)
        else timers p)
  /\ nextTimer p' = (if bool_decide (0 < timeout) then S (nextTimer p) else nextTimer p)
  /\ settled p' = settled p
  /\ emitted p' = emitted p ++ [requestInitiated message conversation]
  /\ clock p' = clock p
  /\ same_defaults p p'.

(** The state in which the callback of the timer [h] runs when it fires. *)
Definition fired (h : handle) (tm : Timer) (p : t) : t :=
  set_clock (Z.max (clock p) (t_due tm)) (set_timers (delete h (timers p)) p).


(** *** The timers of a pending request *)










(** What holds of the store in every state: references and handles in
    use are below the next ones to be given out, an entry of the map refers
    to an object with the id of its key, the promise of a pending request
    is not settled, and a settled promise is that of an object there is. *)
Definition well_formed (p : t) : Prop :=
  (forall a r, heap p !! a = Some r -> (a < nextAddr p)%nat)
  /\ (forall h tm, timers p !! h = Some tm -> (h < nextTimer p)%nat)
  /\ (forall a r h, heap p !! a = Some r -> pr_timeout r = Some h ->
        (h < nextTimer p)%nat)
  /\ (forall requestId a, pendingRequests p !! requestId = Some a ->
        exists r, heap p !! a = Some r /\ pr_id r = requestId)
  /\ (forall requestId a, pendingRequests p !! requestId = Some a ->
        settled p !! a = None)
  /\ (forall a s, settled p !! a = Some s -> (a < nextAddr p)%nat).





(** What an input does to the map of pending requests and to the
    promises: nothing; or it drops an entry and settles the promise of
    the object the entry referred to, which was not settled; or it enters
    a new object under an id. *)
Definition store_step (p p' : t) : Prop :=
  (pendingRequests p' = pendingRequests p /\ settled p' = settled p
   /\ nextAddr p' = nextAddr p)
  \/ (exists requestId a s,
        pendingRequests p !! requestId = Some a /\ settled p !! a = None
        /\ pendingRequests p' = delete requestId (pendingRequests p)
        /\ settled p' = <[a := s]> (settled p)
        /\ nextAddr p' = nextAddr p)
  \/ (exists requestId,
        pendingRequests p' = <[requestId := nextAddr p]> (pendingRequests p)
        /\ settled p' = settled p
        /\ nextAddr p' = S (nextAddr p)).

(** The promise of the object at [a] is orphaned: it is not settled and
    no entry of the map refers to the object. *)
Definition orphaned (a : addr) (p : t) : Prop :=
  (a < nextAddr p)%nat
  /\ settled p !! a = None
  /\ forall requestId, pendingRequests p !! requestId <> Some a.

(** What holds of every object of the store: it holds a request, under
    the id of this request, and it counts no more retries than its
    maximum allows (none, when the maximum is not positive). *)
Definition within_budget (r : PendingRequest) : Prop :=
  m_id (pr_message r) = pr_id r
  /\ m_performative (pr_message r) = "request"
  /\ (0 <= pr_retries r)%Z
  /\ (pr_retries r <= Z.max 0 (pr_maxRetries r))%Z.

Definition budget_kept (p : t) : Prop :=
  forall a r, heap p !! a = Some r -> within_budget r.

(** What holds of the timers in every state, orderly or not: the timer
    of a retry delay refers to an object of the store, and the handle an
    object holds, if it is armed, is that of a deadline timer of the
    request of the object. *)
Definition handles_sound (p : t) : Prop :=
  (forall h tm a,
      timers p !! h = Some tm -> t_callback tm = ResumeRetry a ->
      is_Some (heap p !! a))
  /\ (forall a r h tm,
        heap p !! a = Some r -> pr_timeout r = Some h -> timers p !! h = Some tm ->
        t_callback tm = HandleTimeout (pr_id r)).


(** *** The remaining methods of the class *)

(** [validateMessage] *)
Definition validateMessage (message : Message) : bool :=
  bool_decide (m_performative message ∈ ["request"; "inform"; "failure"]).

(** [createResponse]; [new Message] may throw. *)
Definition createResponse (request : Message) (content : JsValue) (sender : string)
    (uuid : string) (now : Z) : MessageError + Message :=
  Message_new {| mo_id := None;
                 mo_timestamp := None;
                 mo_sender := sender;
                 mo_receiver := inl (m_sender request);
                 mo_performative := "inform";
                 mo_content := content;
                 mo_inReplyTo := Some (m_id request);
                 mo_conversationId := m_conversationId request |} uuid now.

(** [createFailure]; [error] is the message of the error, or the string. *)
Definition createFailure (request : Message) (error : string) (sender : string)
    (uuid : string) (now : Z) : MessageError + Message :=
  Message_new {| mo_id := None;
                 mo_timestamp := None;
                 mo_sender := sender;
                 mo_receiver := inl (m_sender request);
                 mo_performative := "failure";
                 mo_content := JStr error;
                 mo_inReplyTo := Some (m_id request);
                 mo_conversationId := m_conversationId request |} uuid now.

(** [cancelAllRequests]. [requestIds] stands for
    [Array.from(this.pendingRequests.keys())]: the keys of the map in the
    order of their insertion, which the map of the model does not record;
    the caller of the model passes an enumeration of the keys. *)
Fixpoint cancelEach (requestIds : list string) : M t Error unit :=
  match requestIds with
  | [] => ret tt
  | requestId :: rest =>
      let! _ := cancelRequest requestId in
      cancelEach rest
  end.

Definition cancelAllRequests (requestIds : list string) : M t Error unit :=
  cancelEach requestIds.

(** [cleanup]; the listeners it removes are outside the model. *)
Definition cleanup (requestIds : list string) : M t Error unit :=
  cancelAllRequests requestIds.

(** [getStates] *)
Definition getStates : list string := ["idle"; "waiting"; "processing"].

(** [requestIds] enumerates the keys of the map of pending requests. *)
Definition enumerates (requestIds : list string) (p : t) : Prop :=
  NoDup requestIds
  /\ forall requestId, requestId ∈ requestIds <-> is_Some (pendingRequests p !! requestId).

(** The events ['requestCancelled'] of the requests pending in [p] under
    [requestIds], in this order. *)
Definition cancellations (requestIds : list string) (p : t) : list Event :=
  omap (fun requestId =>
          '(_, r) ← getPendingRequest requestId p;
          Some (requestCancelled (pr_message r))) requestIds.

End RequestResponseProtocol.

(** ** Concrete data for the examples *)

Module Examples.

Definition request_r1 : Message :=
  {| m_id := "r1"; m_conversationId := None; m_performative := "request";
     m_sender := "A"; m_receiver := inl "B"; m_content := JStr "ping";
     m_timestamp := 7; m_inReplyTo := None |}.

Definition inform_r1 : Message :=
  {| m_id := "i1"; m_conversationId := None; m_performative := "inform";
     m_sender := "B"; m_receiver := inl "A"; m_content := JStr "pong";
     m_timestamp := 5; m_inReplyTo := Some "r1" |}.

Definition failure_r1 : Message :=
  {| m_id := "f1"; m_conversationId := None; m_performative := "failure";
     m_sender := "B"; m_receiver := inl "A"; m_content := JStr "busy";
     m_timestamp := 5; m_inReplyTo := Some "r1" |}.

Definition options_AB : Conversation.ConversationOptions :=
  {| Conversation.o_id := Some "c1";
     Conversation.o_participants := ["A"; "B"];
     Conversation.o_protocol := None;
     Conversation.o_initiator := "A";
     Conversation.o_timeout := None;
     Conversation.o_maxMessages := None;
     Conversation.o_metadata := None |}.

(** [new Conversation({id: 'c1', participants: ['A', 'B'], initiator: 'A'})] *)
Definition conversation_AB : Conversation.t :=
  {| Conversation.c_id := "c1";
     Conversation.c_participants := ["A"; "B"];
     Conversation.c_protocol := None;
     Conversation.c_initiator := "A";
     Conversation.c_timeout := None;
     Conversation.c_maxMessages := None;
     Conversation.c_created := 0;
     Conversation.c_state := Conversation.initiated;
     Conversation.c_updated := 0;
     Conversation.c_messages := [];
     Conversation.c_messageIndex := ∅;
     Conversation.c_metadata := ∅;
     Conversation.c_timeoutHandle := None;
     Conversation.c_result := JUndefined;
     Conversation.c_error := None;
     Conversation.c_emitted := [] |}.

(** The same after [complete()] at time 1. *)
Definition conversation_completed : Conversation.t :=
  state_of (Conversation.complete JUndefined 1 conversation_AB).

(** [{id: 'c2', participants: ['A', 'B'], initiator: 'A', maxMessages: 2}] *)
Definition options_max2 : Conversation.ConversationOptions :=
  {| Conversation.o_id := Some "c2";
     Conversation.o_participants := ["A"; "B"];
     Conversation.o_protocol := None;
     Conversation.o_initiator := "A";
     Conversation.o_timeout := None;
     Conversation.o_maxMessages := Some 2%Z;
     Conversation.o_metadata := None |}.

Definition conversation_max2 : Conversation.t :=
  match Conversation.new options_max2 "u" 0 with
  | Return c => c
  | Throw _ => conversation_AB
  end.

(** [{id: 'c3', participants: [''], initiator: 'A'}] *)
Definition options_blank_first : Conversation.ConversationOptions :=
  {| Conversation.o_id := Some "c3";
     Conversation.o_participants := [""];
     Conversation.o_protocol := None;
     Conversation.o_initiator := "A";
     Conversation.o_timeout := None;
     Conversation.o_maxMessages := None;
     Conversation.o_metadata := None |}.

(** [{id: 'c4', participants: ['B', 'B'], initiator: 'A'}] *)
Definition options_twice_B : Conversation.ConversationOptions :=
  {| Conversation.o_id := Some "c4";
     Conversation.o_participants := ["B"; "B"];
     Conversation.o_protocol := None;
     Conversation.o_initiator := "A";
     Conversation.o_timeout := None;
     Conversation.o_maxMessages := None;
     Conversation.o_metadata := None |}.

(** A protocol with the defaults, and [request_r1] initiated on it with
    [{timeout: 50, maxRetries: 0}]. *)
Definition options_50_0 : RequestResponseProtocol.RequestResponseOptions :=
  {| RequestResponseProtocol.opt_timeout := Some 50%Z;
     RequestResponseProtocol.opt_maxRetries := Some 0%Z;
     RequestResponseProtocol.opt_retryDelay := None |}.

Definition protocol_50_0 : RequestResponseProtocol.t :=
  RequestResponseProtocol.step
    (RequestResponseProtocol.InitiateRequest request_r1 conversation_AB options_50_0)
    (RequestResponseProtocol.new RequestResponseProtocol.no_options).

(** A protocol with the defaults and [request_r1] initiated with no options. *)
Definition protocol_r1 : RequestResponseProtocol.t :=
  RequestResponseProtocol.step
    (RequestResponseProtocol.InitiateRequest request_r1 conversation_AB
       RequestResponseProtocol.no_options)
    (RequestResponseProtocol.new RequestResponseProtocol.no_options).

(** [new RequestResponseProtocol({timeout: -1})] *)
Definition options_negative : RequestResponseProtocol.RequestResponseOptions :=
  {| RequestResponseProtocol.opt_timeout := Some (-1)%Z;
     RequestResponseProtocol.opt_maxRetries := None;
     RequestResponseProtocol.opt_retryDelay := None |}.

(** [{timeout: 50}] *)
Definition options_50 : RequestResponseProtocol.RequestResponseOptions :=
  {| RequestResponseProtocol.opt_timeout := Some 50%Z;
     RequestResponseProtocol.opt_maxRetries := None;
     RequestResponseProtocol.opt_retryDelay := None |}.


(** On a protocol built with [{timeout: -1}], [request_r1] is initiated
    with [{timeout: 50}] and no reply ever comes. *)
Definition protocol_negative_50 : RequestResponseProtocol.t :=
  RequestResponseProtocol.step
    (RequestResponseProtocol.InitiateRequest request_r1 conversation_AB options_50)
    (RequestResponseProtocol.new options_negative).

(** On a protocol with the defaults, [request_r1] is initiated with
    [{timeout: 50}]. *)
Definition protocol_50 : RequestResponseProtocol.t :=
  RequestResponseProtocol.step
    (RequestResponseProtocol.InitiateRequest request_r1 conversation_AB options_50)
    (RequestResponseProtocol.new RequestResponseProtocol.no_options).

(** [protocol_r1] after the reply [failure_r1]: the retry delay of the
    request is running. *)
Definition protocol_r1_delay : RequestResponseProtocol.t :=
  RequestResponseProtocol.step
    (RequestResponseProtocol.Receive failure_r1 conversation_AB) protocol_r1.

(** [protocol_r1] after [request_r1] is initiated a second time. *)
Definition protocol_r1_twice : RequestResponseProtocol.t :=
  RequestResponseProtocol.step
    (RequestResponseProtocol.InitiateRequest request_r1 conversation_AB
       RequestResponseProtocol.no_options)
    protocol_r1.

(** The options from which the constructor builds [request_r1]. *)
Definition request_r1_options : MessageOptions :=
  {| mo_id := Some "r1"; mo_timestamp := None; mo_conversationId := None;
     mo_performative := "request"; mo_sender := "A"; mo_receiver := inl "B";
     mo_content := JStr "ping"; mo_inReplyTo := None |}.

End Examples.

(** ** The class [Message] with all its fields (src/ACP/src/core/message.ts)

    [Message] above keeps the fields that conversations and the protocol
    read. The methods of the class itself copy every field, so they are
    modelled on the full record; [core] forgets the other fields. A plain
    object of the interface [ACPMessage] has the same fields and is a value
    of the same record. An optional field is [None] when the property is
    absent. *)

Module MessageClass.

Record t : Type := mk {
  msg_id : string;
  msg_conversationId : option string;
  msg_performative : string;
  msg_sender : string;
  msg_receiver : string + list string;
  msg_content : JsValue;
  msg_contentType : option string;
  msg_timestamp : Z;
  msg_inReplyTo : option string;
  msg_language : option string;
  msg_encoding : option string;
  msg_ontology : option string;
  msg_metadata : option (gmap string JsValue)
}.

(** [MessageOptions] *)
Record Options : Type := mkOptions {
  op_id : option string;
  op_timestamp : option Z;
  op_conversationId : option string;
  op_performative : string;
  op_sender : string;
  op_receiver : string + list string;
  op_content : JsValue;
  op_contentType : option string;
  op_inReplyTo : option string;
  op_language : option string;
  op_encoding : option string;
  op_ontology : option string;
  op_metadata : option (gmap string JsValue)
}.

(** [Partial<MessageOptions>] and [Partial<ACPMessage>]: any of the
    properties, each present or not. *)
Record Partial : Type := mkPartial {
  pa_id : option string;
  pa_timestamp : option Z;
  pa_conversationId : option string;
  pa_performative : option string;
  pa_sender : option string;
  pa_receiver : option (string + list string);
  pa_content : option JsValue;
  pa_contentType : option string;
  pa_inReplyTo : option string;
  pa_language : option string;
  pa_encoding : option string;
  pa_ontology : option string;
  pa_metadata : option (gmap string JsValue)
}.

(** The object [{}]. *)
Definition nothing : Partial :=
  {| pa_id := None; pa_timestamp := None; pa_conversationId := None;
     pa_performative := None; pa_sender := None; pa_receiver := None;
     pa_content := None; pa_contentType := None; pa_inReplyTo := None;
     pa_language := None; pa_encoding := None; pa_ontology := None;
     pa_metadata := None |}.

(** The fields that [Message] above keeps. *)
Definition core (m : t) : Message :=
  {| m_id := msg_id m;
     m_conversationId := msg_conversationId m;
     m_performative := msg_performative m;
     m_sender := msg_sender m;
     m_receiver := msg_receiver m;
     m_content := msg_content m;
     m_timestamp := msg_timestamp m;
     m_inReplyTo := msg_inReplyTo m |}.

Definition core_options (options : Options) : MessageOptions :=
  {| mo_id := op_id options;
     mo_timestamp := op_timestamp options;
     mo_conversationId := op_conversationId options;
     mo_performative := op_performative options;
     mo_sender := op_sender options;
     mo_receiver := op_receiver options;
     mo_content := op_content options;
     mo_inReplyTo := op_inReplyTo options |}.

(** [validate]: it reads the performative, the sender and the receiver. *)
Definition validate (m : t) : option MessageError := Message_validate (core m).

(** [new Message(options)] *)
Definition new (options : Options) (uuid : string) (now : Z) : MessageError + t :=
  let m := {| msg_id := str_or (op_id options) uuid;
              msg_timestamp := num_or (op_timestamp options) now;
              msg_performative := op_performative options;
              msg_sender := op_sender options;
              msg_receiver := op_receiver options;
              msg_content := op_content options;
              msg_conversationId := op_conversationId options;
              msg_contentType := op_contentType options;
              msg_inReplyTo := op_inReplyTo options;
              msg_language := op_language options;
              msg_encoding := op_encoding options;
              msg_ontology := op_ontology options;
              msg_metadata := op_metadata options |} in
  match validate m with
  | Some e => inl e
  | None => inr m
  end.

(** [if (x) o.x = x]: the property is set when the string is truthy. *)
Definition keep_truthy (x : option string) : option string :=
  if truthy_ostr x then x else None.

(** [if (a) o.x = a; else if (b) o.x = b] *)
Definition first_truthy (a b : option string) : option string :=
  if truthy_ostr a then a else keep_truthy b.

(** [{ ...a, ...b }] for two optional objects: the properties of [b] win. *)
Definition spread2 (a b : option (gmap string JsValue)) : gmap string JsValue :=
  default ∅ b ∪ default ∅ a.

(** [createReply(content, performative = 'inform', options = {})] *)
Definition createReply (m : t) (content : JsValue) (performative : option string)
    (options : Partial) (uuid : string) (now : Z) : MessageError + t :=
  new {| op_id := None;
         op_timestamp := None;
         op_performative := default "inform" performative;
         op_sender := str_or (pa_sender options) "";
         op_receiver := inl (msg_sender m);
         op_content := content;
         op_conversationId := keep_truthy (msg_conversationId m);
         op_contentType := first_truthy (pa_contentType options) (msg_contentType m);
         op_inReplyTo := Some (msg_id m);
         op_language := first_truthy (pa_language options) (msg_language m);
         op_encoding := first_truthy (pa_encoding options) (msg_encoding m);
         op_ontology := first_truthy (pa_ontology options) (msg_ontology m);
         op_metadata :=
           if bool_decide (is_Some (msg_metadata m) \/ is_Some (pa_metadata options))
           then Some (spread2 (msg_metadata m) (pa_metadata options))
           else None |} uuid now.

(** [isReplyTo], [isReply] *)
Definition isReplyTo (messageId : string) (m : t) : bool :=
  bool_decide (msg_inReplyTo m = Some messageId).

Definition isReply (m : t) : bool := truthy_ostr (msg_inReplyTo m).

(** [getReceivers], [isReceiverOf] *)
Definition getReceivers (m : t) : list string :=
  match msg_receiver m with
  | inl receiver => [receiver]
  | inr receivers => receivers
  end.

Definition isReceiverOf (agentId : string) (m : t) : bool :=
  bool_decide (agentId ∈ getReceivers m).

(** [toObject]: an optional property is written when it is truthy, the
    metadata when it has a key. *)
Definition toObject (m : t) : t :=
  {| msg_id := msg_id m;
     msg_performative := msg_performative m;
     msg_sender := msg_sender m;
     msg_receiver := msg_receiver m;
     msg_content := msg_content m;
     msg_timestamp := msg_timestamp m;
     msg_conversationId := keep_truthy (msg_conversationId m);
     msg_contentType := keep_truthy (msg_contentType m);
     msg_inReplyTo := keep_truthy (msg_inReplyTo m);
     msg_language := keep_truthy (msg_language m);
     msg_encoding := keep_truthy (msg_encoding m);
     msg_ontology := keep_truthy (msg_ontology m);
     msg_metadata :=
       match msg_metadata m with
       | Some md => if bool_decide (md = ∅) then None else Some md
       | None => None
       end |}.

(** [Message.fromObject] *)
Definition fromObject (obj : t) (uuid : string) (now : Z) : MessageError + t :=
  new {| op_performative := msg_performative obj;
         op_sender := msg_sender obj;
         op_receiver := msg_receiver obj;
         op_content := msg_content obj;
         op_id := keep_truthy (Some (msg_id obj));
         op_timestamp :=
           if bool_decide (msg_timestamp obj = 0%Z) then None
           else Some (msg_timestamp obj);
         op_conversationId := keep_truthy (msg_conversationId obj);
         op_contentType := keep_truthy (msg_contentType obj);
         op_inReplyTo := keep_truthy (msg_inReplyTo obj);
         op_language := keep_truthy (msg_language obj);
         op_encoding := keep_truthy (msg_encoding obj);
         op_ontology := keep_truthy (msg_ontology obj);
         op_metadata := msg_metadata obj |} uuid now.

(** [clone] *)
Definition clone (m : t) (uuid : string) (now : Z) : MessageError + t :=
  fromObject (toObject m) uuid now.

(** [{ ...base, ...options }]: a property present in [options] replaces
    that of [base]. *)
Definition or_else {A} (x y : option A) : option A :=
  match x with
  | Some v => Some v
  | None => y
  end.

Definition spread (base : Options) (options : Partial) : Options :=
  {| op_id := or_else (pa_id options) (op_id base);
     op_timestamp := or_else (pa_timestamp options) (op_timestamp base);
     op_conversationId := or_else (pa_conversationId options) (op_conversationId base);
     op_performative := default (op_performative base) (pa_performative options);
     op_sender := default (op_sender base) (pa_sender options);
     op_receiver := default (op_receiver base) (pa_receiver options);
     op_content := default (op_content base) (pa_content options);
     op_contentType := or_else (pa_contentType options) (op_contentType base);
     op_inReplyTo := or_else (pa_inReplyTo options) (op_inReplyTo base);
     op_language := or_else (pa_language options) (op_language base);
     op_encoding := or_else (pa_encoding options) (op_encoding base);
     op_ontology := or_else (pa_ontology options) (op_ontology base);
     op_metadata := or_else (pa_metadata options) (op_metadata base) |}.

(** The options with the required properties and nothing else. *)
Definition bare (performative sender : string) (receiver : string + list string)
    (content : JsValue) : Options :=
  {| op_id := None; op_timestamp := None; op_conversationId := None;
     op_performative := performative; op_sender := sender;
     op_receiver := receiver; op_content := content;
     op_contentType := None; op_inReplyTo := None; op_language := None;
     op_encoding := None; op_ontology := None; op_metadata := None |}.

Definition with_contentType (contentType : option string) (o : Options) : Options :=
  {| op_id := op_id o; op_timestamp := op_timestamp o;
     op_conversationId := op_conversationId o;
     op_performative := op_performative o; op_sender := op_sender o;
     op_receiver := op_receiver o; op_content := op_content o;
     op_contentType := contentType; op_inReplyTo := op_inReplyTo o;
     op_language := op_language o; op_encoding := op_encoding o;
     op_ontology := op_ontology o; op_metadata := op_metadata o |}.

Definition with_inReplyTo (inReplyTo : option string) (o : Options) : Options :=
  {| op_id := op_id o; op_timestamp := op_timestamp o;
     op_conversationId := op_conversationId o;
     op_performative := op_performative o; op_sender := op_sender o;
     op_receiver := op_receiver o; op_content := op_content o;
     op_contentType := op_contentType o; op_inReplyTo := inReplyTo;
     op_language := op_language o; op_encoding := op_encoding o;
     op_ontology := op_ontology o; op_metadata := op_metadata o |}.

(** [Message.createInform]; [options] is [nothing] when the argument is
    omitted. *)
Definition createInform (sender : string) (receiver : string + list string)
    (content : JsValue) (options : Partial) (uuid : string) (now : Z)
  : MessageError + t :=
  new (spread (with_contentType (Some "application/json")
                 (bare "inform" sender receiver content)) options) uuid now.

(** [Message.createRequest]: of [options] it takes the content type, the
    conversation id, [inReplyTo], the language, the encoding, the ontology
    and the metadata, each when truthy. *)
Definition createRequest (sender : string) (receiver : string + list string)
    (content : JsValue) (options : Partial) (uuid : string) (now : Z)
  : MessageError + t :=
  new {| op_id := None;
         op_timestamp := None;
         op_performative := "request";
         op_sender := sender;
         op_receiver := receiver;
         op_content := content;
         op_contentType :=
           if truthy_ostr (pa_contentType options) then pa_contentType options
           else Some "application/json";
         op_conversationId := keep_truthy (pa_conversationId options);
         op_inReplyTo := keep_truthy (pa_inReplyTo options);
         op_language := keep_truthy (pa_language options);
         op_encoding := keep_truthy (pa_encoding options);
         op_ontology := keep_truthy (pa_ontology options);
         op_metadata := pa_metadata options |} uuid now.

(** [Message.createAgree], [Message.createRefuse] *)
Definition createAgree (sender receiver : string) (content : JsValue)
    (inReplyTo : string) (options : Partial) (uuid : string) (now : Z)
  : MessageError + t :=
  new (spread (with_inReplyTo (Some inReplyTo)
                 (with_contentType (Some "application/json")
                    (bare "agree" sender (inl receiver) content))) options) uuid now.

Definition createRefuse (sender receiver : string) (content : JsValue)
    (inReplyTo : string) (options : Partial) (uuid : string) (now : Z)
  : MessageError + t :=
  new (spread (with_inReplyTo (Some inReplyTo)
                 (with_contentType (Some "application/json")
                    (bare "refuse" sender (inl receiver) content))) options) uuid now.

(** *** Vocabulary of the properties *)

(** What the constructor checks, and the non-empty identifier it gives. *)
Definition well_formed (m : t) : Prop :=
  msg_id m <> ""
  /\ msg_performative m <> ""
  /\ msg_sender m <> ""
  /\ getReceivers m <> []
  /\ msg_receiver m <> inl "".

(** No optional property of [m] is an empty string or an empty object,
    and its timestamp is not 0: [toObject] writes all there is. *)
Definition tidy (m : t) : Prop :=
  msg_timestamp m <> 0%Z
  /\ msg_conversationId m <> Some ""
  /\ msg_contentType m <> Some ""
  /\ msg_inReplyTo m <> Some ""
  /\ msg_language m <> Some ""
  /\ msg_encoding m <> Some ""
  /\ msg_ontology m <> Some ""
  /\ msg_metadata m <> Some ∅.

End MessageClass.

(** ** More concrete data for the examples *)

Module MoreExamples.

(** [new Message({id: 'p1', timestamp: 3, performative: 'ping',
    sender: 'A', receiver: ['B', 'C'], content: 'hello',
    conversationId: 'c1', language: ''})] *)
Definition ping_options : MessageClass.Options :=
  {| MessageClass.op_id := Some "p1";
     MessageClass.op_timestamp := Some 3%Z;
     MessageClass.op_conversationId := Some "c1";
     MessageClass.op_performative := "ping";
     MessageClass.op_sender := "A";
     MessageClass.op_receiver := inr ["B"; "C"];
     MessageClass.op_content := JStr "hello";
     MessageClass.op_contentType := None;
     MessageClass.op_inReplyTo := None;
     MessageClass.op_language := Some "";
     MessageClass.op_encoding := None;
     MessageClass.op_ontology := None;
     MessageClass.op_metadata := None |}.

Definition ping : MessageClass.t :=
  {| MessageClass.msg_id := "p1";
     MessageClass.msg_conversationId := Some "c1";
     MessageClass.msg_performative := "ping";
     MessageClass.msg_sender := "A";
     MessageClass.msg_receiver := inr ["B"; "C"];
     MessageClass.msg_content := JStr "hello";
     MessageClass.msg_contentType := None;
     MessageClass.msg_timestamp := 3;
     MessageClass.msg_inReplyTo := None;
     MessageClass.msg_language := Some "";
     MessageClass.msg_encoding := None;
     MessageClass.msg_ontology := None;
     MessageClass.msg_metadata := None |}.

(** [{sender: 'B'}] *)
Definition from_B : MessageClass.Partial :=
  {| MessageClass.pa_id := None; MessageClass.pa_timestamp := None;
     MessageClass.pa_conversationId := None; MessageClass.pa_performative := None;
     MessageClass.pa_sender := Some "B"; MessageClass.pa_receiver := None;
     MessageClass.pa_content := None; MessageClass.pa_contentType := None;
     MessageClass.pa_inReplyTo := None; MessageClass.pa_language := None;
     MessageClass.pa_encoding := None; MessageClass.pa_ontology := None;
     MessageClass.pa_metadata := None |}.

(** [{id: 'c5', participants: ['A', 'B'], initiator: 'A', timeout: 100}] *)
Definition options_timeout_100 : Conversation.ConversationOptions :=
  {| Conversation.o_id := Some "c5";
     Conversation.o_participants := ["A"; "B"];
     Conversation.o_protocol := None;
     Conversation.o_initiator := "A";
     Conversation.o_timeout := Some 100%Z;
     Conversation.o_maxMessages := None;
     Conversation.o_metadata := None |}.

(** [{id: 'c6', participants: ['A'], initiator: 'A', maxMessages: 0}] *)
Definition options_max0 : Conversation.ConversationOptions :=
  {| Conversation.o_id := Some "c6";
     Conversation.o_participants := ["A"];
     Conversation.o_protocol := None;
     Conversation.o_initiator := "A";
     Conversation.o_timeout := None;
     Conversation.o_maxMessages := Some 0%Z;
     Conversation.o_metadata := None |}.

Definition conversation_max0 : Conversation.t :=
  match Conversation.new options_max0 "u" 0 with
  | Return c => c
  | Throw _ => Examples.conversation_AB
  end.

Definition conversation_timeout_100 : Conversation.t :=
  match Conversation.new options_timeout_100 "u" 0 with
  | Return c => c
  | Throw _ => Examples.conversation_AB
  end.

(** A message of the conversation c6. *)
Definition note (id : string) (sender : string) : Message :=
  {| m_id := id; m_conversationId := Some "c6"; m_performative := "inform";
     m_sender := sender; m_receiver := inl "A"; m_content := JNull;
     m_timestamp := 1; m_inReplyTo := None |}.

(** [Conversation.fromContext(context, {timeout: 100})] for the context of
    a completed conversation. *)
Definition timeout_100 : Conversation.FromContextOptions :=
  {| Conversation.fo_timeout := Some 100%Z; Conversation.fo_maxMessages := None |}.

Definition restored_completed : Conversation.t :=
  match Conversation.fromContext
          (Conversation.toContext Examples.conversation_completed)
          (Some timeout_100) "u" 9 with
  | Return c => c
  | Throw _ => Examples.conversation_AB
  end.

End MoreExamples.

(** ** Tactics *)

(** Unfolds the methods of the class and the monad they are written in. *)
Ltac js_unfold :=
  unfold Conversation.call, Conversation.activate, Conversation.setWaiting,
    Conversation.complete, Conversation.fail, Conversation.cancel,
    Conversation.handleTimeout, Conversation.addMessage,
    Conversation.addParticipant, Conversation.removeParticipant,
    Conversation.setMetadata, Conversation.transitionTo,
    Conversation.clearTimeout, Conversation.setupTimeout, Conversation.emit,
    Conversation.isActive, bind, get, modify, throw_if, when, ret, throw,
    state_of, outcome_of in *.

(** Splits on the tests a method makes. *)
Ltac js_cases :=
  repeat (simpl;
          match goal with
          | |- context [if ?b then _ else _] => destruct b eqn:?
          | |- context [match ?x with Some _ => _ | None => _ end] => destruct x eqn:?
          end);
  simpl.

(** Unfolds the methods of the protocol and the monad. *)
Ltac rr_unfold :=
  unfold RequestResponseProtocol.step, RequestResponseProtocol.fire,
    RequestResponseProtocol.cancelRequest, RequestResponseProtocol.handleMessage,
    RequestResponseProtocol.handleMessageWithConversation,
    RequestResponseProtocol.handleTimeout, RequestResponseProtocol.handleFailure,
    RequestResponseProtocol.handleResponse, RequestResponseProtocol.handleRequest,
    RequestResponseProtocol.retryRequest_resume, RequestResponseProtocol.retryRequest,
    RequestResponseProtocol.initiateRequest,
    RequestResponseProtocol.clearPendingRequest, RequestResponseProtocol.update,
    RequestResponseProtocol.settle, RequestResponseProtocol.clearTimeout,
    RequestResponseProtocol.setTimeout, RequestResponseProtocol.emit,
    bind, get, modify, throw_if, when, ret, throw, state_of, outcome_of in *.


(** * Properties of [Conversation] *)

Section ConversationLifecycle.
Import Conversation.

Lemma isTerminal_spec c :
  isTerminal c = true <->
  c_state c = completed \/ c_state c = failed
  \/ c_state c = cancelled \/ c_state c = timeout.
Proof.
  unfold isTerminal. rewrite bool_decide_eq_true.
  rewrite !elem_of_cons, elem_of_nil. tauto.
Qed.

Lemma isTerminal_state c c' :
  c_state c' = c_state c -> isTerminal c' = isTerminal c.
Proof. unfold isTerminal. intros ->. reflexivity. Qed.

Lemma terminal_not_initiated c : isTerminal c = true -> c_state c <> initiated.
Proof. rewrite isTerminal_spec. intros [H|[H|[H|H]]]; rewrite H; discriminate. Qed.

Lemma terminal_not_active c : isTerminal c = true -> c_state c <> active.
Proof. rewrite isTerminal_spec. intros [H|[H|[H|H]]]; rewrite H; discriminate. Qed.

(** The five lifecycle methods throw on a terminal conversation, before
    they write anything. *)
Lemma lifecycle_throws c now :
  isTerminal c = true ->
  activate now c = (Throw (CannotActivate (c_state c)), c)
  /\ setWaiting now c = (Throw (CannotSetWaiting (c_state c)), c)
  /\ (forall result, complete result now c = (Throw (CannotComplete (c_state c)), c))
  /\ (forall error, fail error now c = (Throw (CannotFail (c_state c)), c))
  /\ (forall reason, cancel reason now c = (Throw (CannotCancel (c_state c)), c)).
Proof.
  intros Ht. pose proof (terminal_not_initiated c Ht) as Hi.
  pose proof (terminal_not_active c Ht) as Ha.
  js_unfold. rewrite Ht.
  rewrite (bool_decide_eq_false_2 _ Hi), (bool_decide_eq_false_2 _ Ha). simpl.
  repeat split; reflexivity.
Qed.

(** No call changes the state, the result or the error of a terminal
    conversation. *)
Lemma call_terminal_frame op now c :
  isTerminal c = true ->
  c_state (state_of (call op now c)) = c_state c
  /\ c_result (state_of (call op now c)) = c_result c
  /\ c_error (state_of (call op now c)) = c_error c.
Proof.
  intros Ht. pose proof (terminal_not_initiated c Ht) as Hi.
  pose proof (terminal_not_active c Ht) as Ha.
  destruct op; js_unfold; simpl;
    rewrite ?Ht, ?(bool_decide_eq_false_2 _ Hi), ?(bool_decide_eq_false_2 _ Ha);
    simpl; auto.
  - destruct (match m_conversationId message with Some _ => _ | None => _ end);
      simpl; auto.
    destruct (_ && _); simpl; auto.
  - destruct (negb _); simpl; auto.
  - destruct (bool_decide (agentId = _)); simpl; auto.
    destruct (bool_decide (agentId ∈ _)); simpl; auto.
  - destruct (bool_decide (is_Some _)); simpl; auto. rewrite Ht. simpl. auto.
Qed.

Lemma calls_terminal_frame ops : forall c,
  isTerminal c = true ->
  c_state (calls ops c) = c_state c
  /\ c_result (calls ops c) = c_result c
  /\ c_error (calls ops c) = c_error c.
Proof.
  induction ops as [|[op now] ops IH]; intros c Ht; simpl; [auto|].
  destruct (call_terminal_frame op now c Ht) as (Hs & Hr & He).
  destruct (IH (state_of (call op now c))) as (Hs' & Hr' & He').
  - rewrite (isTerminal_state c _ Hs). exact Ht.
  - rewrite Hs', Hr', He'. auto.
Qed.

(** What [addMessage] does, whatever the state of the conversation. *)
Lemma addMessage_appends c message now :
  compatible c message -> below_capacity c ->
  exists c',
    addMessage message now c = (Return tt, c')
    /\ c_messages c' = c_messages c ++ [message]
    /\ c_messageIndex c' = <[m_id message := message]> (c_messageIndex c)
    /\ c_emitted c' = c_emitted c ++ [messageAdded message]
    /\ c_state c' = c_state c /\ c_result c' = c_result c /\ c_error c' = c_error c
    /\ c_id c' = c_id c /\ c_maxMessages c' = c_maxMessages c.
Proof.
  intros Hc Hb. js_unfold.
  assert (match m_conversationId message with
          | Some cid => negb (bool_decide (cid = c_id c))
          | None => false
          end = false) as ->.
  { destruct Hc as [-> | ->]; [reflexivity|].
    rewrite bool_decide_eq_true_2; reflexivity. }
  assert (truthy_onum (c_maxMessages c)
          && bool_decide (default 0 (c_maxMessages c)
                          ≤ Z.of_nat (length (c_messages c)))%Z = false) as ->.
  { unfold below_capacity, truthy_onum in *.
    destruct (c_maxMessages c) as [n|]; [|reflexivity].
    destruct (decide (n = 0%Z)); [reflexivity|]. simpl.
    apply bool_decide_eq_false_2. lia. }
  simpl. eexists. repeat split; reflexivity.
Qed.

Lemma addMessage_full c message now n :
  compatible c message ->
  c_maxMessages c = Some n -> (0 < n)%Z ->
  (n <= Z.of_nat (length (c_messages c)))%Z ->
  addMessage message now c = (Throw MaxMessagesReached, c).
Proof.
  intros Hc Hn Hpos Hlen. js_unfold.
  assert (match m_conversationId message with
          | Some cid => negb (bool_decide (cid = c_id c))
          | None => false
          end = false) as ->.
  { destruct Hc as [-> | ->]; [reflexivity|].
    rewrite bool_decide_eq_true_2; reflexivity. }
  rewrite Hn. unfold truthy_onum. destruct (decide (n = 0%Z)); [lia|].
  simpl. rewrite bool_decide_eq_true_2 by lia. reflexivity.
Qed.

(** ** C1 *)

(** C1 (as the code has it). In a terminal state each of [activate],
    [setWaiting], [complete], [fail] and [cancel] throws an error of kind
    InvalidTransition and leaves the conversation as it was, and through
    any later sequence of calls the state, the result and the error stay
    what the terminal transition left. [addMessage] does not look at the
    state: on a terminal conversation it still appends a message that
    declares no other conversation id while the log is below its maximum,
    and leaves state, result and error alone. *)
Theorem C1_terminal_lifecycle_closed (c : t) :
  isTerminal c = true ->
  (forall now,
      rejected InvalidTransition (activate now c) c
      /\ rejected InvalidTransition (setWaiting now c) c
      /\ (forall result, rejected InvalidTransition (complete result now c) c)
      /\ (forall error, rejected InvalidTransition (fail error now c) c)
      /\ (forall reason, rejected InvalidTransition (cancel reason now c) c))
  /\ (forall ops,
        c_state (calls ops c) = c_state c
        /\ c_result (calls ops c) = c_result c
        /\ c_error (calls ops c) = c_error c)
  /\ (forall message now,
        compatible c message -> below_capacity c ->
        exists c',
          addMessage message now c = (Return tt, c')
          /\ c_messages c' = c_messages c ++ [message]
          /\ c_state c' = c_state c
          /\ c_result c' = c_result c
          /\ c_error c' = c_error c).
Proof.
  intros Ht. split; [|split].
  - intros now. destruct (lifecycle_throws c now Ht) as (H1 & H2 & H3 & H4 & H5).
    unfold rejected. repeat split; intros; eexists; split; eauto.
  - intros ops. apply calls_terminal_frame, Ht.
  - intros message now Hc Hb.
    destruct (addMessage_appends c message now Hc Hb)
      as (c' & H & Hm & _ & _ & Hs & Hr & He & _).
    exists c'. auto.
Qed.

Lemma C1_terminal_lifecycle_closed_witness :
  isTerminal Examples.conversation_completed = true
  /\ rejected InvalidTransition
       (activate 2 Examples.conversation_completed) Examples.conversation_completed
  /\ c_state (calls [(Cancel None, 3%Z)] Examples.conversation_completed) = completed.
Proof.
  assert (isTerminal Examples.conversation_completed = true) as Ht by reflexivity.
  destruct (C1_terminal_lifecycle_closed Examples.conversation_completed Ht)
    as (Hl & Hf & _).
  split; [exact Ht|]. split.
  - exact (proj1 (Hl 2%Z)).
  - exact (proj1 (Hf [(Cancel None, 3%Z)])).
Defined.

(** C1 as stated fails: the conversation completed at time 1 takes a
    further message at time 2; [addMessage] returns and the log grows. *)
Lemma C1_counterexample_append_after_completed :
  isTerminal Examples.conversation_completed = true
  /\ outcome_of (addMessage Examples.inform_r1 2 Examples.conversation_completed)
     = Return tt
  /\ c_messages Examples.conversation_completed = []
  /\ c_messages
       (state_of (addMessage Examples.inform_r1 2 Examples.conversation_completed))
     = [Examples.inform_r1].
Proof. repeat split. Qed.

End ConversationLifecycle.

Section ConversationLog.
Import Conversation.

(** ** C5 *)

Lemma new_fields options uuid now c :
  new options uuid now = Return c ->
  c_id c = str_or (o_id options) uuid
  /\ c_initiator c = o_initiator options
  /\ c_participants c =
       (if bool_decide (o_initiator options ∈ o_participants options)
        then o_participants options
        else o_participants options ++ [o_initiator options])
  /\ c_maxMessages c = o_maxMessages options
  /\ c_messages c = []
  /\ c_state c = initiated
  /\ c_metadata c = default ∅ (o_metadata options)
  /\ o_initiator options <> ""
  /\ o_participants options <> [].
Proof.
  unfold new. intros H.
  destruct (negb (truthy_str (o_initiator options))) eqn:Hi; [discriminate|].
  destruct (bool_decide (length (o_participants options) = 0)) eqn:Hp; [discriminate|].
  destruct (truthy_onum (o_timeout options) && _); [discriminate|].
  destruct (truthy_onum (o_maxMessages options) && _); [discriminate|].
  injection H as <-. js_unfold. simpl.
  assert (o_initiator options <> "") as Hne.
  { unfold truthy_str in Hi. destruct (decide (o_initiator options = "")); [discriminate|auto]. }
  assert (o_participants options <> []) as Hpne.
  { apply bool_decide_eq_false in Hp. intros E. apply Hp. rewrite E. reflexivity. }
  destruct (truthy_onum (o_timeout options)); simpl; repeat split; auto.
Qed.

Lemma compatible_id c c' message :
  c_id c' = c_id c -> compatible c message -> compatible c' message.
Proof. unfold compatible. intros ->. auto. Qed.

Lemma appends_succeed ms : forall c n,
  c_maxMessages c = Some n -> (0 < n)%Z ->
  Forall (fun x => compatible c x.1) ms ->
  (Z.of_nat (length (c_messages c)) + Z.of_nat (length ms) <= n)%Z ->
  outcomes (appends ms) c = replicate (length ms) (Return tt)
  /\ c_messages (calls (appends ms) c) = c_messages c ++ ms.*1
  /\ c_id (calls (appends ms) c) = c_id c
  /\ c_maxMessages (calls (appends ms) c) = Some n.
Proof.
  induction ms as [|[message now] ms IH]; intros c n Hn Hpos Hall Hlen; simpl.
  - rewrite app_nil_r. auto.
  - apply Forall_cons in Hall as [Hc Hall]. simpl in Hc, Hlen.
    destruct (addMessage_appends c message now Hc)
      as (c' & H & Hm & _ & _ & _ & _ & _ & Hid & Hmax).
    { unfold below_capacity. rewrite Hn. right. lia. }
    unfold state_of, outcome_of. rewrite H. simpl.
    destruct (IH c' n) as (Ho & Hms & Hid' & Hmax').
    + congruence.
    + exact Hpos.
    + eapply Forall_impl; [exact Hall|]. intros x. apply compatible_id, Hid.
    + rewrite Hm, length_app. simpl. lia.
    + rewrite Ho, Hms, Hm, Hid', Hid, <- app_assoc. auto.
Qed.

Lemma fromContext_new context options uuid now c :
  fromContext context options uuid now = Return c ->
  exists first rest c0,
    ctx_participants context = first :: rest
    /\ new {| o_id := Some (ctx_id context);
              o_participants := ctx_participants context;
              o_initiator := first;
              o_protocol := ctx_protocol context;
              o_timeout := options ≫= fo_timeout;
              o_maxMessages := options ≫= fo_maxMessages;
              o_metadata := ctx_metadata context |} uuid now = Return c0
    /\ c = set_updated (ctx_updated context) (set_state (ctx_state context) c0).
Proof.
  unfold fromContext. destruct (ctx_participants context) as [|first rest] eqn:E;
    [discriminate|].
  destruct (new _ uuid now) as [c0|e] eqn:Hnew; [|discriminate].
  intros H. injection H as <-. exists first, rest, c0. auto.
Qed.

Lemma built_fields n c :
  built_with_maxMessages n c -> c_maxMessages c = Some n /\ c_messages c = [].
Proof.
  intros [(options & uuid & now & Hn & Hnew)
         | (context & options & uuid & now & Hn & Hfrom)].
  - destruct (new_fields _ _ _ _ Hnew) as (_ & _ & _ & Hm & Hlog & _).
    split; congruence.
  - destruct (fromContext_new _ _ _ _ _ Hfrom) as (first & rest & c0 & _ & Hnew & ->).
    destruct (new_fields _ _ _ _ Hnew) as (_ & _ & _ & Hm & Hlog & _).
    simpl in *. split; congruence.
Qed.

(** C5. A conversation constructed with [maxMessages = n], [n] positive,
    takes [n] messages that declare no other conversation id: each of the
    [n] calls of [addMessage] returns and the log is these messages in
    order. The next such call throws an error of kind CapacityExceeded
    and leaves the conversation, with its log of length [n], as it was. *)
Theorem C5_exactly_maxMessages_appends
    (c : t) (n : Z) (ms : list (Message * Z)) (extra : Message) (later : Z) :
  built_with_maxMessages n c ->
  (0 < n)%Z ->
  Z.of_nat (length ms) = n ->
  Forall (fun x => compatible c x.1) ms ->
  compatible c extra ->
  outcomes (appends ms) c = replicate (length ms) (Return tt)
  /\ c_messages (calls (appends ms) c) = ms.*1
  /\ Z.of_nat (length (c_messages (calls (appends ms) c))) = n
  /\ rejected CapacityExceeded
       (addMessage extra later (calls (appends ms) c)) (calls (appends ms) c).
Proof.
  intros Hbuilt Hpos Hlen Hall Hextra.
  destruct (built_fields n c Hbuilt) as [Hm Hlog].
  destruct (appends_succeed ms c n) as (Ho & Hms & Hid & Hmax'); auto.
  { rewrite Hlog. simpl. lia. }
  rewrite Hlog in Hms. simpl in Hms.
  repeat split; auto.
  - rewrite Hms, length_fmap. exact Hlen.
  - exists MaxMessagesReached. split; [|reflexivity].
    apply addMessage_full with (n := n); auto.
    + eapply compatible_id; [exact Hid | exact Hextra].
    + rewrite Hms, length_fmap. lia.
Qed.

Lemma C5_exactly_maxMessages_appends_witness :
  outcomes (appends [(Examples.request_r1, 1%Z); (Examples.inform_r1, 2%Z)])
    Examples.conversation_max2
  = [Return tt; Return tt]
  /\ rejected CapacityExceeded
       (addMessage Examples.failure_r1 3
          (calls (appends [(Examples.request_r1, 1%Z); (Examples.inform_r1, 2%Z)])
             Examples.conversation_max2))
       (calls (appends [(Examples.request_r1, 1%Z); (Examples.inform_r1, 2%Z)])
          Examples.conversation_max2).
Proof.
  destruct (C5_exactly_maxMessages_appends Examples.conversation_max2 2
              [(Examples.request_r1, 1%Z); (Examples.inform_r1, 2%Z)]
              Examples.failure_r1 3) as (Ho & _ & _ & Hr).
  - left. exists Examples.options_max2, "u", 0%Z. split; reflexivity.
  - lia.
  - reflexivity.
  - repeat constructor.
  - left. reflexivity.
  - split; [exact Ho | exact Hr].
Defined.

End ConversationLog.

Section ConversationParticipants.
Import Conversation.

Lemma remove_first_keeps x y (l : list string) :
  y <> x -> y ∈ l -> y ∈ remove_first x l.
Proof.
  intros Hne. induction l as [|z l IH]; simpl; [auto|].
  rewrite elem_of_cons. intros [-> | Hin].
  - destruct (decide (z = x)); [contradiction|]. apply elem_of_cons; auto.
  - destruct (decide (z = x)); [exact Hin|]. apply elem_of_cons; auto.
Qed.

Lemma remove_first_subset x y (l : list string) :
  y ∈ remove_first x l -> y ∈ l.
Proof.
  induction l as [|z l IH]; simpl; [auto|].
  destruct (decide (z = x)).
  - intros H. apply elem_of_cons; auto.
  - rewrite !elem_of_cons. intros [-> | H]; auto.
Qed.

Lemma remove_first_NoDup x (l : list string) :
  NoDup l -> NoDup (remove_first x l) /\ x ∉ remove_first x l.
Proof.
  induction 1 as [|z l Hz Hl IH]; simpl.
  - split; [constructor | apply not_elem_of_nil].
  - destruct (decide (z = x)) as [-> | Hne].
    + auto.
    + destruct IH as [IH1 IH2]. split.
      * constructor; [|exact IH1]. intros Hin. apply Hz.
        eapply remove_first_subset, Hin.
      * rewrite elem_of_cons. intros [E | Hin]; [congruence | contradiction].
Qed.

Lemma remove_first_absent x (l : list string) :
  x ∉ l -> remove_first x l = l.
Proof.
  induction l as [|z l IH]; simpl; [auto|].
  rewrite not_elem_of_cons. intros [Hne Hnin].
  destruct (decide (z = x)); [congruence|]. rewrite IH; auto.
Qed.

(** What a call may do to the identity and the participants. *)
Lemma call_participants op now c :
  c_id (state_of (call op now c)) = c_id c
  /\ c_initiator (state_of (call op now c)) = c_initiator c
  /\ (c_participants (state_of (call op now c)) = c_participants c
      \/ (exists x, (x ∉ c_participants c)
            /\ c_participants (state_of (call op now c)) = c_participants c ++ [x])
      \/ (exists x, x <> c_initiator c
            /\ c_participants (state_of (call op now c))
               = remove_first x (c_participants c))).
Proof.
  destruct op as [| | result | error | reason | message
                  | agentId | agentId | key value |];
    try (js_unfold; js_cases; auto; fail).
  - js_unfold; simpl.
    destruct (bool_decide (agentId ∈ c_participants c)) eqn:E; simpl; auto.
    apply bool_decide_eq_false in E. split; [auto|]. split; [auto|].
    right. left. exists agentId. auto.
  - js_unfold; simpl.
    destruct (bool_decide (agentId = c_initiator c)) eqn:E; simpl; auto.
    apply bool_decide_eq_false in E.
    destruct (bool_decide (agentId ∈ c_participants c)); simpl; auto.
    split; [auto|]. split; [auto|]. right. right. exists agentId. auto.
Qed.

Lemma str_or_nonempty o (d : string) : d <> "" -> str_or o d <> "".
Proof.
  intros Hd. unfold str_or, truthy_str. destruct o as [s|]; [|exact Hd].
  destruct (decide (s = "")); auto.
Qed.

Lemma new_well_formed options uuid now c :
  uuid <> "" -> new options uuid now = Return c -> well_formed c.
Proof.
  intros Hu Hnew.
  destruct (new_fields _ _ _ _ Hnew) as (Hid & Hi & Hp & _ & _ & _ & _ & Hne & _).
  unfold well_formed. rewrite Hid, Hi, Hp. split; [|split].
  - apply str_or_nonempty, Hu.
  - exact Hne.
  - destruct (bool_decide (o_initiator options ∈ o_participants options)) eqn:E.
    + apply bool_decide_eq_true in E. exact E.
    + apply elem_of_app. right. apply list_elem_of_singleton. reflexivity.
Qed.

Lemma call_initiator op now c :
  c_initiator c ∈ c_participants c ->
  c_initiator (state_of (call op now c)) = c_initiator c
  /\ c_initiator (state_of (call op now c)) ∈ c_participants (state_of (call op now c)).
Proof.
  intros Hin. destruct (call_participants op now c) as (_ & E2 & Hp).
  rewrite E2. split; [reflexivity|].
  destruct Hp as [-> | [(x & _ & ->) | (x & Hx & ->)]].
  - exact Hin.
  - apply elem_of_app. auto.
  - apply remove_first_keeps; auto.
Qed.

Lemma calls_initiator ops : forall c,
  c_initiator c ∈ c_participants c ->
  c_initiator (calls ops c) = c_initiator c
  /\ c_initiator (calls ops c) ∈ c_participants (calls ops c).
Proof.
  induction ops as [|[op now] ops IH]; intros c Hin; simpl; [auto|].
  destruct (call_initiator op now c Hin) as [E Hin'].
  destruct (IH _ Hin') as [E' Hin'']. rewrite E' at 1. auto.
Qed.

Lemma call_well_formed op now c :
  well_formed c -> well_formed (state_of (call op now c)).
Proof.
  intros (Hid & Hne & Hin).
  destruct (call_participants op now c) as (E1 & _).
  destruct (call_initiator op now c Hin) as [E2 Hin'].
  unfold well_formed. rewrite E1. split; [auto|]. split; [congruence|auto].
Qed.

Lemma conversation_reachable_well_formed c : reachable c -> well_formed c.
Proof.
  induction 1 as [options uuid now c Hu Hnew
                 | context options uuid now c Hu Hfrom
                 | op now c _ IH].
  - eapply new_well_formed; eauto.
  - destruct (fromContext_new _ _ _ _ _ Hfrom) as (first & rest & c0 & _ & Hnew & ->).
    exact (new_well_formed _ _ _ _ Hu Hnew).
  - apply call_well_formed, IH.
Qed.

(** ** C6 *)

(** C6 (as the code has it). For every conversation whose first
    participant is not the empty string, [fromContext] applied to its
    [toContext], with no options or with options the constructor accepts,
    returns a conversation with the same identifier, participant list,
    state and metadata. *)
Theorem C6_context_round_trip
    (c : t) (options : option FromContextOptions) (uuid : string) (now : Z) :
  reachable c ->
  accepted options ->
  hd "" (c_participants c) <> "" ->
  exists c',
    fromContext (toContext c) options uuid now = Return c'
    /\ c_id c' = c_id c
    /\ c_participants c' = c_participants c
    /\ c_state c' = c_state c
    /\ c_metadata c' = c_metadata c.
Proof.
  intros Hr Hacc Hfirst.
  destruct (conversation_reachable_well_formed c Hr) as (Hid & _ & Hin).
  unfold fromContext. simpl.
  destruct (c_participants c) as [|first rest] eqn:Hp.
  { apply elem_of_nil in Hin. contradiction. }
  simpl in Hfirst. unfold new. simpl.
  assert (truthy_str first = true) as ->.
  { unfold truthy_str. destruct (decide (first = "")); [contradiction|reflexivity]. }
  simpl.
  assert (truthy_onum (options ≫= fo_timeout)
          && bool_decide (default 0 (options ≫= fo_timeout) ≤ 0)%Z = false) as ->.
  { destruct options as [o|]; [|reflexivity]. simpl.
    destruct (fo_timeout o) as [n|] eqn:E; [|reflexivity].
    unfold truthy_onum. destruct (decide (n = 0%Z)); [reflexivity|]. simpl.
    apply bool_decide_eq_false_2. destruct Hacc as [Ha _]. specialize (Ha n E). lia. }
  assert (truthy_onum (options ≫= fo_maxMessages)
          && bool_decide (default 0 (options ≫= fo_maxMessages) ≤ 0)%Z = false) as ->.
  { destruct options as [o|]; [|reflexivity]. simpl.
    destruct (fo_maxMessages o) as [n|] eqn:E; [|reflexivity].
    unfold truthy_onum. destruct (decide (n = 0%Z)); [reflexivity|]. simpl.
    apply bool_decide_eq_false_2. destruct Hacc as [_ Ha]. specialize (Ha n E). lia. }
  rewrite bool_decide_eq_true_2 by (apply elem_of_cons; auto).
  eexists. split; [reflexivity|].
  js_unfold. simpl.
  assert ((if truthy_str (c_id c) then c_id c else uuid) = c_id c) as Hs.
  { unfold truthy_str. destruct (decide (c_id c = "")); [contradiction|reflexivity]. }
  destruct (truthy_onum (options ≫= fo_timeout)); simpl; rewrite Hs; auto.
Qed.

Lemma C6_context_round_trip_witness :
  exists c',
    fromContext (toContext Examples.conversation_completed) None "u" 9 = Return c'
    /\ c_id c' = "c1"
    /\ c_participants c' = ["A"; "B"]
    /\ c_state c' = completed
    /\ c_metadata c' = ∅.
Proof.
  apply (C6_context_round_trip Examples.conversation_completed None "u" 9).
  - apply (reachable_call (Complete JUndefined) 1 Examples.conversation_AB).
    apply (reachable_new Examples.options_AB "u" 0); [discriminate | reflexivity].
  - exact I.
  - simpl. discriminate.
Defined.

(** C6 as stated fails: the conversation built from participants [['']]
    and initiator ['A'] has the participant list [['', 'A']]; [fromContext]
    takes the first participant as initiator and the constructor throws. *)
Lemma C6_counterexample_blank_first_participant :
  exists c,
    new Examples.options_blank_first "u" 0 = Return c
    /\ c_participants c = [""; "A"]
    /\ fromContext (toContext c) None "v" 1 = Throw InitiatorRequired.
Proof. eexists. repeat split. Qed.

(** ** C7 *)

Lemma new_NoDup options uuid now c :
  new options uuid now = Return c ->
  NoDup (o_participants options) -> NoDup (c_participants c).
Proof.
  intros Hnew Hnd.
  destruct (new_fields _ _ _ _ Hnew) as (_ & _ & -> & _).
  destruct (bool_decide (o_initiator options ∈ o_participants options)) eqn:E;
    [exact Hnd|].
  apply bool_decide_eq_false in E. apply NoDup_app. split; [exact Hnd|].
  split; [|apply NoDup_singleton].
  intros x Hx Hx'. apply list_elem_of_singleton in Hx'. subst x. contradiction.
Qed.

Lemma calls_NoDup ops : forall c,
  NoDup (c_participants c) -> NoDup (c_participants (calls ops c)).
Proof.
  induction ops as [|[op now] ops IH]; intros c Hnd; simpl; [auto|].
  apply IH. destruct (call_participants op now c) as (_ & _ & Hp).
  destruct Hp as [-> | [(x & Hx & ->) | (x & _ & ->)]].
  - exact Hnd.
  - apply NoDup_app. split; [exact Hnd|]. split; [|apply NoDup_singleton].
    intros y Hy Hy'. apply list_elem_of_singleton in Hy'. subst y. contradiction.
  - apply remove_first_NoDup, Hnd.
Qed.

Lemma addParticipant_idempotent c agentId now later :
  (agentId ∈ c_participants (state_of (addParticipant agentId now c)))
  /\ addParticipant agentId later (state_of (addParticipant agentId now c))
     = (Return tt, state_of (addParticipant agentId now c)).
Proof.
  js_unfold. destruct (bool_decide (agentId ∈ c_participants c)) eqn:E; simpl.
  - rewrite E. simpl. apply bool_decide_eq_true in E. auto.
  - assert (agentId ∈ c_participants c ++ [agentId]) as Hin.
    { apply elem_of_app. right. apply list_elem_of_singleton. reflexivity. }
    rewrite (bool_decide_eq_true_2 _ Hin). simpl. auto.
Qed.

Lemma removeParticipant_first c agentId now :
  agentId <> c_initiator c ->
  outcome_of (removeParticipant agentId now c) = Return tt
  /\ c_participants (state_of (removeParticipant agentId now c))
     = remove_first agentId (c_participants c).
Proof.
  intros Hne. js_unfold. rewrite (bool_decide_eq_false_2 _ Hne). simpl.
  destruct (bool_decide (agentId ∈ c_participants c)) eqn:E; simpl; [auto|].
  apply bool_decide_eq_false in E. rewrite remove_first_absent; auto.
Qed.

Lemma removeParticipant_idempotent c agentId now later :
  agentId <> c_initiator c ->
  NoDup (c_participants c) ->
  (agentId ∉ c_participants (state_of (removeParticipant agentId now c)))
  /\ removeParticipant agentId later (state_of (removeParticipant agentId now c))
     = (Return tt, state_of (removeParticipant agentId now c)).
Proof.
  intros Hne Hnd. js_unfold. rewrite (bool_decide_eq_false_2 _ Hne). simpl.
  destruct (bool_decide (agentId ∈ c_participants c)) eqn:E; simpl.
  - rewrite (bool_decide_eq_false_2 _ Hne). simpl.
    destruct (remove_first_NoDup agentId _ Hnd) as [_ Hnin].
    rewrite (bool_decide_eq_false_2 _ Hnin). simpl. auto.
  - rewrite (bool_decide_eq_false_2 _ Hne). simpl. rewrite E. simpl.
    apply bool_decide_eq_false in E. auto.
Qed.

(** C7 (as the code has it). For every construction input the constructor
    accepts, the initiator is in the participant list, supplied or not, and
    after any sequence of calls it still is, so the list is never empty;
    [removeParticipant] on the initiator throws an error of kind
    InvalidArgument and changes nothing. [addParticipant] is idempotent and
    makes the agent a member. [removeParticipant] on another agent removes
    its first occurrence; when the participants given to the constructor
    are pairwise distinct, it is idempotent and the agent is no longer a
    member. *)
Theorem C7_initiator_always_participant
    (options : ConversationOptions) (uuid : string) (now : Z) (c : t)
    (ops : list (Call * Z)) :
  new options uuid now = Return c ->
  c_initiator c = o_initiator options
  /\ (c_initiator c ∈ c_participants c)
  /\ c_initiator (calls ops c) = o_initiator options
  /\ (c_initiator (calls ops c) ∈ c_participants (calls ops c))
  /\ c_participants (calls ops c) <> []
  /\ (forall t,
        rejected InvalidArgument
          (removeParticipant (c_initiator (calls ops c)) t (calls ops c))
          (calls ops c))
  /\ (forall agentId t t',
        (agentId ∈ c_participants (state_of (addParticipant agentId t (calls ops c))))
        /\ addParticipant agentId t' (state_of (addParticipant agentId t (calls ops c)))
           = (Return tt, state_of (addParticipant agentId t (calls ops c))))
  /\ (forall agentId t,
        agentId <> c_initiator (calls ops c) ->
        outcome_of (removeParticipant agentId t (calls ops c)) = Return tt
        /\ c_participants (state_of (removeParticipant agentId t (calls ops c)))
           = remove_first agentId (c_participants (calls ops c)))
  /\ (NoDup (o_participants options) ->
      forall agentId t t',
        agentId <> c_initiator (calls ops c) ->
        (agentId ∉ c_participants (state_of (removeParticipant agentId t (calls ops c))))
        /\ removeParticipant agentId t'
             (state_of (removeParticipant agentId t (calls ops c)))
           = (Return tt, state_of (removeParticipant agentId t (calls ops c)))).
Proof.
  intros Hnew.
  destruct (new_fields _ _ _ _ Hnew) as (_ & Hi & Hp & _).
  assert (c_initiator c ∈ c_participants c) as Hin.
  { rewrite Hi, Hp.
    destruct (bool_decide (o_initiator options ∈ o_participants options)) eqn:E.
    - apply bool_decide_eq_true in E. exact E.
    - apply elem_of_app. right. apply list_elem_of_singleton. reflexivity. }
  destruct (calls_initiator ops c Hin) as [E Hin'].
  split; [exact Hi|]. split; [exact Hin|]. split; [congruence|].
  split; [exact Hin'|]. split.
  { intros Hnil. rewrite Hnil in Hin'. apply elem_of_nil in Hin'. exact Hin'. }
  split.
  { intros t. exists CannotRemoveInitiator. split; [|reflexivity].
    js_unfold. rewrite bool_decide_eq_true_2 by reflexivity. reflexivity. }
  split.
  { intros agentId t t'. apply addParticipant_idempotent. }
  split.
  { intros agentId t Hne. apply removeParticipant_first, Hne. }
  intros Hnd agentId t t' Hne. apply removeParticipant_idempotent; [exact Hne|].
  apply calls_NoDup. eapply new_NoDup; eauto.
Qed.

Lemma C7_initiator_always_participant_witness :
  new Examples.options_AB "u" 0 = Return Examples.conversation_AB
  /\ "A" ∈ c_participants
             (calls [(RemoveParticipant "B", 1%Z); (RemoveParticipant "A", 2%Z)]
                Examples.conversation_AB)
  /\ rejected InvalidArgument
       (removeParticipant "A" 3
          (calls [(RemoveParticipant "B", 1%Z); (RemoveParticipant "A", 2%Z)]
             Examples.conversation_AB))
       (calls [(RemoveParticipant "B", 1%Z); (RemoveParticipant "A", 2%Z)]
          Examples.conversation_AB).
Proof.
  assert (new Examples.options_AB "u" 0 = Return Examples.conversation_AB)
    as Hnew by reflexivity.
  destruct (C7_initiator_always_participant Examples.options_AB "u" 0
              Examples.conversation_AB
              [(RemoveParticipant "B", 1%Z); (RemoveParticipant "A", 2%Z)] Hnew)
    as (_ & _ & _ & Hin & _ & Hrej & _).
  split; [exact Hnew|]. split; [exact Hin | exact (Hrej 3%Z)].
Defined.

(** C7 as stated fails: built from participants [['B', 'B']] and initiator
    ['A'], the conversation keeps ['B'] as a participant after
    [removeParticipant('B')], and a second such call changes the list
    again. *)
Lemma C7_counterexample_duplicate_participant :
  exists c,
    new Examples.options_twice_B "u" 0 = Return c
    /\ c_participants c = ["B"; "B"; "A"]
    /\ c_participants (state_of (removeParticipant "B" 1 c)) = ["B"; "A"]
    /\ ("B" ∈ c_participants (state_of (removeParticipant "B" 1 c)))
    /\ c_participants
         (state_of (removeParticipant "B" 2 (state_of (removeParticipant "B" 1 c))))
       = ["A"].
Proof.
  eexists. split; [reflexivity|]. repeat split.
  apply elem_of_cons. left. reflexivity.
Qed.

End ConversationParticipants.

(** * Properties of [RequestResponseProtocol] *)

Section ProtocolEffects.
Import RequestResponseProtocol.
Local Open Scope Z_scope.

Lemma getPendingRequest_Some requestId p a r :
  getPendingRequest requestId p = Some (a, r) <->
  pendingRequests p !! requestId = Some a /\ heap p !! a = Some r.
Proof.
  unfold getPendingRequest. split.
  - destruct (pendingRequests p !! requestId) as [a'|]; simpl; [|discriminate].
    destruct (heap p !! a') as [r'|] eqn:E; simpl; [|discriminate].
    intros H. injection H as <- <-. auto.
  - intros [-> H]. simpl. rewrite H. reflexivity.
Qed.

Lemma getPendingRequest_found requestId p a r :
  pendingRequests p !! requestId = Some a -> heap p !! a = Some r ->
  getPendingRequest requestId p = Some (a, r).
Proof. intros. apply getPendingRequest_Some. auto. Qed.

Lemma getPendingRequest_absent requestId p :
  pendingRequests p !! requestId = None -> getPendingRequest requestId p = None.
Proof. unfold getPendingRequest. intros ->. reflexivity. Qed.

Lemma same_defaults_refl p : same_defaults p p.
Proof. repeat split. Qed.

Lemma initiateRequest_effect message conversation options p :
  m_performative message = "request" ->
  exists p',
    initiateRequest message conversation options p = (Return (nextAddr p), p')
    /\ initiated message conversation options p p'.
Proof.
  intros Hperf. destruct p. rr_unfold. unfold initiated, new_request. simpl in *.
  rewrite (bool_decide_eq_true_2 _ Hperf). simpl.
  destruct (bool_decide (0 < num_or (opt_timeout options) defaultTimeout0)); simpl.
  - eexists. split; [reflexivity|]. simpl.
    rewrite alter_insert_eq. repeat split.
  - eexists. split; [reflexivity|]. simpl. repeat split.
Qed.

Lemma initiateRequest_rejects message conversation options p :
  m_performative message <> "request" ->
  initiateRequest message conversation options p = (Throw NotARequest, p).
Proof.
  intros Hperf. rr_unfold. rewrite (bool_decide_eq_false_2 _ Hperf). reflexivity.
Qed.

Lemma clearPendingRequest_effect requestId a r p :
  pendingRequests p !! requestId = Some a -> heap p !! a = Some r ->
  clearPendingRequest requestId p
  = (Return tt, set_pendingRequests (delete requestId (pendingRequests p))
                  (set_timers (cleared r (timers p)) p)).
Proof.
  intros H1 H2. destruct p. rr_unfold. unfold getPendingRequest, cleared. simpl in *.
  rewrite H1. simpl. rewrite H2. simpl.
  destruct (pr_timeout r); reflexivity.
Qed.

Lemma finish_effect requestId a r s e p :
  pendingRequests p !! requestId = Some a -> heap p !! a = Some r ->
  exists p',
    (clearPendingRequest requestId ;; settle a s ;; emit e)%js p = (Return tt, p')
    /\ finished requestId a r s e p p'.
Proof.
  intros H1 H2. unfold bind at 1.
  rewrite (clearPendingRequest_effect _ _ _ _ H1 H2).
  destruct p. rr_unfold. unfold finished, settled_with. simpl in *.
  destruct (settled0 !! a); eexists; (split; [reflexivity|]); simpl; repeat split.
Qed.

Lemma retryRequest_effect a r p :
  heap p !! a = Some r ->
  exists p', retryRequest a p = (Return tt, p') /\ retrying a r p p'.
Proof.
  intros H. destruct p. rr_unfold. unfold retrying, cleared. simpl in *.
  rewrite lookup_alter_eq, H. simpl.
  assert (alter (fun r0 => pr_set_retries (pr_retries r0 + 1) r0) a heap0
          = <[a := pr_set_retries (pr_retries r + 1) r]> heap0) as Ha.
  { apply map_eq. intros i. destruct (decide (i = a)) as [->|Hne].
    - rewrite lookup_alter_eq, lookup_insert_eq, H. reflexivity.
    - rewrite lookup_alter_ne, lookup_insert_ne by auto. reflexivity. }
  destruct (pr_timeout r); simpl; eexists; (split; [reflexivity|]); simpl;
    rewrite Ha; repeat split.
Qed.

Lemma retryRequest_resume_effect a r p :
  heap p !! a = Some r ->
  exists p',
    retryRequest_resume a p = (Return tt, p')
    /\ (0 < defaultTimeout p -> rearmed a r p p')
    /\ (defaultTimeout p <= 0 -> not_rearmed r p p').
Proof.
  intros H. destruct p. rr_unfold. unfold rearmed, not_rearmed. simpl in *.
  rewrite H. simpl.
  assert (alter (pr_set_timeout (Some nextTimer0)) a heap0
          = <[a := pr_set_timeout (Some nextTimer0) r]> heap0) as Ha.
  { apply map_eq. intros i. destruct (decide (i = a)) as [->|Hne].
    - rewrite lookup_alter_eq, lookup_insert_eq, H. reflexivity.
    - rewrite lookup_alter_ne, lookup_insert_ne by auto. reflexivity. }
  destruct (bool_decide (0 < defaultTimeout0)) eqn:E; simpl.
  - apply bool_decide_eq_true in E. eexists. split; [reflexivity|]. simpl.
    rewrite Ha. split; [|lia]. intros _. repeat split.
  - apply bool_decide_eq_false in E. eexists. split; [reflexivity|]. simpl.
    split; [lia|]. intros _. repeat split.
Qed.

Lemma truthy_ostr_Some o :
  truthy_ostr o = true <-> exists s, o = Some s /\ s <> "".
Proof.
  unfold truthy_ostr, truthy_str. destruct o as [s|]; split.
  - destruct (decide (s = "")); [discriminate|]. eauto.
  - intros (s' & E & Hne). injection E as ->.
    destruct (decide (s' = "")); [contradiction|reflexivity].
  - discriminate.
  - intros (s' & E & _). discriminate.
Qed.

Lemma handleResponse_effect message requestId a r p :
  m_inReplyTo message = Some requestId -> requestId <> "" ->
  pendingRequests p !! requestId = Some a -> heap p !! a = Some r ->
  exists p',
    handleResponse message p = (Return tt, p')
    /\ finished requestId a r (Resolved message)
         (responseReceived message (pr_message r)) p p'.
Proof.
  intros Hre Hne H1 H2. unfold handleResponse.
  rewrite (proj2 (truthy_ostr_Some _)) by eauto. simpl. rewrite Hre. simpl.
  unfold bind at 1. unfold get at 1.
  rewrite (getPendingRequest_found _ _ _ _ H1 H2).
  apply finish_effect; auto.
Qed.

Lemma handleFailure_final message requestId a r p :
  m_inReplyTo message = Some requestId -> requestId <> "" ->
  pendingRequests p !! requestId = Some a -> heap p !! a = Some r ->
  pr_maxRetries r <= pr_retries r ->
  let error := RequestFailed (str_or (js_toString (m_content message)) "Request failed") in
  exists p',
    handleFailure message p = (Return tt, p')
    /\ finished requestId a r (Rejected error)
         (requestFailed message (pr_message r) error) p p'.
Proof.
  intros Hre Hne H1 H2 Hmax. unfold handleFailure.
  rewrite (proj2 (truthy_ostr_Some _)) by eauto. simpl. rewrite Hre. simpl.
  unfold bind at 1. unfold get at 1.
  rewrite (getPendingRequest_found _ _ _ _ H1 H2).
  rewrite bool_decide_eq_false_2 by lia.
  apply finish_effect; auto.
Qed.

Lemma handleFailure_retry message requestId a r p :
  m_inReplyTo message = Some requestId -> requestId <> "" ->
  pendingRequests p !! requestId = Some a -> heap p !! a = Some r ->
  pr_retries r < pr_maxRetries r ->
  exists p', handleFailure message p = (Return tt, p') /\ retrying a r p p'.
Proof.
  intros Hre Hne H1 H2 Hmax. unfold handleFailure.
  rewrite (proj2 (truthy_ostr_Some _)) by eauto. simpl. rewrite Hre. simpl.
  unfold bind at 1. unfold get at 1.
  rewrite (getPendingRequest_found _ _ _ _ H1 H2).
  rewrite bool_decide_eq_true_2 by lia.
  apply retryRequest_effect; auto.
Qed.

Lemma handleTimeout_final requestId a r p :
  pendingRequests p !! requestId = Some a -> heap p !! a = Some r ->
  pr_maxRetries r <= pr_retries r ->
  exists p',
    handleTimeout requestId p = (Return tt, p')
    /\ finished requestId a r (Rejected RequestTimeout)
         (requestTimeout (pr_message r) RequestTimeout) p p'.
Proof.
  intros H1 H2 Hmax. unfold handleTimeout.
  unfold bind at 1. unfold get at 1.
  rewrite (getPendingRequest_found _ _ _ _ H1 H2).
  rewrite bool_decide_eq_false_2 by lia.
  apply finish_effect; auto.
Qed.

Lemma handleTimeout_retry requestId a r p :
  pendingRequests p !! requestId = Some a -> heap p !! a = Some r ->
  pr_retries r < pr_maxRetries r ->
  exists p', handleTimeout requestId p = (Return tt, p') /\ retrying a r p p'.
Proof.
  intros H1 H2 Hmax. unfold handleTimeout.
  unfold bind at 1. unfold get at 1.
  rewrite (getPendingRequest_found _ _ _ _ H1 H2).
  rewrite bool_decide_eq_true_2 by lia.
  apply retryRequest_effect; auto.
Qed.

Lemma cancelRequest_effect requestId a r p :
  pendingRequests p !! requestId = Some a -> heap p !! a = Some r ->
  exists p',
    cancelRequest requestId p = (Return true, p')
    /\ finished requestId a r (Rejected RequestCancelled)
         (requestCancelled (pr_message r)) p p'.
Proof.
  intros H1 H2. unfold cancelRequest.
  unfold bind at 1. unfold get at 1.
  rewrite (getPendingRequest_found _ _ _ _ H1 H2).
  destruct (finish_effect requestId a r (Rejected RequestCancelled)
              (requestCancelled (pr_message r)) p H1 H2) as (p' & E & Hf).
  exists p'. split; [|exact Hf].
  unfold bind in *. destruct (clearPendingRequest requestId p) as [[[]|e] p1];
    [|discriminate].
  destruct (settle a (Rejected RequestCancelled) p1) as [[[]|e] p2]; [|discriminate].
  destruct (emit (requestCancelled (pr_message r)) p2) as [[[]|e] p3]; [|discriminate].
  injection E as <-. reflexivity.
Qed.

(** Nothing is pending under [requestId]: the four handlers return and
    change nothing. *)
Lemma unmatched_unchanged requestId p :
  pendingRequests p !! requestId = None ->
  handleTimeout requestId p = (Return tt, p)
  /\ cancelRequest requestId p = (Return false, p)
  /\ (forall message, m_inReplyTo message = Some requestId ->
        handleResponse message p = (Return tt, p)
        /\ handleFailure message p = (Return tt, p)).
Proof.
  intros H. pose proof (getPendingRequest_absent _ _ H) as Hg.
  split; [|split].
  - unfold handleTimeout, bind, get. rewrite Hg. reflexivity.
  - unfold cancelRequest, bind, get. rewrite Hg. reflexivity.
  - intros message Hre. unfold handleResponse, handleFailure.
    destruct (truthy_ostr (m_inReplyTo message)); simpl; [|auto].
    rewrite Hre. simpl. unfold bind, get. rewrite Hg. auto.
Qed.

(** A message that is a reply to nothing. *)
Lemma not_a_reply_unchanged message p :
  truthy_ostr (m_inReplyTo message) = false ->
  handleResponse message p = (Return tt, p)
  /\ handleFailure message p = (Return tt, p).
Proof. intros H. unfold handleResponse, handleFailure. rewrite H. auto. Qed.

Lemma fire_effect h tm p :
  timers p !! h = Some tm ->
  fire h p =
    (match t_callback tm with
     | HandleTimeout requestId => handleTimeout requestId
     | ResumeRetry a => retryRequest_resume a
     end) (fired h tm p).
Proof.
  intros H. unfold fire. unfold bind at 1. unfold get at 1. rewrite H.
  reflexivity.
Qed.

Lemma fire_unarmed h p : timers p !! h = None -> fire h p = (Return tt, p).
Proof. intros H. unfold fire, bind, get. rewrite H. reflexivity. Qed.

End ProtocolEffects.

Section ProtocolInvariant.
Import RequestResponseProtocol.
Local Open Scope Z_scope.

Lemma cleared_lookup r (tms : gmap handle Timer) h tm :
  cleared r tms !! h = Some tm -> tms !! h = Some tm.
Proof.
  unfold cleared. destruct (pr_timeout r) as [h'|]; [|auto].
  intros H. apply lookup_delete_Some in H. tauto.
Qed.

Lemma well_formed_finished requestId a r s e p p' :
  well_formed p ->
  pendingRequests p !! requestId = Some a -> heap p !! a = Some r ->
  finished requestId a r s e p p' -> well_formed p'.
Proof.
  intros (W1 & W2 & W3 & W4 & W5 & W6) H1 H2
    (Ep & Eh & Ena & Et & Ent & Es & _).
  unfold well_formed. rewrite Ep, Eh, Ena, Et, Ent, Es.
  split; [exact W1|]. split.
  { intros h tm H. eapply W2, cleared_lookup, H. }
  split; [exact W3|]. split.
  { intros id' a' H. apply lookup_delete_Some in H as [_ H]. eauto. }
  split.
  { intros id' a' H. apply lookup_delete_Some in H as [Hne H].
    unfold settled_with. destruct (settled p !! a) eqn:E; [eauto|].
    rewrite lookup_insert_ne; [eauto|].
    intros <-. destruct (W4 _ _ H1) as (r1 & Hr1 & Hid1).
    destruct (W4 _ _ H) as (r2 & Hr2 & Hid2). congruence. }
  intros a' s' H. unfold settled_with in H.
  destruct (settled p !! a) eqn:E; [eauto|].
  apply lookup_insert_Some in H as [[<- _] | [_ H]]; eauto.
Qed.

Lemma well_formed_retrying a r p p' :
  well_formed p -> heap p !! a = Some r -> retrying a r p p' -> well_formed p'.
Proof.
  intros (W1 & W2 & W3 & W4 & W5 & W6) H2 (Ep & Eh & Ena & Et & Ent & Es & _).
  unfold well_formed. rewrite Ep, Eh, Ena, Et, Ent, Es.
  split.
  { intros a' r' H. apply lookup_insert_Some in H as [[<- _] | [_ H]]; eauto. }
  split.
  { intros h tm H. apply lookup_insert_Some in H as [[<- _] | [_ H]]; [lia|].
    apply cleared_lookup in H. apply W2 in H. lia. }
  split.
  { intros a' r' h H Hh. apply lookup_insert_Some in H as [[<- <-] | [_ H]].
    - simpl in Hh. specialize (W3 _ _ _ H2 Hh). lia.
    - specialize (W3 _ _ _ H Hh). lia. }
  split; [|auto].
  intros id' a' H. destruct (W4 _ _ H) as (r' & Hr' & Hid').
  destruct (decide (a' = a)) as [-> | Hne].
  - rewrite lookup_insert_eq. eexists. split; [reflexivity|]. simpl. congruence.
  - rewrite lookup_insert_ne by auto. eauto.
Qed.

Lemma well_formed_rearmed a r p p' :
  well_formed p -> heap p !! a = Some r -> rearmed a r p p' -> well_formed p'.
Proof.
  intros (W1 & W2 & W3 & W4 & W5 & W6) H2 (Ep & Eh & Ena & Et & Ent & Es & _).
  unfold well_formed. rewrite Ep, Eh, Ena, Et, Ent, Es.
  split.
  { intros a' r' H. apply lookup_insert_Some in H as [[<- _] | [_ H]]; eauto. }
  split.
  { intros h tm H. apply lookup_insert_Some in H as [[<- _] | [_ H]]; [lia|].
    apply W2 in H. lia. }
  split.
  { intros a' r' h H Hh. apply lookup_insert_Some in H as [[<- <-] | [_ H]].
    - simpl in Hh. injection Hh as <-. lia.
    - specialize (W3 _ _ _ H Hh). lia. }
  split; [|auto].
  intros id' a' H. destruct (W4 _ _ H) as (r' & Hr' & Hid').
  destruct (decide (a' = a)) as [-> | Hne].
  - rewrite lookup_insert_eq. eexists. split; [reflexivity|]. simpl. congruence.
  - rewrite lookup_insert_ne by auto. eauto.
Qed.

Lemma well_formed_not_rearmed r p p' :
  well_formed p -> not_rearmed r p p' -> well_formed p'.
Proof.
  intros (W1 & W2 & W3 & W4 & W5 & W6) (Ep & Eh & Ena & Et & Ent & Es & _).
  unfold well_formed. rewrite Ep, Eh, Ena, Et, Ent, Es. repeat split; auto.
Qed.

Lemma well_formed_initiated message conversation options p p' :
  well_formed p -> initiated message conversation options p p' -> well_formed p'.
Proof.
  intros (W1 & W2 & W3 & W4 & W5 & W6) (Ep & Eh & Ena & Et & Ent & Es & _).
  assert (heap p !! nextAddr p = None) as Hfresh.
  { destruct (heap p !! nextAddr p) eqn:E; [|reflexivity].
    apply W1 in E. lia. }
  unfold well_formed. rewrite Ep, Eh, Ena, Et, Ent, Es.
  split.
  { intros a' r' H. apply lookup_insert_Some in H as [[<- _] | [_ H]]; [lia|].
    apply W1 in H. lia. }
  split.
  { intros h tm H. destruct (bool_decide _); [|eauto].
    apply lookup_insert_Some in H as [[<- _] | [_ H]]; [lia|].
    apply W2 in H. lia. }
  split.
  { intros a' r' h H Hh. apply lookup_insert_Some in H as [[<- <-] | [_ H]].
    - unfold new_request in Hh. simpl in Hh.
      destruct (bool_decide _); [|discriminate]. injection Hh as <-. lia.
    - specialize (W3 _ _ _ H Hh). destruct (bool_decide _); lia. }
  split.
  { intros id' a' H. apply lookup_insert_Some in H as [[<- <-] | [_ H]].
    - rewrite lookup_insert_eq. eexists. split; reflexivity.
    - destruct (W4 _ _ H) as (r' & Hr' & Hid').
      rewrite lookup_insert_ne; [eauto|]. intros <-. congruence. }
  split.
  { intros id' a' H. apply lookup_insert_Some in H as [[<- <-] | [_ H]]; [|eauto].
    destruct (settled p !! nextAddr p) eqn:E; [|reflexivity].
    apply W6 in E. lia. }
  intros a' s' H. apply W6 in H. lia.
Qed.

Lemma well_formed_new options : well_formed (new options).
Proof.
  unfold well_formed, new. simpl.
  repeat split; intros *; rewrite lookup_empty; discriminate.
Qed.

Lemma well_formed_fired p h tm : well_formed p -> well_formed (fired h tm p).
Proof.
  unfold fired.
  intros (W1 & W2 & W3 & W4 & W5 & W6). unfold well_formed. destruct p; simpl in *.
  repeat split; auto.
  intros h' tm' H. apply lookup_delete_Some in H as [_ H]. eauto.
Qed.

(** What the handlers can do, case by case. *)
Lemma handleTimeout_cases requestId p :
  well_formed p ->
  handleTimeout requestId p = (Return tt, p)
  \/ exists a r p',
       pendingRequests p !! requestId = Some a /\ heap p !! a = Some r
       /\ handleTimeout requestId p = (Return tt, p')
       /\ ((pr_retries r < pr_maxRetries r /\ retrying a r p p')
           \/ (pr_maxRetries r <= pr_retries r
               /\ finished requestId a r (Rejected RequestTimeout)
                    (requestTimeout (pr_message r) RequestTimeout) p p')).
Proof.
  intros Hwf. destruct (pendingRequests p !! requestId) as [a|] eqn:H1.
  - right. destruct Hwf as (_ & _ & _ & W4 & _).
    destruct (W4 _ _ H1) as (r & H2 & _). exists a, r.
    destruct (decide (pr_retries r < pr_maxRetries r)) as [Hlt | Hge].
    + destruct (handleTimeout_retry _ _ _ _ H1 H2 Hlt) as (p' & E & Hr).
      exists p'. do 3 (split; [auto|]). left. auto.
    + destruct (handleTimeout_final requestId a r p H1 H2) as (p' & E & Hf); [lia|].
      exists p'. do 3 (split; [auto|]). right. split; [lia | exact Hf].
  - left. apply unmatched_unchanged, H1.
Qed.

Lemma handleResponse_cases message p :
  well_formed p ->
  handleResponse message p = (Return tt, p)
  \/ exists requestId a r p',
       m_inReplyTo message = Some requestId /\ requestId <> ""
       /\ pendingRequests p !! requestId = Some a /\ heap p !! a = Some r
       /\ handleResponse message p = (Return tt, p')
       /\ finished requestId a r (Resolved message)
            (responseReceived message (pr_message r)) p p'.
Proof.
  intros Hwf. destruct (truthy_ostr (m_inReplyTo message)) eqn:Ht.
  - apply truthy_ostr_Some in Ht as (requestId & Hre & Hne).
    destruct (pendingRequests p !! requestId) as [a|] eqn:H1.
    + right. destruct Hwf as (_ & _ & _ & W4 & _).
      destruct (W4 _ _ H1) as (r & H2 & _).
      destruct (handleResponse_effect _ _ _ _ _ Hre Hne H1 H2) as (p' & E & Hf).
      exists requestId, a, r, p'. do 5 (split; [auto|]). exact Hf.
    + left. apply (unmatched_unchanged _ _ H1), Hre.
  - left. apply not_a_reply_unchanged, Ht.
Qed.

Lemma handleFailure_cases message p :
  well_formed p ->
  handleFailure message p = (Return tt, p)
  \/ exists requestId a r p',
       m_inReplyTo message = Some requestId /\ requestId <> ""
       /\ pendingRequests p !! requestId = Some a /\ heap p !! a = Some r
       /\ handleFailure message p = (Return tt, p')
       /\ ((pr_retries r < pr_maxRetries r /\ retrying a r p p')
           \/ (pr_maxRetries r <= pr_retries r
               /\ finished requestId a r
                    (Rejected (RequestFailed
                       (str_or (js_toString (m_content message)) "Request failed")))
                    (requestFailed message (pr_message r)
                       (RequestFailed
                          (str_or (js_toString (m_content message)) "Request failed")))
                    p p')).
Proof.
  intros Hwf. destruct (truthy_ostr (m_inReplyTo message)) eqn:Ht.
  - apply truthy_ostr_Some in Ht as (requestId & Hre & Hne).
    destruct (pendingRequests p !! requestId) as [a|] eqn:H1.
    + right. destruct Hwf as (_ & _ & _ & W4 & _).
      destruct (W4 _ _ H1) as (r & H2 & _). exists requestId, a, r.
      destruct (decide (pr_retries r < pr_maxRetries r)) as [Hlt | Hge].
      * destruct (handleFailure_retry _ _ _ _ _ Hre Hne H1 H2 Hlt) as (p' & E & Hr).
        exists p'. do 5 (split; [auto|]). left. auto.
      * destruct (handleFailure_final message requestId a r p Hre Hne H1 H2)
          as (p' & E & Hf); [lia|].
        exists p'. do 5 (split; [auto|]). right. split; [lia | exact Hf].
    + left. apply (unmatched_unchanged _ _ H1), Hre.
  - left. apply not_a_reply_unchanged, Ht.
Qed.

Lemma cancelRequest_cases requestId p :
  well_formed p ->
  cancelRequest requestId p = (Return false, p)
  \/ exists a r p',
       pendingRequests p !! requestId = Some a /\ heap p !! a = Some r
       /\ cancelRequest requestId p = (Return true, p')
       /\ finished requestId a r (Rejected RequestCancelled)
            (requestCancelled (pr_message r)) p p'.
Proof.
  intros Hwf. destruct (pendingRequests p !! requestId) as [a|] eqn:H1.
  - right. destruct Hwf as (_ & _ & _ & W4 & _).
    destruct (W4 _ _ H1) as (r & H2 & _).
    destruct (cancelRequest_effect _ _ _ _ H1 H2) as (p' & E & Hf).
    exists a, r, p'. do 3 (split; [auto|]). exact Hf.
  - left. apply unmatched_unchanged, H1.
Qed.

Lemma well_formed_handleTimeout requestId p :
  well_formed p -> well_formed (state_of (handleTimeout requestId p)).
Proof.
  intros Hwf. destruct (handleTimeout_cases requestId p Hwf)
    as [-> | (a & r & p' & H1 & H2 & -> & [[_ Hr] | [_ Hf]])]; simpl.
  - exact Hwf.
  - eapply well_formed_retrying; eauto.
  - eapply well_formed_finished; eauto.
Qed.

Lemma well_formed_handleResponse message p :
  well_formed p -> well_formed (state_of (handleResponse message p)).
Proof.
  intros Hwf. destruct (handleResponse_cases message p Hwf)
    as [-> | (id & a & r & p' & _ & _ & H1 & H2 & -> & Hf)]; simpl.
  - exact Hwf.
  - eapply well_formed_finished; eauto.
Qed.

Lemma well_formed_handleFailure message p :
  well_formed p -> well_formed (state_of (handleFailure message p)).
Proof.
  intros Hwf. destruct (handleFailure_cases message p Hwf)
    as [-> | (id & a & r & p' & _ & _ & H1 & H2 & -> & [[_ Hr] | [_ Hf]])]; simpl.
  - exact Hwf.
  - eapply well_formed_retrying; eauto.
  - eapply well_formed_finished; eauto.
Qed.

Lemma well_formed_emit e p : well_formed p -> well_formed (state_of (emit e p)).
Proof. intros Hwf. destruct p. exact Hwf. Qed.

Lemma well_formed_resume a p :
  well_formed p -> well_formed (state_of (retryRequest_resume a p)).
Proof.
  intros Hwf. destruct (heap p !! a) as [r|] eqn:H.
  - destruct (retryRequest_resume_effect a r p H) as (p' & -> & Hpos & Hneg). simpl.
    destruct (decide (0 < defaultTimeout p)).
    + eapply well_formed_rearmed; eauto.
    + eapply well_formed_not_rearmed; [exact Hwf | apply Hneg; lia].
  - unfold retryRequest_resume, bind, get. rewrite H. exact Hwf.
Qed.

Lemma well_formed_step i p : well_formed p -> well_formed (step i p).
Proof.
  intros Hwf. destruct i as [message conversation options | message conversation
                            | message uuid | requestId | h | ms]; simpl.
  - destruct (decide (m_performative message = "request")) as [E | E].
    + destruct (initiateRequest_effect message conversation options p E)
        as (p' & -> & Hi). simpl. eapply well_formed_initiated; eauto.
    + rewrite initiateRequest_rejects by exact E. exact Hwf.
  - unfold handleMessageWithConversation.
    destruct (_ && _); [apply well_formed_handleResponse, Hwf|].
    destruct (bool_decide (_ = "request")); [apply well_formed_emit, Hwf|].
    destruct (_ && _); [apply well_formed_handleFailure, Hwf | exact Hwf].
  - unfold handleMessage. unfold bind at 1. unfold get at 1.
    destruct (Message_new _ uuid (clock p)) as [e | internalMessage];
      [exact Hwf|].
    destruct (_ && _); [apply well_formed_handleResponse, Hwf|].
    destruct (_ && _); [apply well_formed_handleFailure, Hwf | exact Hwf].
  - destruct (cancelRequest_cases requestId p Hwf)
      as [-> | (a & r & p' & H1 & H2 & -> & Hf)]; simpl; [exact Hwf|].
    eapply well_formed_finished; eauto.
  - destruct (timers p !! h) as [tm|] eqn:H.
    + rewrite (fire_effect _ _ _ H).
      destruct (t_callback tm) as [requestId | a].
      * apply well_formed_handleTimeout, well_formed_fired, Hwf.
      * apply well_formed_resume, well_formed_fired, Hwf.
    + rewrite (fire_unarmed _ _ H). exact Hwf.
  - destruct p. exact Hwf.
Qed.

Lemma protocol_reachable_well_formed p : reachable p -> well_formed p.
Proof.
  induction 1 as [options | i p _ IH _].
  - apply well_formed_new.
  - apply well_formed_step, IH.
Qed.

End ProtocolInvariant.

Section ProtocolHandles.
Import RequestResponseProtocol.
Local Open Scope Z_scope.

Lemma handles_sound_new options : handles_sound (new options).
Proof.
  unfold handles_sound, new. simpl.
  split; intros *; rewrite lookup_empty; discriminate.
Qed.

Lemma handles_sound_fired h tm p : handles_sound p -> handles_sound (fired h tm p).
Proof.
  intros (S1 & S2). unfold handles_sound, fired. destruct p; simpl in *. split.
  - intros h' tm' a H. apply lookup_delete_Some in H as [_ H]. eauto.
  - intros a r h' tm' Hr Hh H. apply lookup_delete_Some in H as [_ H]. eauto.
Qed.

Lemma handles_sound_finished requestId a r s e p p' :
  finished requestId a r s e p p' -> handles_sound p -> handles_sound p'.
Proof.
  intros (_ & Eh & _ & Et & _) (S1 & S2). unfold handles_sound. rewrite Eh, Et. split.
  - intros h tm a' H. apply cleared_lookup in H. eauto.
  - intros a' r' h tm Hr Hh H. apply cleared_lookup in H. eauto.
Qed.

Lemma handles_sound_retrying a r p p' :
  well_formed p -> heap p !! a = Some r ->
  retrying a r p p' -> handles_sound p -> handles_sound p'.
Proof.
  intros (_ & _ & W3 & _) Hr (_ & Eh & _ & Et & _) (S1 & S2).
  unfold handles_sound. rewrite Eh, Et. split.
  - intros h tm a' H Hcb. apply lookup_insert_Some in H as [[_ <-] | [_ H]].
    + simpl in Hcb. injection Hcb as <-. rewrite lookup_insert_eq. eauto.
    + apply cleared_lookup in H. destruct (S1 _ _ _ H Hcb) as [r' Hr'].
      destruct (decide (a' = a)) as [-> | Hne].
      * rewrite lookup_insert_eq. eauto.
      * rewrite lookup_insert_ne by auto. eauto.
  - intros a' r' h tm Hr' Hh H.
    assert (exists r0, heap p !! a' = Some r0 /\ pr_timeout r0 = Some h
                       /\ pr_id r0 = pr_id r') as (r0 & Hr0 & Hh0 & <-).
    { apply lookup_insert_Some in Hr' as [[<- <-] | [_ Hr']]; eauto. }
    apply lookup_insert_Some in H as [[<- _] | [_ H]].
    + specialize (W3 _ _ _ Hr0 Hh0). lia.
    + apply cleared_lookup in H. eauto.
Qed.

Lemma handles_sound_rearmed a r p p' :
  well_formed p -> heap p !! a = Some r ->
  rearmed a r p p' -> handles_sound p -> handles_sound p'.
Proof.
  intros (_ & W2 & W3 & _) Hr (_ & Eh & _ & Et & _) (S1 & S2).
  unfold handles_sound. rewrite Eh, Et. split.
  - intros h tm a' H Hcb. apply lookup_insert_Some in H as [[_ <-] | [_ H]];
      [discriminate|].
    destruct (S1 _ _ _ H Hcb) as [r' Hr'].
    destruct (decide (a' = a)) as [-> | Hne].
    + rewrite lookup_insert_eq. eauto.
    + rewrite lookup_insert_ne by auto. eauto.
  - intros a' r' h tm Hr' Hh H.
    apply lookup_insert_Some in Hr' as [[<- <-] | [_ Hr']].
    + simpl in Hh. injection Hh as <-. rewrite lookup_insert_eq in H.
      injection H as <-. reflexivity.
    + apply lookup_insert_Some in H as [[<- _] | [_ H]].
      * specialize (W3 _ _ _ Hr' Hh). lia.
      * eauto.
Qed.

Lemma handles_sound_not_rearmed r p p' :
  not_rearmed r p p' -> handles_sound p -> handles_sound p'.
Proof.
  intros (_ & Eh & _ & Et & _) H. unfold handles_sound. rewrite Eh, Et. exact H.
Qed.

Lemma handles_sound_initiated message conversation options p p' :
  well_formed p ->
  initiated message conversation options p p' -> handles_sound p -> handles_sound p'.
Proof.
  intros (W1 & W2 & W3 & _) (_ & Eh & _ & Et & _) (S1 & S2).
  unfold handles_sound. rewrite Eh, Et. split.
  - intros h tm a H Hcb.
    assert (timers p !! h = Some tm) as H'.
    { destruct (bool_decide _); [|exact H].
      apply lookup_insert_Some in H as [[_ <-] | [_ H]]; [discriminate | exact H]. }
    destruct (S1 _ _ _ H' Hcb) as [r Hr].
    rewrite lookup_insert_ne; [eauto|]. intros <-. apply W1 in Hr. lia.
  - intros a r h tm Hr Hh H.
    apply lookup_insert_Some in Hr as [[<- <-] | [_ Hr]].
    + unfold new_request in *. simpl in *.
      destruct (bool_decide _); [|discriminate]. injection Hh as <-.
      rewrite lookup_insert_eq in H. injection H as <-. reflexivity.
    + specialize (W3 _ _ _ Hr Hh).
      destruct (bool_decide _); [|eauto].
      rewrite lookup_insert_ne in H by lia. eauto.
Qed.

Lemma handles_sound_handleResponse message p :
  well_formed p -> handles_sound p ->
  handles_sound (state_of (handleResponse message p)).
Proof.
  intros Hwf H.
  destruct (handleResponse_cases message p Hwf)
    as [E | (id & a & r & p' & _ & _ & _ & _ & E & Hf)]; rewrite E; simpl.
  - exact H.
  - eapply handles_sound_finished; eauto.
Qed.

Lemma handles_sound_handleFailure message p :
  well_formed p -> handles_sound p ->
  handles_sound (state_of (handleFailure message p)).
Proof.
  intros Hwf H.
  destruct (handleFailure_cases message p Hwf)
    as [E | (id & a & r & p' & _ & _ & _ & Hh & E & [[_ Hr] | [_ Hf]])];
    rewrite E; simpl.
  - exact H.
  - eapply handles_sound_retrying; eauto.
  - eapply handles_sound_finished; eauto.
Qed.

Lemma handles_sound_step i p :
  well_formed p -> handles_sound p -> handles_sound (step i p).
Proof.
  intros Hwf H.
  destruct i as [message conversation options | message conversation
                | message uuid | requestId | h | ms]; simpl.
  - destruct (decide (m_performative message = "request")) as [E | E].
    + destruct (initiateRequest_effect message conversation options p E)
        as (p' & E' & Hi). rewrite E'. simpl.
      eapply handles_sound_initiated; eauto.
    + rewrite initiateRequest_rejects by exact E. exact H.
  - unfold handleMessageWithConversation.
    destruct (_ && _); [apply handles_sound_handleResponse; assumption|].
    destruct (bool_decide (_ = "request")); [destruct p; exact H|].
    destruct (_ && _); [apply handles_sound_handleFailure; assumption | exact H].
  - unfold handleMessage. unfold bind at 1. unfold get at 1.
    destruct (Message_new _ uuid (clock p)) as [e | internalMessage]; [exact H|].
    destruct (_ && _); [apply handles_sound_handleResponse; assumption|].
    destruct (_ && _); [apply handles_sound_handleFailure; assumption | exact H].
  - destruct (cancelRequest_cases requestId p Hwf)
      as [E | (a & r & p' & _ & _ & E & Hf)]; rewrite E; simpl; [exact H|].
    eapply handles_sound_finished; eauto.
  - destruct (timers p !! h) as [tm|] eqn:Ht.
    + rewrite (fire_effect _ _ _ Ht).
      pose proof (well_formed_fired p h tm Hwf) as Hwf'.
      pose proof (handles_sound_fired h tm p H) as H'.
      destruct (t_callback tm) as [requestId | a].
      * destruct (handleTimeout_cases requestId _ Hwf')
          as [E | (a & r & p' & _ & Hh & E & [[_ Hr] | [_ Hf]])];
          rewrite E; simpl.
        -- exact H'.
        -- eapply handles_sound_retrying; eauto.
        -- eapply handles_sound_finished; eauto.
      * destruct (heap (fired h tm p) !! a) as [r|] eqn:Hh.
        -- destruct (retryRequest_resume_effect a r _ Hh) as (p' & E & Hpos & Hneg).
           rewrite E. simpl. destruct (decide (0 < defaultTimeout (fired h tm p))).
           ++ apply (handles_sound_rearmed a r _ p' Hwf' Hh); [|exact H'].
              apply Hpos. lia.
           ++ apply (handles_sound_not_rearmed r (fired h tm p) p'); [|exact H'].
              apply Hneg. lia.
        -- unfold retryRequest_resume, bind, get. rewrite Hh. exact H'.
    + rewrite (fire_unarmed _ _ Ht). exact H.
  - destruct p. exact H.
Qed.

(** The two invariants along any inputs, admissible or not. *)
Lemma steps_invariants inputs : forall p,
  well_formed p -> handles_sound p ->
  well_formed (steps inputs p) /\ handles_sound (steps inputs p).
Proof.
  induction inputs as [|i inputs IH]; intros p Hwf H; simpl; [auto|].
  apply IH; [apply well_formed_step, Hwf | apply handles_sound_step; assumption].
Qed.

Lemma reachable_handles_sound p : reachable p -> handles_sound p.
Proof.
  induction 1 as [options | i p Hr IH _].
  - apply handles_sound_new.
  - apply handles_sound_step; [apply protocol_reachable_well_formed, Hr | exact IH].
Qed.

End ProtocolHandles.

Section ProtocolReplies.
Import RequestResponseProtocol.
Local Open Scope Z_scope.

Lemma constructed_id message : constructed message -> m_id message <> "".
Proof.
  intros (options & uuid & now & Hu & Hnew). unfold Message_new in Hnew.
  destruct (Message_validate _); [discriminate|]. injection Hnew as <-. simpl.
  unfold str_or, truthy_str. destruct (mo_id options) as [s|]; [|exact Hu].
  destruct (decide (s = "")); auto.
Qed.

Lemma constructed_request_r1 : constructed Examples.request_r1.
Proof.
  exists Examples.request_r1_options, "u", 7. split; [discriminate | reflexivity].
Qed.

(** Which entries the map has after a step: those it had, and the one of
    the request just initiated. *)
Lemma step_pendingRequests i p requestId a :
  well_formed p ->
  pendingRequests (step i p) !! requestId = Some a ->
  pendingRequests p !! requestId = Some a
  \/ exists message conversation options,
       i = InitiateRequest message conversation options /\ requestId = m_id message.
Proof.
  intros Hwf.
  assert (forall message,
    pendingRequests (state_of (handleResponse message p)) !! requestId = Some a ->
    pendingRequests p !! requestId = Some a) as Hresp.
  { intros message. destruct (handleResponse_cases message p Hwf)
      as [E | (id & a' & r & p' & _ & _ & _ & _ & E & (Ep & _))];
      rewrite E; simpl; [auto|].
    rewrite Ep. intros H. apply lookup_delete_Some in H. tauto. }
  assert (forall message,
    pendingRequests (state_of (handleFailure message p)) !! requestId = Some a ->
    pendingRequests p !! requestId = Some a) as Hfail.
  { intros message. destruct (handleFailure_cases message p Hwf)
      as [E | (id & a' & r & p' & _ & _ & _ & _ & E
               & [[_ (Ep & _)] | [_ (Ep & _)]])];
      rewrite E; simpl; [auto | |]; rewrite Ep; [auto|].
    intros H. apply lookup_delete_Some in H. tauto. }
  destruct i as [message conversation options | message conversation
                | message uuid | requestId' | h | ms]; simpl.
  - destruct (decide (m_performative message = "request")) as [E | E].
    + destruct (initiateRequest_effect message conversation options p E)
        as (p' & E' & (Ep & _)). rewrite E'. simpl. rewrite Ep. intros H.
      apply lookup_insert_Some in H as [[<- _] | [_ H]]; [right; eauto | auto].
    + rewrite initiateRequest_rejects by exact E. auto.
  - unfold handleMessageWithConversation.
    destruct (_ && _); [left; eapply Hresp; eauto|].
    destruct (bool_decide (_ = "request")); [destruct p; auto|].
    destruct (_ && _); [left; eapply Hfail; eauto | auto].
  - unfold handleMessage. unfold bind at 1. unfold get at 1.
    destruct (Message_new _ uuid (clock p)) as [e | internalMessage]; [auto|].
    destruct (_ && _); [left; eapply Hresp; eauto|].
    destruct (_ && _); [left; eapply Hfail; eauto | auto].
  - destruct (cancelRequest_cases requestId' p Hwf)
      as [E | (a' & r & p' & _ & _ & E & (Ep & _))]; rewrite E; simpl; [auto|].
    rewrite Ep. intros H. apply lookup_delete_Some in H. tauto.
  - destruct (timers p !! h) as [tm|] eqn:H.
    + rewrite (fire_effect _ _ _ H).
      assert (pendingRequests (fired h tm p) = pendingRequests p) as Ef
        by (destruct p; reflexivity).
      pose proof (well_formed_fired p h tm Hwf) as Hwf'.
      destruct (t_callback tm) as [requestId' | a'].
      * destruct (handleTimeout_cases requestId' _ Hwf')
          as [E | (a' & r & p' & _ & _ & E & [[_ (Ep & _)] | [_ (Ep & _)]])];
          rewrite E; simpl; rewrite ?Ep, ?Ef; [auto | auto |].
        intros H'. apply lookup_delete_Some in H'. tauto.
      * destruct (heap (fired h tm p) !! a') as [r|] eqn:Hh.
        -- destruct (retryRequest_resume_effect a' r _ Hh) as (p' & E & Hpos & Hneg).
           rewrite E. simpl. destruct (decide (0 < defaultTimeout (fired h tm p))).
           ++ destruct (Hpos ltac:(lia)) as (Ep & _). rewrite Ep, ?Ef. auto.
           ++ destruct (Hneg ltac:(lia)) as (Ep & _). rewrite Ep, ?Ef. auto.
        -- unfold retryRequest_resume, bind, get. rewrite Hh. simpl. rewrite ?Ef. auto.
    + rewrite (fire_unarmed _ _ H). auto.
  - destruct p; auto.
Qed.

(** The id of a pending request is never the empty string. *)
Lemma reachable_request_ids p requestId a :
  reachable p -> pendingRequests p !! requestId = Some a -> requestId <> "".
Proof.
  intros Hr. revert requestId a. induction Hr as [options | i p Hr IH Hadm];
    intros requestId a H.
  - unfold new in H. simpl in H. rewrite lookup_empty in H. discriminate.
  - destruct (step_pendingRequests i p requestId a
                (protocol_reachable_well_formed p Hr) H)
      as [H' | (message & conversation & options & -> & ->)].
    + eapply IH, H'.
    + apply constructed_id, Hadm.
Qed.

(** ** C8 *)

(** C8. An inbound message with performative ['inform'] or ['failure']
    whose [inReplyTo] names no pending request (or is absent or empty) is
    handled without an error and leaves the protocol exactly as it was:
    the map of pending requests, the timers, the settlements and the
    emitted events are the same. This holds of
    [handleMessageWithConversation], of [handleResponse] and
    [handleFailure] themselves, and of [handleMessage] on a plain object
    that the [Message] constructor accepts. *)
Theorem C8_unmatched_reply_is_dropped
    (p : t) (message : Message) (conversation : Conversation.t) :
  m_performative message = "inform" \/ m_performative message = "failure" ->
  (forall requestId,
      m_inReplyTo message = Some requestId -> pendingRequests p !! requestId = None) ->
  handleMessageWithConversation message conversation p = (Return tt, p)
  /\ handleResponse message p = (Return tt, p)
  /\ handleFailure message p = (Return tt, p)
  /\ (forall uuid,
        Message_validate message = None ->
        handleMessage message uuid p = (Return tt, p)).
Proof.
  intros Hperf Hnone.
  assert (forall m', m_inReplyTo m' = m_inReplyTo message ->
            handleResponse m' p = (Return tt, p)
            /\ handleFailure m' p = (Return tt, p)) as Hdrop.
  { intros m' Hre. destruct (truthy_ostr (m_inReplyTo m')) eqn:Ht.
    - apply truthy_ostr_Some in Ht as (requestId & Hre' & _).
      apply (unmatched_unchanged requestId p); [|exact Hre'].
      apply Hnone. congruence.
    - apply not_a_reply_unchanged, Ht. }
  destruct (Hdrop message eq_refl) as [Hresp Hfail].
  split; [|split; [exact Hresp | split; [exact Hfail|]]].
  - unfold handleMessageWithConversation.
    destruct Hperf as [-> | ->]; simpl;
      destruct (truthy_ostr (m_inReplyTo message)); simpl; auto.
  - intros uuid Hvalid. unfold handleMessage, Message_new.
    unfold bind at 1. unfold get at 1.
    assert (forall i t, Message_validate
              {| m_id := i; m_conversationId := m_conversationId message;
                 m_performative := m_performative message;
                 m_sender := m_sender message; m_receiver := m_receiver message;
                 m_content := m_content message; m_timestamp := t;
                 m_inReplyTo := m_inReplyTo message |} = None) as Hv.
    { intros i t. exact Hvalid. }
    simpl. rewrite Hv.
    match goal with
    | |- context [handleResponse ?m'] =>
        destruct (Hdrop m' eq_refl) as [E1 E2]
    end.
    destruct (_ && _); [exact E1|]. destruct (_ && _); [exact E2 | reflexivity].
Qed.

Lemma C8_unmatched_reply_is_dropped_witness :
  handleMessageWithConversation Examples.inform_r1 Examples.conversation_AB
    (new no_options)
  = (Return tt, new no_options).
Proof.
  apply (C8_unmatched_reply_is_dropped (new no_options) Examples.inform_r1
           Examples.conversation_AB).
  - left. reflexivity.
  - intros requestId _. apply lookup_empty.
Defined.

(** ** C9 *)

(** What [cancelRequest] does in every state of the protocol. It returns
    [false] and changes nothing when no request is pending under
    [requestId]. When one is, it returns [true]: the entry is removed from
    the map, the timer whose handle the object of the entry holds is no
    longer armed and every other timer is as it was, the promise is
    rejected with the cancellation error at the time of the call, and
    ['requestCancelled'] is emitted with the request; a second
    [cancelRequest(requestId)] then returns [false] and changes nothing. *)
Lemma cancelRequest_outcome (p : t) (requestId : string) :
  reachable p ->
  (pendingRequests p !! requestId = None ->
   cancelRequest requestId p = (Return false, p))
  /\ (forall a,
        pendingRequests p !! requestId = Some a ->
        exists r p',
          heap p !! a = Some r
          /\ cancelRequest requestId p = (Return true, p')
          /\ pendingRequests p' = delete requestId (pendingRequests p)
          /\ timers p' = cleared r (timers p)
          /\ (forall h, pr_timeout r = Some h -> timers p' !! h = None)
          /\ (forall h, pr_timeout r <> Some h -> timers p' !! h = timers p !! h)
          /\ settled p' = <[a := (Rejected RequestCancelled, clock p)]> (settled p)
          /\ emitted p' = emitted p ++ [requestCancelled (pr_message r)]
          /\ heap p' = heap p
          /\ cancelRequest requestId p' = (Return false, p')).
Proof.
  intros Hr. pose proof (protocol_reachable_well_formed p Hr) as Hwf. split.
  - intros H. apply unmatched_unchanged, H.
  - intros a H1. destruct Hwf as (_ & _ & _ & W4 & W5 & _).
    destruct (W4 _ _ H1) as (r & H2 & _).
    destruct (cancelRequest_effect _ _ _ _ H1 H2)
      as (p' & E & (Ep & Eh & _ & Et & _ & Es & Ee & _)).
    exists r, p'. split; [exact H2|]. split; [exact E|]. split; [exact Ep|].
    split; [exact Et|]. split.
    { intros h Hh. rewrite Et. unfold cleared. rewrite Hh. apply lookup_delete_eq. }
    split.
    { intros h Hh. rewrite Et. unfold cleared.
      destruct (pr_timeout r) as [h'|]; [|reflexivity].
      apply lookup_delete_ne. congruence. }
    split.
    { rewrite Es. unfold settled_with. rewrite (W5 _ _ H1). reflexivity. }
    split; [exact Ee|]. split; [exact Eh|].
    apply unmatched_unchanged. rewrite Ep. apply lookup_delete_eq.
Qed.

Lemma reachable_protocol_r1 : reachable Examples.protocol_r1.
Proof.
  apply reachable_step; [apply reachable_new | exact constructed_request_r1].
Qed.

(** C9 on the code, at the input where it fails. [request_r1] is
    initiated on a protocol with the defaults and the reply [failure_r1]
    starts a retry: the request is pending and its one armed timer is the
    timer of the retry delay (handle 1, due at 1000).
    [cancelRequest('r1')] returns [true], removes the entry, rejects the
    promise with the cancellation error and emits ['requestCancelled'],
    but it clears no timer: the timer of the entry is still armed. When
    it fires, the retry goes on for the cancelled request:
    ['requestRetry'] is emitted, and a deadline timer of 30000 is armed
    for the id, under which nothing is pending. *)
Theorem C9_cancel_during_retry_delay_leaves_timer :
  let p := Examples.protocol_r1_delay in
  let p' := state_of (cancelRequest "r1" p) in
  let p'' := state_of (fire 1%nat p') in
  pendingRequests p !! "r1" = Some 0%nat
  /\ timers p = {[1%nat := {| t_delay := 1000; t_due := 1000;
                              t_callback := ResumeRetry 0%nat |}]}
  /\ outcome_of (cancelRequest "r1" p) = Return true
  /\ pendingRequests p' = ∅
  /\ settled p' !! 0%nat = Some (Rejected RequestCancelled, 0)
  /\ last (emitted p') = Some (requestCancelled Examples.request_r1)
  /\ timers p' = timers p
  /\ emitted p'' = emitted p' ++ [requestRetry Examples.request_r1 1]
  /\ timers p'' = {[2%nat := {| t_delay := 30000; t_due := 31000;
                                t_callback := HandleTimeout "r1" |}]}
  /\ pendingRequests p'' = ∅.
Proof. intros p p' p''. repeat split; vm_compute; reflexivity. Qed.

End ProtocolReplies.

Section ProtocolRetries.
Import RequestResponseProtocol.
Local Open Scope Z_scope.



Lemma handleMessageWithConversation_failure message conversation p :
  m_performative message = "failure" ->
  handleMessageWithConversation message conversation p = handleFailure message p.
Proof.
  intros E. unfold handleMessageWithConversation. rewrite E. simpl.
  destruct (truthy_ostr (m_inReplyTo message)) eqn:Ht; [reflexivity|].
  symmetry. apply not_a_reply_unchanged, Ht.
Qed.



(** ** C2 *)




(** The case the theorem leaves out: a failure reply handled while the
    request waits out a retry delay starts a second retry beside the
    first. Nothing is cleared; two timers of a retry delay are armed for
    the one entry, two retries are counted, and when both delays have
    passed two deadline timers act on the entry. *)
Lemma failure_during_retry_delay_starts_second_retry :
  let p := step (Receive Examples.failure_r1 Examples.conversation_AB)
             Examples.protocol_r1_delay in
  let p' := steps [TimerFires 1%nat; TimerFires 2%nat] p in
  size (delay_timers 0%nat Examples.protocol_r1_delay) = 1%nat
  /\ size (delay_timers 0%nat p) = 2%nat
  /\ pr_retries <$> heap p !! 0%nat = Some 2
  /\ pendingRequests p' !! "r1" = Some 0%nat
  /\ size (deadline_timers "r1" p') = 2%nat.
Proof. intros p p'. repeat split; vm_compute; reflexivity. Qed.

(** ** C3 *)

(** The first half of C3: once the retry count has reached the maximum,
    the expiry of the deadline timer rejects the promise with the timeout
    error, a failure reply rejects it with the error of the failure, and
    either removes the entry and emits its event. *)
Lemma exhausted_budget_rejects
    (p : t) (requestId : string) (a : addr) (r : PendingRequest) :
  reachable p ->
  pendingRequests p !! requestId = Some a ->
  heap p !! a = Some r ->
  pr_maxRetries r <= pr_retries r ->
  (forall h tm,
      timers p !! h = Some tm ->
      t_callback tm = HandleTimeout requestId ->
      exists p',
        fire h p = (Return tt, p')
        /\ pendingRequests p' = delete requestId (pendingRequests p)
        /\ settled p' = <[a := (Rejected RequestTimeout, Z.max (clock p) (t_due tm))]>
                          (settled p)
        /\ emitted p' = emitted p ++ [requestTimeout (pr_message r) RequestTimeout]
        /\ timers p' = cleared r (delete h (timers p)))
  /\ (forall message conversation,
        m_performative message = "failure" ->
        m_inReplyTo message = Some requestId ->
        let error :=
          RequestFailed (str_or (js_toString (m_content message)) "Request failed") in
        exists p',
          handleMessageWithConversation message conversation p = (Return tt, p')
          /\ pendingRequests p' = delete requestId (pendingRequests p)
          /\ settled p' = <[a := (Rejected error, clock p)]> (settled p)
          /\ emitted p' = emitted p ++ [requestFailed message (pr_message r) error]
          /\ timers p' = cleared r (timers p)).
Proof.
  intros Hr H1 H2 Hge.
  pose proof (protocol_reachable_well_formed p Hr) as Hwf.
  pose proof (reachable_request_ids p requestId a Hr H1) as Hne.
  assert (settled p !! a = None) as Hs.
  { destruct Hwf as (_ & _ & _ & _ & W5 & _). eauto. }
  split.
  - intros h tm Hh Hcb. rewrite (fire_effect _ _ _ Hh), Hcb.
    assert (pendingRequests (fired h tm p) !! requestId = Some a) as H1'
      by (destruct p; exact H1).
    assert (heap (fired h tm p) !! a = Some r) as H2' by (destruct p; exact H2).
    destruct (handleTimeout_final _ _ _ _ H1' H2' Hge)
      as (p' & E & (Ep & _ & _ & Et & _ & Es & Ee & _)).
    exists p'. split; [exact E|]. rewrite Ep, Es, Ee, Et.
    unfold settled_with, fired. destruct p; simpl in *. rewrite Hs. auto.
  - intros message conversation Hperf Hre error.
    rewrite (handleMessageWithConversation_failure _ _ _ Hperf).
    destruct (handleFailure_final _ _ _ _ _ Hre Hne H1 H2 Hge)
      as (p' & E & (Ep & _ & _ & Et & _ & Es & Ee & _)).
    exists p'. split; [exact E|]. rewrite Ep, Es, Ee, Et.
    unfold settled_with. rewrite Hs. auto.
Qed.

(** C3, the scenario, on the code: a protocol with the defaults, a request
    initiated with [{timeout: 50, maxRetries: 0}], no reply. The [0] is
    taken for an absent option and the entry gets the default maximum of 3
    retries. When the loop has run the timers due by time 50, the request
    is still pending, nothing is settled, and one retry is counted; the
    promise is rejected with the timeout error at time 93050, after three
    retries. *)
Theorem C3_scenario_maxRetries_zero_counts_as_absent :
  pr_maxRetries <$> heap Examples.protocol_50_0 !! 0%nat = Some 3
  /\ (timers Examples.protocol_50_0 !! 0%nat
      = Some {| t_delay := 50; t_due := 50; t_callback := HandleTimeout "r1" |})
  /\ (settled <$> run_until 10 50 Examples.protocol_50_0) = Some ∅
  /\ ((fun p => pendingRequests p !! "r1") <$> run_until 10 50 Examples.protocol_50_0)
     = Some (Some 0%nat)
  /\ ((fun p => pr_retries <$> heap p !! 0%nat) <$> run_until 10 50 Examples.protocol_50_0)
     = Some (Some 1)
  /\ (settled <$> run_until 10 93049 Examples.protocol_50_0) = Some ∅
  /\ ((fun p => settled p !! 0%nat) <$> run_until 10 93050 Examples.protocol_50_0)
     = Some (Some (Rejected RequestTimeout, 93050))
  /\ ((fun p => pr_retries <$> heap p !! 0%nat)
        <$> run_until 10 93050 Examples.protocol_50_0)
     = Some (Some 3).
Proof. repeat split; vm_compute; reflexivity. Qed.

End ProtocolRetries.

Section ProtocolDefaults.
Import RequestResponseProtocol.
Local Open Scope Z_scope.

Lemma finished_defaults requestId a r s e p p' :
  finished requestId a r s e p p' -> same_defaults p p'.
Proof. intros (_ & _ & _ & _ & _ & _ & _ & _ & H). exact H. Qed.

Lemma retrying_defaults a r p p' : retrying a r p p' -> same_defaults p p'.
Proof. intros (_ & _ & _ & _ & _ & _ & _ & _ & H). exact H. Qed.

Lemma same_defaults_trans p p' p'' :
  same_defaults p p' -> same_defaults p' p'' -> same_defaults p p''.
Proof. unfold same_defaults. intros (? & ? & ?) (? & ? & ?). repeat split; congruence. Qed.

Lemma fired_defaults h tm p : same_defaults p (fired h tm p).
Proof. destruct p. repeat split. Qed.

(** No step changes the defaults the constructor has set. *)
Lemma step_defaults i p : same_defaults p (step i p).
Proof.
  assert (forall message, same_defaults p (state_of (handleResponse message p))) as Hresp.
  { intros message. unfold handleResponse.
    destruct (negb _); [apply same_defaults_refl|].
    unfold bind at 1. unfold get at 1.
    destruct (getPendingRequest _ p) as [[a r]|] eqn:E; [|apply same_defaults_refl].
    apply getPendingRequest_Some in E as [H1 H2].
    destruct (finish_effect _ a r (Resolved message)
                (responseReceived message (pr_message r)) p H1 H2) as (p' & -> & Hf).
    exact (finished_defaults _ _ _ _ _ _ _ Hf). }
  assert (forall q requestId, same_defaults q (state_of (handleTimeout requestId q)))
    as Htime.
  { intros q requestId. unfold handleTimeout. unfold bind at 1. unfold get at 1.
    destruct (getPendingRequest _ q) as [[a r]|] eqn:E; [|apply same_defaults_refl].
    apply getPendingRequest_Some in E as [H1 H2].
    destruct (bool_decide _).
    - destruct (retryRequest_effect a r q H2) as (p' & -> & Hr).
      exact (retrying_defaults _ _ _ _ Hr).
    - destruct (finish_effect _ a r (Rejected RequestTimeout)
                  (requestTimeout (pr_message r) RequestTimeout) q H1 H2)
        as (p' & -> & Hf).
      exact (finished_defaults _ _ _ _ _ _ _ Hf). }
  assert (forall message, same_defaults p (state_of (handleFailure message p))) as Hfail.
  { intros message. unfold handleFailure.
    destruct (negb _); [apply same_defaults_refl|].
    unfold bind at 1. unfold get at 1.
    destruct (getPendingRequest _ p) as [[a r]|] eqn:E; [|apply same_defaults_refl].
    apply getPendingRequest_Some in E as [H1 H2].
    destruct (bool_decide _).
    - destruct (retryRequest_effect a r p H2) as (p' & -> & Hr).
      exact (retrying_defaults _ _ _ _ Hr).
    - edestruct (finish_effect (default "" (m_inReplyTo message)) a r)
        as (p' & E' & Hf); [exact H1 | exact H2 |].
      rewrite E'. exact (finished_defaults _ _ _ _ _ _ _ Hf). }
  destruct i as [message conversation options | message conversation
                | message uuid | requestId | h | ms]; simpl.
  - destruct (decide (m_performative message = "request")) as [E | E].
    + destruct (initiateRequest_effect message conversation options p E)
        as (p' & -> & Hi). apply Hi.
    + rewrite initiateRequest_rejects by exact E. apply same_defaults_refl.
  - unfold handleMessageWithConversation.
    destruct (_ && _); [apply Hresp|].
    destruct (bool_decide (_ = "request")); [destruct p; repeat split|].
    destruct (_ && _); [apply Hfail | apply same_defaults_refl].
  - unfold handleMessage. unfold bind at 1. unfold get at 1.
    destruct (Message_new _ uuid (clock p)) as [e | internalMessage];
      [apply same_defaults_refl|].
    destruct (_ && _); [apply Hresp|].
    destruct (_ && _); [apply Hfail | apply same_defaults_refl].
  - unfold cancelRequest. unfold bind at 1. unfold get at 1.
    destruct (getPendingRequest _ p) as [[a r]|] eqn:E; [|apply same_defaults_refl].
    apply getPendingRequest_Some in E as [H1 H2].
    destruct (cancelRequest_effect _ _ _ _ H1 H2) as (p' & E' & Hf).
    unfold cancelRequest in E'. unfold bind at 1 in E'. unfold get at 1 in E'.
    rewrite (getPendingRequest_found _ _ _ _ H1 H2) in E'. rewrite E'.
    exact (finished_defaults _ _ _ _ _ _ _ Hf).
  - destruct (timers p !! h) as [tm|] eqn:H.
    + rewrite (fire_effect _ _ _ H).
      eapply same_defaults_trans; [apply (fired_defaults h tm)|].
      destruct (t_callback tm) as [requestId | a]; [apply Htime|].
      destruct (heap (fired h tm p) !! a) as [r|] eqn:Hh.
      * destruct (retryRequest_resume_effect a r _ Hh) as (p' & -> & Hpos & Hneg).
        destruct (decide (0 < defaultTimeout (fired h tm p))).
        -- apply Hpos. lia.
        -- apply Hneg. lia.
      * unfold retryRequest_resume, bind, get. rewrite Hh. apply same_defaults_refl.
    + rewrite (fire_unarmed _ _ H). apply same_defaults_refl.
  - destruct p; repeat split.
Qed.

Lemma steps_defaults inputs : forall p, same_defaults p (steps inputs p).
Proof.
  induction inputs as [|i inputs IH]; intros p; simpl.
  - apply same_defaults_refl.
  - eapply same_defaults_trans; [apply step_defaults | apply IH].
Qed.

(** ** C10 *)

(** C10 (as the code has it). The default timeout of a protocol is the
    [timeout] given to its constructor, and 30000 when that is absent or
    0; no step changes it. A request initiated with a positive [timeout]
    option gets its first deadline timer for that duration. A retry in
    progress is a timer of a retry delay, and it refers to an object of
    the store; when it fires, the second half of the retry looks only at
    the default: when the default is positive it arms a deadline timer
    for the default, counted from the time of the firing, and stores its
    handle in the object, whatever timeout the request was initiated with
    and whether or not it had a timer; when the default is not positive
    it arms no timer. *)
Theorem C10_retry_deadline_is_default_timeout
    (options : RequestResponseOptions) (inputs : list Input) :
  let p := steps inputs (new options) in
  defaultTimeout p = num_or (opt_timeout options) 30000
  /\ (forall message conversation o t,
        m_performative message = "request" ->
        opt_timeout o = Some t ->
        0 < t ->
        exists p',
          initiateRequest message conversation o p = (Return (nextAddr p), p')
          /\ timers p' = <[nextTimer p := {| t_delay := t;
                                            t_due := clock p + effective_delay t;
                                            t_callback := HandleTimeout (m_id message) |}]>
                           (timers p))
  /\ (forall h tm a,
        timers p !! h = Some tm ->
        t_callback tm = ResumeRetry a ->
        exists r p',
          heap p !! a = Some r
          /\ fire h p = (Return tt, p')
          /\ (0 < defaultTimeout p ->
              timers p' = <[nextTimer p :=
                              {| t_delay := defaultTimeout p;
                                 t_due := Z.max (clock p) (t_due tm)
                                          + effective_delay (defaultTimeout p);
                                 t_callback := HandleTimeout (pr_id r) |}]>
                            (delete h (timers p))
              /\ heap p' !! a = Some (pr_set_timeout (Some (nextTimer p)) r))
          /\ (defaultTimeout p <= 0 ->
              timers p' = delete h (timers p) /\ heap p' = heap p)).
Proof.
  intros p. split; [|split].
  - destruct (steps_defaults inputs (new options)) as (E & _). exact E.
  - intros message conversation o t Hperf Ht Hpos.
    destruct (initiateRequest_effect message conversation o p Hperf)
      as (p' & E & (_ & _ & _ & Et & _)).
    exists p'. split; [exact E|]. rewrite Et.
    assert (num_or (opt_timeout o) (defaultTimeout p) = t) as ->.
    { rewrite Ht. unfold num_or. destruct (decide (t = 0)); [lia | reflexivity]. }
    rewrite bool_decide_eq_true_2 by exact Hpos. reflexivity.
  - intros h tm a Ht Hcb.
    destruct (steps_invariants inputs (new options) (well_formed_new options)
                (handles_sound_new options)) as [_ (S1 & _)].
    destruct (S1 _ _ _ Ht Hcb) as [r Hr]. fold p in Hr.
    assert (heap (fired h tm p) !! a = Some r) as Hr' by (destruct p; exact Hr).
    destruct (retryRequest_resume_effect a r _ Hr') as (p' & E & Hpos & Hneg).
    exists r, p'. split; [exact Hr|]. split.
    { rewrite (fire_effect _ _ _ Ht), Hcb. exact E. }
    assert (defaultTimeout (fired h tm p) = defaultTimeout p
            /\ timers (fired h tm p) = delete h (timers p)
            /\ nextTimer (fired h tm p) = nextTimer p
            /\ clock (fired h tm p) = Z.max (clock p) (t_due tm)
            /\ heap (fired h tm p) = heap p) as (K1 & K2 & K3 & K4 & K5)
      by (destruct p; auto).
    rewrite K1 in Hpos, Hneg. split.
    + intros H0. destruct (Hpos H0) as (_ & Eh & _ & Et & _).
      rewrite Et, Eh, K1, K2, K3, K4. split; [reflexivity|].
      apply lookup_insert_eq.
    + intros H0. destruct (Hneg H0) as (_ & Eh & _ & Et & _).
      rewrite Et, Eh, K2, K5. auto.
Qed.

Lemma C10_retry_deadline_is_default_timeout_witness :
  exists p',
    fire 1%nat
      (steps [InitiateRequest Examples.request_r1 Examples.conversation_AB
                Examples.options_50;
              Receive Examples.failure_r1 Examples.conversation_AB]
         (new no_options)) = (Return tt, p')
    /\ timers p' !! 2%nat
       = Some {| t_delay := 30000; t_due := 31000;
                 t_callback := HandleTimeout "r1" |}.
Proof.
  destruct (C10_retry_deadline_is_default_timeout no_options
              [InitiateRequest Examples.request_r1 Examples.conversation_AB
                 Examples.options_50;
               Receive Examples.failure_r1 Examples.conversation_AB])
    as (_ & _ & Hr).
  destruct (Hr 1%nat {| t_delay := 1000; t_due := 1000;
                        t_callback := ResumeRetry 0%nat |} 0%nat eq_refl eq_refl)
    as (r & p' & Hh & E & Hpos & _).
  exists p'. split; [exact E|].
  destruct Hpos as [Et _]; [reflexivity|].
  rewrite Et. vm_compute in Hh. injection Hh as <-. reflexivity.
Defined.

(** C10 as stated fails: on a protocol built with [{timeout: -1}] a
    request is initiated with [{timeout: 50}] and no reply comes. The
    first deadline is at 50; the retry it starts ends at 1050 without
    arming a timer, so the loop has nothing left to run: however long it
    runs, the request stays pending with one retry counted and its
    promise is never settled. *)
Lemma C10_counterexample_no_deadline_after_retry :
  defaultTimeout Examples.protocol_negative_50 = -1
  /\ (timers Examples.protocol_negative_50 !! 0%nat
      = Some {| t_delay := 50; t_due := 50; t_callback := HandleTimeout "r1" |})
  /\ (timers <$> run_until 10 1050 Examples.protocol_negative_50) = Some ∅
  /\ ((fun p => pendingRequests p !! "r1")
        <$> run_until 10 1000000 Examples.protocol_negative_50)
     = Some (Some 0%nat)
  /\ ((fun p => pr_retries <$> heap p !! 0%nat)
        <$> run_until 10 1000000 Examples.protocol_negative_50)
     = Some (Some 1)
  /\ ((fun p => last (emitted p)) <$> run_until 10 1050 Examples.protocol_negative_50)
     = Some (Some (requestRetry Examples.request_r1 1))
  /\ (settled <$> run_until 10 1000000 Examples.protocol_negative_50) = Some ∅.
Proof. repeat split; vm_compute; reflexivity. Qed.

End ProtocolDefaults.

Section ProtocolTimers.
Import RequestResponseProtocol.
Local Open Scope Z_scope.

(** *** Timers that do not change *)






(** *** The invariant [base_inv], effect by effect *)






(** *** The timer of each entry, effect by effect *)








(** *** The invariant of the orderly states *)








(** ** C4 *)





(** The case the orderly inputs leave out: a request initiated again under
    an id that is pending replaces the entry and leaves the timer of the
    replaced entry armed, so that two deadline timers act on the one entry
    of the id; the promise of the first call is never settled. *)
Lemma initiateRequest_pending_id_leaves_two_timers :
  size (pendingRequests Examples.protocol_r1_twice) = 1%nat
  /\ pendingRequests Examples.protocol_r1_twice !! "r1" = Some 1%nat
  /\ size (deadline_timers "r1" Examples.protocol_r1_twice) = 2%nat
  /\ ((fun p => (size (timers p), settled p !! 0%nat))
        <$> run_until 100 1000000 Examples.protocol_r1_twice)
     = Some (0%nat, None).
Proof. repeat split; vm_compute; reflexivity. Qed.

End ProtocolTimers.

(** * Properties of the class [Message] *)

Section MessageProperties.
Import MessageClass.

Lemma keep_truthy_id x : x <> Some "" -> keep_truthy x = x.
Proof.
  unfold keep_truthy, truthy_ostr, truthy_str. destruct x as [s|]; [|reflexivity].
  destruct (decide (s = "")) as [-> | _]; [congruence | reflexivity].
Qed.

Lemma keep_truthy_tidy x : keep_truthy x <> Some "".
Proof.
  unfold keep_truthy, truthy_ostr, truthy_str. destruct x as [s|]; [|discriminate].
  destruct (decide (s = "")); [discriminate | congruence].
Qed.

Lemma first_truthy_tidy a b : first_truthy a b <> Some "".
Proof.
  unfold first_truthy. destruct (truthy_ostr a) eqn:E; [|apply keep_truthy_tidy].
  apply truthy_ostr_Some in E as (s & -> & Hs). congruence.
Qed.

Lemma truthy_str_true s : truthy_str s = true <-> s <> "".
Proof. unfold truthy_str. destruct (decide (s = "")); split; congruence. Qed.

Lemma validate_None m :
  validate m = None <->
  msg_performative m <> "" /\ msg_sender m <> ""
  /\ msg_receiver m <> inl "" /\ msg_receiver m <> inr [].
Proof.
  unfold validate, Message_validate, receiver_falsy, receiver_empty_array. simpl.
  destruct (truthy_str (msg_performative m)) eqn:Ep; simpl.
  2:{ split; [discriminate|]. intros (H & _). apply truthy_str_true in H. congruence. }
  destruct (truthy_str (msg_sender m)) eqn:Es; simpl.
  2:{ split; [discriminate|]. intros (_ & H & _). apply truthy_str_true in H.
      congruence. }
  apply truthy_str_true in Ep, Es.
  destruct (msg_receiver m) as [s | l].
  - destruct (truthy_str s) eqn:Er; simpl.
    + apply truthy_str_true in Er. split; [|reflexivity]. intros _.
      repeat split; auto; congruence.
    + split; [discriminate|]. intros (_ & _ & H & _). exfalso.
      assert (s <> "") as H' by congruence. apply truthy_str_true in H'. congruence.
  - destruct (bool_decide (l = [])) eqn:El.
    + apply bool_decide_eq_true in El. split; [discriminate|].
      intros (_ & _ & _ & H). congruence.
    + apply bool_decide_eq_false in El. split; [|reflexivity]. intros _.
      repeat split; auto; congruence.
Qed.

(** What the constructor returns, and when. *)
Lemma Message_new_inr options uuid now m :
  new options uuid now = inr m <->
  validate m = None
  /\ m = {| msg_id := str_or (op_id options) uuid;
            msg_timestamp := num_or (op_timestamp options) now;
            msg_performative := op_performative options;
            msg_sender := op_sender options;
            msg_receiver := op_receiver options;
            msg_content := op_content options;
            msg_conversationId := op_conversationId options;
            msg_contentType := op_contentType options;
            msg_inReplyTo := op_inReplyTo options;
            msg_language := op_language options;
            msg_encoding := op_encoding options;
            msg_ontology := op_ontology options;
            msg_metadata := op_metadata options |}.
Proof.
  unfold new. split.
  - destruct (validate _) eqn:E; [discriminate|]. intros H. injection H as <-. auto.
  - intros [Hv ->]. rewrite Hv. reflexivity.
Qed.

Lemma Message_new_well_formed options uuid now m :
  uuid <> "" -> new options uuid now = inr m -> well_formed m.
Proof.
  intros Hu H. apply Message_new_inr in H as [Hv ->].
  apply validate_None in Hv as (Hp & Hs & Hr1 & Hr2). simpl in *.
  unfold well_formed, getReceivers. simpl.
  split; [apply str_or_nonempty, Hu|]. repeat split; auto.
  destruct (op_receiver options) as [s | l]; [discriminate | congruence].
Qed.

(** The constructor of the full record and that of its core agree. *)
Lemma Message_core_new options uuid now :
  match new options uuid now with
  | inl e => Message_new (core_options options) uuid now = inl e
  | inr m => Message_new (core_options options) uuid now = inr (core m)
  end.
Proof.
  unfold new, Message_new, validate, core, core_options. simpl.
  destruct (Message_validate _); reflexivity.
Qed.

(** X1. Every message that a constructor or factory of the class returns has
    a non-empty identifier, performative and sender, and a receiver that
    is a non-empty string or a non-empty array. *)
Theorem Message_factories_return_well_formed
    (uuid : string) (now : Z) (m : t) :
  uuid <> "" ->
  (forall options, new options uuid now = inr m -> well_formed m)
  /\ (forall m0 content performative options,
        createReply m0 content performative options uuid now = inr m ->
        well_formed m)
  /\ (forall obj, fromObject obj uuid now = inr m -> well_formed m)
  /\ (forall m0, clone m0 uuid now = inr m -> well_formed m)
  /\ (forall sender receiver content options,
        createInform sender receiver content options uuid now = inr m ->
        well_formed m)
  /\ (forall sender receiver content options,
        createRequest sender receiver content options uuid now = inr m ->
        well_formed m)
  /\ (forall sender receiver content inReplyTo options,
        createAgree sender receiver content inReplyTo options uuid now = inr m ->
        well_formed m)
  /\ (forall sender receiver content inReplyTo options,
        createRefuse sender receiver content inReplyTo options uuid now = inr m ->
        well_formed m).
Proof.
  intros Hu.
  do 7 (split; [intros *; apply Message_new_well_formed; exact Hu|]).
  intros *; apply Message_new_well_formed; exact Hu.
Qed.

Lemma Message_factories_return_well_formed_witness :
  well_formed MoreExamples.ping.
Proof.
  destruct (Message_factories_return_well_formed "u" 0 MoreExamples.ping
              ltac:(discriminate)) as [H _].
  apply (H MoreExamples.ping_options). reflexivity.
Defined.

(** X2. [createReply] takes the sender of the reply from its options only:
    called without a truthy [sender] there, it throws and returns no
    message, whatever the message replied to. *)
Theorem createReply_without_sender_throws
    (m : t) (content : JsValue) (performative : option string) (options : Partial)
    (uuid : string) (now : Z) :
  truthy_ostr (pa_sender options) = false ->
  createReply m content performative options uuid now
  = inl (if decide (default "inform" performative = "")
         then PerformativeRequired else SenderRequired).
Proof.
  intros Hs. unfold createReply, new, validate, Message_validate, core. simpl.
  assert (str_or (pa_sender options) "" = "") as ->.
  { unfold str_or. destruct (pa_sender options) as [s|]; [|reflexivity].
    simpl in Hs. rewrite Hs. reflexivity. }
  unfold truthy_str at 1.
  destruct (decide (default "inform" performative = "")); reflexivity.
Qed.

Lemma createReply_without_sender_throws_witness :
  createReply MoreExamples.ping (JStr "pong") None nothing "u" 9 = inl SenderRequired.
Proof.
  exact (createReply_without_sender_throws MoreExamples.ping (JStr "pong") None
           nothing "u" 9 eq_refl).
Defined.

(** X3. A reply made with a sender, to a message with a sender: it is a reply
    to that message, its one receiver is the sender of the message, it is
    in the conversation of the message if that has one, and it has a fresh
    identifier and the time of its creation. *)
Theorem createReply_correlates
    (m : t) (content : JsValue) (performative : option string) (options : Partial)
    (sender : string) (uuid : string) (now : Z) :
  msg_sender m <> "" ->
  pa_sender options = Some sender -> sender <> "" ->
  default "inform" performative <> "" ->
  exists reply,
    createReply m content performative options uuid now = inr reply
    /\ isReplyTo (msg_id m) reply = true
    /\ getReceivers reply = [msg_sender m]
    /\ isReceiverOf (msg_sender m) reply = true
    /\ msg_sender reply = sender
    /\ msg_performative reply = default "inform" performative
    /\ msg_content reply = content
    /\ msg_conversationId reply = keep_truthy (msg_conversationId m)
    /\ msg_id reply = uuid
    /\ msg_timestamp reply = now.
Proof.
  intros Hms Hs Hne Hp. unfold createReply.
  eexists. split.
  - apply Message_new_inr. split; [|reflexivity]. apply validate_None. simpl.
    rewrite Hs. unfold str_or. rewrite (proj2 (truthy_str_true sender) Hne).
    repeat split; auto; congruence.
  - simpl. rewrite Hs. unfold isReplyTo, isReceiverOf, getReceivers, str_or. simpl.
    rewrite (proj2 (truthy_str_true sender) Hne).
    rewrite !bool_decide_eq_true_2;
      first [reflexivity | apply list_elem_of_singleton; reflexivity
            | repeat split].
Qed.

Lemma createReply_correlates_witness :
  exists reply,
    createReply MoreExamples.ping (JStr "pong") (Some "pong") MoreExamples.from_B
      "u" 9 = inr reply
    /\ isReplyTo "p1" reply = true
    /\ getReceivers reply = ["A"]
    /\ msg_conversationId reply = Some "c1".
Proof.
  destruct (createReply_correlates MoreExamples.ping (JStr "pong") (Some "pong")
              MoreExamples.from_B "B" "u" 9)
    as (reply & E & H1 & H2 & _ & _ & _ & _ & H3 & _); try discriminate;
    try reflexivity.
  exists reply. auto.
Defined.

(** X4. [clone] ([fromObject] of [toObject]) of a message the constructor
    accepts returns a message with the same performative, sender, receiver
    and content, in which no optional property is empty; a message that is
    already so, with an identifier and a timestamp, is its own clone, and
    so is every clone. *)
Theorem clone_normalizes
    (m : t) (uuid : string) (now : Z) :
  validate m = None -> uuid <> "" -> now <> 0%Z ->
  exists m',
    clone m uuid now = inr m'
    /\ msg_performative m' = msg_performative m
    /\ msg_sender m' = msg_sender m
    /\ msg_receiver m' = msg_receiver m
    /\ msg_content m' = msg_content m
    /\ (msg_id m <> "" -> msg_id m' = msg_id m)
    /\ (msg_timestamp m <> 0%Z -> msg_timestamp m' = msg_timestamp m)
    /\ tidy m'
    /\ (msg_id m <> "" -> tidy m -> m' = m)
    /\ (forall uuid' now', clone m' uuid' now' = inr m').
Proof.
  intros Hv Hu Hn.
  assert (forall x : t, validate x = None -> msg_id x <> "" -> tidy x ->
            forall u n, clone x u n = inr x) as Hfix.
  { intros x Hx Hid (Ht & H1 & H2 & H3 & H4 & H5 & H6 & H7) u n.
    unfold clone, fromObject. apply Message_new_inr. split; [exact Hx|].
    destruct x; simpl in *.
    rewrite !keep_truthy_id
      by first [assumption | apply keep_truthy_tidy | congruence].
    unfold str_or, truthy_str. destruct (decide (msg_id0 = "")); [contradiction|].
    rewrite (bool_decide_eq_false_2 _ Ht). unfold num_or.
    destruct (decide (msg_timestamp0 = 0%Z)); [contradiction|].
    destruct msg_metadata0 as [md|]; [|reflexivity].
    destruct (bool_decide (md = ∅)) eqn:E; [|reflexivity].
    apply bool_decide_eq_true in E. congruence. }
  unfold clone at 1, fromObject.
  eexists. split; [apply Message_new_inr; split; [|reflexivity]|].
  { apply validate_None in Hv. apply validate_None. simpl. exact Hv. }
  simpl. split; [reflexivity|]. split; [reflexivity|]. split; [reflexivity|].
  split; [reflexivity|].
  assert (forall s, s <> "" -> str_or (keep_truthy (Some s)) uuid = s) as Hid.
  { intros s Hs. rewrite keep_truthy_id by congruence. simpl.
    rewrite (proj2 (truthy_str_true s) Hs). reflexivity. }
  assert (forall z, z <> 0%Z ->
            num_or (if bool_decide (z = 0%Z) then None else Some z) now = z) as Hts.
  { intros z Hz. rewrite (bool_decide_eq_false_2 _ Hz). unfold num_or.
    destruct (decide (z = 0%Z)); [contradiction | reflexivity]. }
  split; [exact (Hid _)|]. split; [exact (Hts _)|].
  assert (tidy
    {| msg_id := str_or (keep_truthy (Some (msg_id m))) uuid;
       msg_conversationId := keep_truthy (keep_truthy (msg_conversationId m));
       msg_performative := msg_performative m;
       msg_sender := msg_sender m;
       msg_receiver := msg_receiver m;
       msg_content := msg_content m;
       msg_contentType := keep_truthy (keep_truthy (msg_contentType m));
       msg_timestamp :=
         num_or (if bool_decide (msg_timestamp m = 0%Z) then None
                 else Some (msg_timestamp m)) now;
       msg_inReplyTo := keep_truthy (keep_truthy (msg_inReplyTo m));
       msg_language := keep_truthy (keep_truthy (msg_language m));
       msg_encoding := keep_truthy (keep_truthy (msg_encoding m));
       msg_ontology := keep_truthy (keep_truthy (msg_ontology m));
       msg_metadata :=
         match msg_metadata m with
         | Some md => if bool_decide (md = ∅) then None else Some md
         | None => None
         end |}) as Htidy.
  { unfold tidy. simpl. repeat split; try apply keep_truthy_tidy.
    - destruct (bool_decide (msg_timestamp m = 0%Z)) eqn:E; simpl; [exact Hn|].
      apply bool_decide_eq_false in E. unfold num_or.
      destruct (decide (msg_timestamp m = 0%Z)); auto.
    - destruct (msg_metadata m) as [md|]; [|discriminate].
      destruct (bool_decide (md = ∅)) eqn:E; [discriminate|].
      apply bool_decide_eq_false in E. congruence. }
  split; [exact Htidy|]. split.
  - intros Hi (Ht & H1 & H2 & H3 & H4 & H5 & H6 & H7).
    destruct m; simpl in *. rewrite Hid, Hts by auto.
    rewrite !keep_truthy_id
      by first [assumption | apply keep_truthy_tidy | congruence].
    destruct msg_metadata0 as [md|]; [|reflexivity].
    destruct (bool_decide (md = ∅)) eqn:E; [|reflexivity].
    apply bool_decide_eq_true in E. congruence.
  - apply Hfix; [| |exact Htidy].
    + apply validate_None in Hv. apply validate_None. exact Hv.
    + simpl. destruct (decide (msg_id m = "")) as [E | E].
      * rewrite E. exact Hu.
      * rewrite Hid by exact E. exact E.
Qed.

Lemma clone_normalizes_witness :
  exists m',
    clone MoreExamples.ping "u" 9 = inr m'
    /\ msg_id m' = "p1"
    /\ msg_timestamp m' = 3%Z
    /\ msg_language m' = None
    /\ clone m' "v" 10 = inr m'.
Proof.
  destruct (clone_normalizes MoreExamples.ping "u" 9)
    as (m' & E & _ & _ & _ & _ & Hid & Hts & Htidy & _ & Hfix);
    try discriminate; try reflexivity.
  exists m'. split; [exact E|]. split; [apply Hid; discriminate|].
  split; [apply Hts; discriminate|]. split; [|apply Hfix].
  injection E as <-. reflexivity.
Defined.

End MessageProperties.

(** * Further properties of [Conversation] *)

Section ConversationHistory.
Import Conversation.

Lemma not_terminal_rank c : isTerminal c = false -> rank (c_state c) < 3.
Proof.
  unfold isTerminal. intros H. apply bool_decide_eq_false in H.
  rewrite !elem_of_cons, elem_of_nil in H.
  destruct (c_state c); simpl; try lia; exfalso; tauto.
Qed.

(** What a call does to the state, the timer and the events: it leaves
    the state and the timer as they are and emits at most one event, which
    is not about the state, or it moves the state forward, clears the
    timer and emits the two events of [transitionTo]. *)
Lemma call_effect op now c :
  (c_state (state_of (call op now c)) = c_state c
   /\ c_timeoutHandle (state_of (call op now c)) = c_timeoutHandle c
   /\ (c_emitted (state_of (call op now c)) = c_emitted c
       \/ exists e,
            c_emitted (state_of (call op now c)) = c_emitted c ++ [e]
            /\ observe (Some (c_state c, false)) e = Some (c_state c, false)))
  \/ (rank (c_state c) < rank (c_state (state_of (call op now c)))
      /\ c_timeoutHandle (state_of (call op now c)) = None
      /\ c_emitted (state_of (call op now c))
         = c_emitted c ++ [stateChanged (c_state (state_of (call op now c))) (c_state c);
                           entered (c_state (state_of (call op now c)))]).
Proof.
  assert (forall c0 newState,
            exists c1,
              transitionTo newState now c0 = (Return tt, c1)
              /\ c_state c1 = newState
              /\ c_timeoutHandle c1 = None
              /\ c_emitted c1
                 = c_emitted c0 ++ [stateChanged newState (c_state c0); entered newState])
    as Htr.
  { intros c0 newState. js_unfold. simpl.
    destruct (c_timeoutHandle c0) eqn:E; simpl; eexists;
      (split; [reflexivity|]); simpl; rewrite <- app_assoc; auto. }
  destruct op.
  - unfold call, activate, bind, get, throw_if.
    destruct (bool_decide (c_state c = initiated)) eqn:E; with_strategy opaque [transitionTo] simpl.
    + apply bool_decide_eq_true in E. right.
      destruct (Htr c active) as (c1 & -> & H1 & H2 & H3).
      unfold state_of. simpl. rewrite H1, H2, H3, E. simpl. split; [lia|]. auto.
    + left. unfold state_of. simpl. auto.
  - unfold call, setWaiting, bind, get, throw_if, isActive.
    destruct (bool_decide (c_state c = active)) eqn:E; with_strategy opaque [transitionTo] simpl.
    + apply bool_decide_eq_true in E. right.
      destruct (Htr c waiting) as (c1 & -> & H1 & H2 & H3).
      unfold state_of. simpl. rewrite H1, H2, H3, E. simpl. split; [lia|]. auto.
    + left. unfold state_of. simpl. auto.
  - unfold call, complete, bind, get, throw_if, modify.
    destruct (isTerminal c) eqn:E; with_strategy opaque [transitionTo] simpl.
    + left. unfold state_of. simpl. auto.
    + right. apply not_terminal_rank in E.
      destruct (Htr (set_result result c) completed) as (c1 & -> & H1 & H2 & H3).
      unfold state_of. simpl. rewrite H1, H2, H3. simpl. split; [lia|]. auto.
  - unfold call, fail, bind, get, throw_if, modify.
    destruct (isTerminal c) eqn:E; with_strategy opaque [transitionTo] simpl.
    + left. unfold state_of. simpl. auto.
    + right. apply not_terminal_rank in E.
      destruct (Htr (set_error (Some error) c) failed) as (c1 & -> & H1 & H2 & H3).
      unfold state_of. simpl. rewrite H1, H2, H3. simpl. split; [lia|]. auto.
  - unfold call, cancel, bind, get, throw_if, modify, when.
    destruct (isTerminal c) eqn:E; with_strategy opaque [transitionTo] simpl.
    + left. unfold state_of. simpl. auto.
    + right. apply not_terminal_rank in E.
      destruct (truthy_ostr reason); with_strategy opaque [transitionTo] simpl.
      * destruct (Htr (set_metadata
                         (<["cancellationReason" := JStr (default "" reason)]>
                            (c_metadata c)) c) cancelled)
          as (c1 & -> & H1 & H2 & H3).
        unfold state_of. simpl. rewrite H1, H2, H3. simpl. split; [lia|]. auto.
      * destruct (Htr c cancelled) as (c1 & -> & H1 & H2 & H3).
        unfold state_of. simpl. rewrite H1, H2, H3. simpl. split; [lia|]. auto.
  - left. js_unfold. simpl.
    destruct (match m_conversationId message with Some _ => _ | None => _ end);
      simpl; auto.
    destruct (_ && _); simpl; auto.
    split; [reflexivity|]. split; [reflexivity|]. right. eexists. split; reflexivity.
  - left. js_unfold. simpl. destruct (negb _); simpl; auto.
    split; [reflexivity|]. split; [reflexivity|]. right. eexists. split; reflexivity.
  - left. js_unfold. simpl.
    destruct (bool_decide (agentId = _)); simpl; auto.
    destruct (bool_decide (agentId ∈ _)); simpl; auto.
    split; [reflexivity|]. split; [reflexivity|]. right. eexists. split; reflexivity.
  - left. js_unfold. simpl. auto.
  - unfold call, handleTimeout, bind, get, when.
    destruct (bool_decide (is_Some (c_timeoutHandle c)));
      with_strategy opaque [transitionTo] simpl;
      [|left; unfold state_of, ret; simpl; auto].
    destruct (isTerminal c) eqn:E; with_strategy opaque [transitionTo] simpl;
      [left; unfold state_of, ret; simpl; auto|].
    right. apply not_terminal_rank in E.
    destruct (Htr c timeout) as (c1 & -> & H1 & H2 & H3).
    unfold state_of. simpl. rewrite H1, H2, H3. simpl. split; [lia|]. auto.
Qed.

Lemma call_forward op now c :
  c_state (state_of (call op now c)) = c_state c
  \/ rank (c_state c) < rank (c_state (state_of (call op now c))).
Proof.
  destruct (call_effect op now c) as [(H & _) | (H & _)]; auto.
Qed.

(** X6. The lifecycle has no way back: after any calls the conversation is
    in the state it was in or in one further along
    (initiated, active, waiting, then the four terminal states). *)
Theorem Conversation_state_never_goes_back (ops : list (Call * Z)) (c : t) :
  c_state (calls ops c) = c_state c
  \/ rank (c_state c) < rank (c_state (calls ops c)).
Proof.
  revert c. induction ops as [|[op now] ops IH]; intros c; simpl; [auto|].
  destruct (IH (state_of (call op now c))) as [E | Hlt];
    destruct (call_forward op now c) as [E' | Hlt']; try rewrite E; auto.
  - right. rewrite <- E'. exact Hlt.
  - right. lia.
Qed.

Lemma new_initial options uuid now c :
  new options uuid now = Return c ->
  c_state c = initiated
  /\ c_emitted c = []
  /\ c_timeoutHandle c
     = (if truthy_onum (o_timeout options) then o_timeout options else None)
  /\ c_timeout c = o_timeout options
  /\ c_created c = now
  /\ c_updated c = now
  /\ c_messageIndex c = ∅
  /\ c_result c = JUndefined
  /\ c_error c = None
  /\ c_protocol c = o_protocol options.
Proof.
  unfold new. intros H.
  destruct (negb (truthy_str (o_initiator options))); [discriminate|].
  destruct (bool_decide (length (o_participants options) = 0)); [discriminate|].
  destruct (truthy_onum (o_timeout options) && _); [discriminate|].
  destruct (truthy_onum (o_maxMessages options) && _); [discriminate|].
  injection H as <-. unfold state_of, setupTimeout, modify. simpl.
  destruct (truthy_onum (o_timeout options)); simpl; repeat split.
Qed.

Lemma follow_snoc events e :
  follow (events ++ [e]) = observe (follow events) e.
Proof. unfold follow. rewrite foldl_app. reflexivity. Qed.

Lemma call_follow op now c :
  follow (c_emitted c) = Some (c_state c, false) ->
  follow (c_emitted (state_of (call op now c)))
  = Some (c_state (state_of (call op now c)), false).
Proof.
  intros H.
  destruct (call_effect op now c) as [(E1 & _ & [E2 | (e & E2 & He)]) | (_ & _ & E2)];
    rewrite E2.
  - rewrite E1. exact H.
  - rewrite follow_snoc, H, E1. exact He.
  - replace (c_emitted c ++ [stateChanged (c_state (state_of (call op now c))) (c_state c);
                             entered (c_state (state_of (call op now c)))])
      with ((c_emitted c ++ [stateChanged (c_state (state_of (call op now c))) (c_state c)])
              ++ [entered (c_state (state_of (call op now c)))])
      by (rewrite <- app_assoc; reflexivity).
    rewrite !follow_snoc, H. simpl.
    destruct (decide (c_state c = c_state c)); [|contradiction]. simpl.
    destruct (decide (_ = _)); [reflexivity | contradiction].
Qed.

(** X7. The events tell the state. In the events of a conversation built by
    the constructor, every ['stateChanged'] names as old state the state
    the one before it named as new (the first names [initiated]), is
    followed at once by the event named after its new state, and the last
    new state is the state of the conversation. *)
Theorem Conversation_events_tell_the_state
    (options : ConversationOptions) (uuid : string) (now : Z) (c : t)
    (ops : list (Call * Z)) :
  new options uuid now = Return c ->
  follow (c_emitted (calls ops c)) = Some (c_state (calls ops c), false).
Proof.
  intros Hnew.
  assert (follow (c_emitted c) = Some (c_state c, false)) as H.
  { destruct (new_initial _ _ _ _ Hnew) as (-> & -> & _). reflexivity. }
  clear Hnew. revert c H.
  induction ops as [|[op t0] ops IH]; intros c H; simpl; [exact H|].
  apply IH, call_follow, H.
Qed.

Lemma Conversation_events_tell_the_state_witness :
  follow (c_emitted (calls [(Activate, 1%Z); (AddMessage Examples.request_r1, 2%Z);
                            (SetWaiting, 3%Z); (Complete JNull, 4%Z);
                            (Activate, 5%Z)] Examples.conversation_AB))
  = Some (completed, false).
Proof.
  exact (Conversation_events_tell_the_state Examples.options_AB "u" 0
           Examples.conversation_AB
           [(Activate, 1%Z); (AddMessage Examples.request_r1, 2%Z);
            (SetWaiting, 3%Z); (Complete JNull, 4%Z); (Activate, 5%Z)] eq_refl).
Defined.

End ConversationHistory.

Section ConversationDeadline.
Import Conversation.

Lemma call_timer op now c (h0 : option Z) :
  (c_state c = initiated /\ c_timeoutHandle c = h0)
  \/ (c_state c <> initiated /\ c_timeoutHandle c = None) ->
  (c_state (state_of (call op now c)) = initiated
   /\ c_timeoutHandle (state_of (call op now c)) = h0)
  \/ (c_state (state_of (call op now c)) <> initiated
      /\ c_timeoutHandle (state_of (call op now c)) = None).
Proof.
  intros H.
  destruct (call_effect op now c) as [(E1 & E2 & _) | (Hlt & E2 & _)].
  - rewrite E1, E2. exact H.
  - right. split; [|exact E2]. intros E. rewrite E in Hlt. simpl in Hlt. lia.
Qed.

Lemma calls_timer ops : forall c (h0 : option Z),
  (c_state c = initiated /\ c_timeoutHandle c = h0)
  \/ (c_state c <> initiated /\ c_timeoutHandle c = None) ->
  (c_state (calls ops c) = initiated /\ c_timeoutHandle (calls ops c) = h0)
  \/ (c_state (calls ops c) <> initiated /\ c_timeoutHandle (calls ops c) = None).
Proof.
  induction ops as [|[op now] ops IH]; intros c h0 H; simpl; [exact H|].
  apply IH, call_timer, H.
Qed.

(** X8. The deadline of a conversation runs only while it is [initiated].
    After any calls on a conversation built by the constructor: if it is
    still [initiated], its timer is armed as the constructor armed it
    (with the timeout, if that is not zero), and when the timer fires the
    state becomes [timeout]; if it has left [initiated] (it was activated,
    say), no timer is armed and the firing of the timer changes nothing. *)
Theorem Conversation_deadline_runs_only_while_initiated
    (options : ConversationOptions) (uuid : string) (now : Z) (c : t)
    (ops : list (Call * Z)) (later : Z) :
  new options uuid now = Return c ->
  (c_state (calls ops c) = initiated ->
     c_timeoutHandle (calls ops c)
     = (if truthy_onum (o_timeout options) then o_timeout options else None)
     /\ c_state (state_of (call TimerFires later (calls ops c)))
        = (if truthy_onum (o_timeout options) then timeout else initiated))
  /\ (c_state (calls ops c) <> initiated ->
        c_timeoutHandle (calls ops c) = None
        /\ call TimerFires later (calls ops c) = (Return tt, calls ops c)).
Proof.
  intros Hnew.
  destruct (new_initial _ _ _ _ Hnew) as (Hst & _ & Hh & _).
  destruct (calls_timer ops c _ (or_introl (conj Hst Hh))) as [[E1 E2] | [E1 E2]].
  - split; [|contradiction]. intros _. split; [exact E2|].
    unfold call, bind, get, when. rewrite E2.
    destruct (truthy_onum (o_timeout options)) eqn:Et.
    + destruct (o_timeout options) as [d|]; [|discriminate].
      rewrite bool_decide_eq_true_2 by eauto.
      unfold handleTimeout, bind, get, when, isTerminal. rewrite E1. simpl.
      js_unfold. simpl. rewrite E2. reflexivity.
    + rewrite bool_decide_eq_false_2 by (intros [? ?]; discriminate).
      unfold state_of, ret. simpl. exact E1.
  - split; [contradiction|]. intros _. split; [exact E2|].
    unfold call, bind, get, when. rewrite E2.
    rewrite bool_decide_eq_false_2 by (intros [? ?]; discriminate). reflexivity.
Qed.

Lemma Conversation_deadline_runs_only_while_initiated_witness :
  c_state (state_of (call TimerFires 100
                       (calls [(AddParticipant "C", 10%Z)]
                          MoreExamples.conversation_timeout_100))) = timeout
  /\ call TimerFires 100
       (calls [(Activate, 10%Z)] MoreExamples.conversation_timeout_100)
     = (Return tt, calls [(Activate, 10%Z)] MoreExamples.conversation_timeout_100).
Proof.
  split.
  - apply (Conversation_deadline_runs_only_while_initiated
             MoreExamples.options_timeout_100 "u" 0
             MoreExamples.conversation_timeout_100
             [(AddParticipant "C", 10%Z)] 100 eq_refl).
    reflexivity.
  - apply (Conversation_deadline_runs_only_while_initiated
             MoreExamples.options_timeout_100 "u" 0
             MoreExamples.conversation_timeout_100
             [(Activate, 10%Z)] 100 eq_refl).
    discriminate.
Defined.

(** X9. The constructor returns a conversation exactly for the options with
    a non-empty initiator, a non-empty participant list, and a timeout and
    a maximum of messages that are absent or not negative: zero passes
    both tests. *)
Theorem Conversation_new_accepts
    (options : ConversationOptions) (uuid : string) (now : Z) :
  (exists c, new options uuid now = Return c) <-> valid_options options.
Proof.
  unfold new, valid_options, truthy_str, truthy_onum.
  destruct (decide (o_initiator options = "")) as [Ei | Ei]; simpl.
  { split; [intros [c H]; discriminate | intros (H & _); contradiction]. }
  destruct (bool_decide (length (o_participants options) = 0)) eqn:Ep.
  { apply bool_decide_eq_true in Ep. apply length_zero_iff_nil in Ep.
    split; [intros [c H]; discriminate | intros (_ & H & _); contradiction]. }
  apply bool_decide_eq_false in Ep.
  assert (o_participants options <> []) as Hp.
  { intros E. apply Ep. rewrite E. reflexivity. }
  destruct (o_timeout options) as [d|] eqn:Et; simpl.
  - destruct (decide (d = 0%Z)) as [-> | Hd]; simpl.
    + destruct (o_maxMessages options) as [n|] eqn:Em; simpl.
      * destruct (decide (n = 0%Z)) as [-> | Hn]; simpl.
        -- split; [|eauto]. intros _. repeat split; auto; intros ? [= <-]; lia.
        -- destruct (bool_decide (n ≤ 0)%Z) eqn:El.
           ++ apply bool_decide_eq_true in El.
              split; [intros [c H]; discriminate|].
              intros (_ & _ & _ & H). specialize (H n eq_refl). lia.
           ++ apply bool_decide_eq_false in El. split; [|eauto]. intros _.
              repeat split; auto; intros ? [= <-]; lia.
      * split; [|eauto]. intros _. repeat split; auto; try discriminate.
        intros ? [= <-]; lia.
    + destruct (bool_decide (d ≤ 0)%Z) eqn:El.
      * apply bool_decide_eq_true in El.
        split; [intros [c H]; discriminate|].
        intros (_ & _ & H & _). specialize (H d eq_refl). lia.
      * apply bool_decide_eq_false in El.
        destruct (o_maxMessages options) as [n|] eqn:Em; simpl.
        -- destruct (decide (n = 0%Z)) as [-> | Hn]; simpl.
           ++ split; [|eauto]. intros _. repeat split; auto; intros ? [= <-]; lia.
           ++ destruct (bool_decide (n ≤ 0)%Z) eqn:El'.
              ** apply bool_decide_eq_true in El'.
                 split; [intros [c H]; discriminate|].
                 intros (_ & _ & _ & H). specialize (H n eq_refl). lia.
              ** apply bool_decide_eq_false in El'. split; [|eauto]. intros _.
                 repeat split; auto; intros ? [= <-]; lia.
        -- split; [|eauto]. intros _. repeat split; auto; try discriminate.
           intros ? [= <-]; lia.
  - destruct (o_maxMessages options) as [n|] eqn:Em; simpl.
    + destruct (decide (n = 0%Z)) as [-> | Hn]; simpl.
      * split; [|eauto]. intros _. repeat split; auto; try discriminate.
        intros ? [= <-]; lia.
      * destruct (bool_decide (n ≤ 0)%Z) eqn:El.
        -- apply bool_decide_eq_true in El.
           split; [intros [c H]; discriminate|].
           intros (_ & _ & _ & H). specialize (H n eq_refl). lia.
        -- apply bool_decide_eq_false in El. split; [|eauto]. intros _.
           repeat split; auto; try discriminate. intros ? [= <-]; lia.
    + split; [|eauto]. intros _. repeat split; auto; discriminate.
Qed.

Lemma Conversation_new_accepts_witness :
  valid_options MoreExamples.options_max0.
Proof.
  apply (Conversation_new_accepts MoreExamples.options_max0 "u" 0).
  eexists. reflexivity.
Defined.

End ConversationDeadline.

Section ConversationMessages.
Import Conversation.

(** A call leaves the log and its index as they are, or it is an
    [addMessage] that returns and extends both. *)
Lemma call_log op now c :
  (c_messages (state_of (call op now c)) = c_messages c
   /\ c_messageIndex (state_of (call op now c)) = c_messageIndex c)
  \/ (exists message,
        c_messages (state_of (call op now c)) = c_messages c ++ [message]
        /\ c_messageIndex (state_of (call op now c))
           = <[m_id message := message]> (c_messageIndex c)).
Proof.
  destruct op; js_unfold; simpl.
  - destruct (negb _); simpl; auto. destruct (c_timeoutHandle c); simpl; auto.
  - destruct (negb _); simpl; auto. destruct (c_timeoutHandle c); simpl; auto.
  - destruct (isTerminal c); simpl; auto. destruct (c_timeoutHandle c); simpl; auto.
  - destruct (isTerminal c); simpl; auto. destruct (c_timeoutHandle c); simpl; auto.
  - destruct (isTerminal c); simpl; auto.
    destruct (truthy_ostr reason); simpl; destruct (c_timeoutHandle c); simpl; auto.
  - destruct (match m_conversationId message with Some _ => _ | None => _ end);
      simpl; auto.
    destruct (_ && _); simpl; auto. right. eexists. split; reflexivity.
  - destruct (negb _); simpl; auto.
  - destruct (bool_decide (agentId = _)); simpl; auto.
    destruct (bool_decide (agentId ∈ _)); simpl; auto.
  - auto.
  - destruct (bool_decide (is_Some _)); simpl; auto.
    destruct (negb _); simpl; auto. destruct (c_timeoutHandle c); simpl; auto.
Qed.

Lemma last_filter_snoc (P : Message -> Prop) `{!forall m, Decision (P m)}
    (l : list Message) (message : Message) :
  last (filter P (l ++ [message]))
  = if decide (P message) then Some message else last (filter P l).
Proof.
  rewrite filter_app. simpl. unfold filter at 2. simpl.
  destruct (decide (P message)).
  - simpl. apply last_snoc.
  - simpl. rewrite app_nil_r. reflexivity.
Qed.

Lemma call_index op now c :
  (forall messageId, getMessage messageId c = last (logged_as messageId c)) ->
  forall messageId,
    getMessage messageId (state_of (call op now c))
    = last (logged_as messageId (state_of (call op now c))).
Proof.
  intros H messageId. unfold getMessage, logged_as in *.
  destruct (call_log op now c) as [[E1 E2] | (message & E1 & E2)]; rewrite E1, E2.
  - apply H.
  - rewrite last_filter_snoc.
    destruct (decide (m_id message = messageId)) as [<- | Hne].
    + apply lookup_insert_eq.
    + rewrite lookup_insert_ne by exact Hne. apply H.
Qed.

(** X10. The index agrees with the log: [getMessage] (and [findMessage])
    returns the last message of the log with the id asked for, and
    nothing when the log has none; every message it returns is in the log
    under that id, and every message of the log has its id in the index. *)
Theorem Conversation_index_agrees_with_log (c : t) (messageId : string) :
  reachable c ->
  getMessage messageId c = last (logged_as messageId c)
  /\ findMessage messageId c = getMessage messageId c
  /\ (forall message,
        getMessage messageId c = Some message ->
        message ∈ getMessages c /\ m_id message = messageId)
  /\ (forall message,
        message ∈ getMessages c -> is_Some (getMessage (m_id message) c)).
Proof.
  intros Hr.
  assert (forall messageId, getMessage messageId c = last (logged_as messageId c))
    as H.
  { clear messageId.
    induction Hr as [options uuid now c Hu Hnew
                    | context options uuid now c Hu Hfrom
                    | op now c _ IH].
    - destruct (new_fields _ _ _ _ Hnew) as (_ & _ & _ & _ & Hlog & _).
      destruct (new_initial _ _ _ _ Hnew) as (_ & _ & _ & _ & _ & _ & Hix & _).
      intros messageId. unfold getMessage, logged_as. rewrite Hlog, Hix.
      apply lookup_empty.
    - destruct (fromContext_new _ _ _ _ _ Hfrom) as (first & rest & c0 & _ & Hnew & ->).
      destruct (new_fields _ _ _ _ Hnew) as (_ & _ & _ & _ & Hlog & _).
      destruct (new_initial _ _ _ _ Hnew) as (_ & _ & _ & _ & _ & _ & Hix & _).
      intros messageId. unfold getMessage, logged_as. simpl. rewrite Hlog, Hix.
      apply lookup_empty.
    - apply call_index, IH. }
  split; [apply H|]. split; [reflexivity|]. split.
  - intros message Hm. rewrite H in Hm. unfold logged_as, getMessages in *.
    apply last_Some in Hm as [l' Hm].
    assert (message ∈ filter (fun msg => m_id msg = messageId) (c_messages c)) as Hin.
    { rewrite Hm. apply elem_of_app. right. apply list_elem_of_singleton. reflexivity. }
    apply list_elem_of_filter in Hin. tauto.
  - intros message Hin. rewrite H. unfold logged_as, getMessages in *.
    apply last_is_Some. intros E.
    assert (message ∈ filter (fun msg => m_id msg = m_id message) (c_messages c))
      as Hin' by (apply list_elem_of_filter; auto).
    rewrite E in Hin'. apply elem_of_nil in Hin'. exact Hin'.
Qed.

Lemma Conversation_index_agrees_with_log_witness :
  getMessage "n1"
    (calls [(AddMessage (MoreExamples.note "n1" "A"), 1%Z);
            (AddMessage (MoreExamples.note "n1" "B"), 2%Z)]
       MoreExamples.conversation_max0)
  = Some (MoreExamples.note "n1" "B").
Proof.
  destruct (Conversation_index_agrees_with_log
              (calls [(AddMessage (MoreExamples.note "n1" "A"), 1%Z);
                      (AddMessage (MoreExamples.note "n1" "B"), 2%Z)]
                 MoreExamples.conversation_max0) "n1") as [H _].
  - apply (reachable_call (AddMessage (MoreExamples.note "n1" "B")) 2
             (state_of (call (AddMessage (MoreExamples.note "n1" "A")) 1
                          MoreExamples.conversation_max0))).
    apply (reachable_call (AddMessage (MoreExamples.note "n1" "A")) 1
             MoreExamples.conversation_max0).
    apply (reachable_new MoreExamples.options_max0 "u" 0); [discriminate|reflexivity].
  - rewrite H. reflexivity.
Defined.

(** X11. A maximum of messages of zero is no maximum: a conversation with
    [maxMessages] zero or absent takes any number of messages that declare
    no other conversation id. *)
Theorem Conversation_maxMessages_zero_is_no_limit
    (c : t) (ms : list (Message * Z)) :
  c_maxMessages c = None \/ c_maxMessages c = Some 0%Z ->
  Forall (fun x => compatible c x.1) ms ->
  outcomes (appends ms) c = replicate (length ms) (Return tt)
  /\ getMessages (calls (appends ms) c) = getMessages c ++ ms.*1
  /\ getMessageCount (calls (appends ms) c) = getMessageCount c + length ms.
Proof.
  intros Hmax Hall.
  assert (outcomes (appends ms) c = replicate (length ms) (Return tt)
          /\ c_messages (calls (appends ms) c) = c_messages c ++ ms.*1) as [H1 H2].
  { revert c Hmax Hall.
    induction ms as [|[message now] ms IH]; intros c Hmax Hall; simpl.
    - rewrite app_nil_r. auto.
    - apply Forall_cons in Hall as [Hc Hall]. simpl in Hc.
      destruct (addMessage_appends c message now Hc)
        as (c' & H & Hm & _ & _ & _ & _ & _ & Hid & Hmax').
      { unfold below_capacity. destruct Hmax as [-> | ->]; auto. }
      unfold state_of, outcome_of. rewrite H. simpl.
      destruct (IH c') as (Ho & Hms).
      + rewrite Hmax'. exact Hmax.
      + eapply Forall_impl; [exact Hall|]. intros x. apply compatible_id, Hid.
      + rewrite Ho, Hms, Hm, <- app_assoc. auto. }
  unfold getMessages, getMessageCount. rewrite H2, length_app, length_fmap. auto.
Qed.

Lemma Conversation_maxMessages_zero_is_no_limit_witness :
  getMessageCount
    (calls (appends [(MoreExamples.note "n1" "A", 1%Z);
                     (MoreExamples.note "n2" "B", 2%Z);
                     (MoreExamples.note "n3" "A", 3%Z)])
       MoreExamples.conversation_max0) = 3.
Proof.
  destruct (Conversation_maxMessages_zero_is_no_limit MoreExamples.conversation_max0
              [(MoreExamples.note "n1" "A", 1%Z); (MoreExamples.note "n2" "B", 2%Z);
               (MoreExamples.note "n3" "A", 3%Z)]) as (_ & _ & H).
  - right. reflexivity.
  - repeat (constructor; [right; reflexivity|]). constructor.
  - exact H.
Defined.

(** X12. What the queries return after an [addMessage] that returned: the
    message is the last one and the one found under its id, the count is
    one more, the messages of its sender and of its performative end with
    it, and the answers for other ids, senders and performatives are as
    before. *)
Theorem Conversation_addMessage_then_queries
    (c c' : t) (message : Message) (now : Z) :
  addMessage message now c = (Return tt, c') ->
  getLastMessage c' = Some message
  /\ getMessage (m_id message) c' = Some message
  /\ getMessageCount c' = S (getMessageCount c)
  /\ getMessages c' = getMessages c ++ [message]
  /\ (forall messageId,
        messageId <> m_id message -> getMessage messageId c' = getMessage messageId c)
  /\ (forall sender,
        getMessagesFrom sender c'
        = getMessagesFrom sender c
          ++ (if decide (m_sender message = sender) then [message] else []))
  /\ (forall performative,
        getMessagesByPerformative performative c'
        = getMessagesByPerformative performative c
          ++ (if decide (m_performative message = performative)
              then [message] else [])).
Proof.
  intros H.
  assert (c_messages c' = c_messages c ++ [message]
          /\ c_messageIndex c' = <[m_id message := message]> (c_messageIndex c))
    as [Hm Hi].
  { revert H. js_unfold.
    destruct (match m_conversationId message with Some _ => _ | None => _ end);
      simpl; [discriminate|].
    destruct (_ && _); simpl; [discriminate|].
    intros [= <-]. simpl. auto. }
  unfold getLastMessage, getMessage, getMessageCount, getMessages, getMessagesFrom,
    getMessagesByPerformative.
  rewrite Hm, Hi. split; [apply last_snoc|]. split; [apply lookup_insert_eq|].
  split; [rewrite length_app; simpl; lia|]. split; [reflexivity|].
  split; [intros messageId Hne; apply lookup_insert_ne; congruence|].
  split; intros x; rewrite filter_app; f_equal.
Qed.

Lemma Conversation_addMessage_then_queries_witness :
  getLastMessage
    (state_of (addMessage (MoreExamples.note "n1" "B") 1 MoreExamples.conversation_max0))
  = Some (MoreExamples.note "n1" "B").
Proof.
  apply (Conversation_addMessage_then_queries MoreExamples.conversation_max0
           (state_of (addMessage (MoreExamples.note "n1" "B") 1
                        MoreExamples.conversation_max0))
           (MoreExamples.note "n1" "B") 1 eq_refl).
Defined.

End ConversationMessages.

Section ConversationEnd.
Import Conversation.

Lemma transitionTo_ended st now c :
  st ∈ [completed; failed; cancelled; timeout] ->
  exists c',
    transitionTo st now c = (Return tt, c')
    /\ ended st now c c'
    /\ c_result c' = c_result c /\ c_error c' = c_error c
    /\ c_metadata c' = c_metadata c.
Proof.
  intros Hst. js_unfold. simpl. unfold ended, isTerminal.
  destruct (c_timeoutHandle c) eqn:E; simpl; eexists;
    (split; [reflexivity|]); simpl; rewrite <- app_assoc, ?E;
    rewrite bool_decide_eq_true_2 by exact Hst; repeat split.
Qed.

(** X13. [complete], [fail] and [cancel] return from every state that is not
    terminal, [initiated] included, and end the conversation: the result,
    the error or the reason (if it is not empty) is recorded, the last
    under the key [cancellationReason] of the metadata, and the
    conversation answers the matching query. *)
Theorem Conversation_ending_calls (c : t) (now : Z) :
  isTerminal c = false ->
  (forall result,
     exists c',
       complete result now c = (Return tt, c')
       /\ ended completed now c c'
       /\ isCompleted c' = true
       /\ c_result c' = result)
  /\ (forall error,
        exists c',
          fail error now c = (Return tt, c')
          /\ ended failed now c c'
          /\ isFailed c' = true
          /\ c_error c' = Some error)
  /\ (forall reason,
        exists c',
          cancel reason now c = (Return tt, c')
          /\ ended cancelled now c c'
          /\ isCancelled c' = true
          /\ getMetadata "cancellationReason" c'
             = (if truthy_ostr reason then JStr (default "" reason)
                else getMetadata "cancellationReason" c)).
Proof.
  intros Ht. split; [|split].
  - intros result. unfold complete, bind, get, throw_if, modify. rewrite Ht.
    with_strategy opaque [transitionTo] simpl.
    destruct (transitionTo_ended completed now (set_result result c))
      as (c' & -> & He & Hr & _); [set_solver|].
    exists c'. split; [reflexivity|]. split; [exact He|].
    unfold isCompleted. destruct He as (-> & _). split; [reflexivity|]. exact Hr.
  - intros error. unfold fail, bind, get, throw_if, modify. rewrite Ht.
    with_strategy opaque [transitionTo] simpl.
    destruct (transitionTo_ended failed now (set_error (Some error) c))
      as (c' & -> & He & _ & Hr & _); [set_solver|].
    exists c'. split; [reflexivity|]. split; [exact He|].
    unfold isFailed. destruct He as (-> & _). split; [reflexivity|]. exact Hr.
  - intros reason. unfold cancel, bind, get, throw_if, modify, when. rewrite Ht.
    unfold getMetadata.
    destruct (truthy_ostr reason); with_strategy opaque [transitionTo] simpl.
    + destruct (transitionTo_ended cancelled now
                  (set_metadata
                     (<["cancellationReason" := JStr (default "" reason)]>
                        (c_metadata c)) c))
        as (c' & -> & He & _ & _ & Hr); [set_solver|].
      exists c'. split; [reflexivity|]. split; [exact He|].
      unfold isCancelled. destruct He as (-> & _). split; [reflexivity|].
      rewrite Hr. simpl. rewrite lookup_insert_eq. reflexivity.
    + destruct (transitionTo_ended cancelled now c)
        as (c' & -> & He & _ & _ & Hr); [set_solver|].
      exists c'. split; [reflexivity|]. split; [exact He|].
      unfold isCancelled. destruct He as (-> & _). split; [reflexivity|].
      rewrite Hr. reflexivity.
Qed.

Lemma Conversation_ending_calls_witness :
  exists c',
    cancel (Some "late") 5 Examples.conversation_AB = (Return tt, c')
    /\ getMetadata "cancellationReason" c' = JStr "late".
Proof.
  destruct (Conversation_ending_calls Examples.conversation_AB 5 eq_refl)
    as (_ & _ & H).
  destruct (H (Some "late")) as (c' & E & _ & _ & Hm).
  exists c'. split; [exact E | exact Hm].
Defined.

(** X14. What [fromContext] restores and what it does not. The state and the
    time of the last update are those of the context; the initiator is
    the first participant; the time of creation is the time of the call,
    not that of the context; the log is empty and there is no result, no
    error and no event. The timer is armed whenever a timeout that is not
    zero is given, whatever the state: when it fires, a conversation
    restored in a state that is not terminal goes to [timeout], and one
    restored in a terminal state stays as it is. *)
Theorem Conversation_fromContext_restores
    (context : ConversationContext) (options : option FromContextOptions)
    (uuid : string) (now later : Z) (c : t) :
  fromContext context options uuid now = Return c ->
  c_state c = ctx_state context
  /\ c_updated c = ctx_updated context
  /\ head (ctx_participants context) = Some (c_initiator c)
  /\ c_created c = now
  /\ getMessages c = [] /\ c_messageIndex c = ∅
  /\ c_result c = JUndefined /\ c_error c = None /\ c_emitted c = []
  /\ c_timeoutHandle c
     = (if truthy_onum (options ≫= fo_timeout) then options ≫= fo_timeout else None)
  /\ (truthy_onum (options ≫= fo_timeout) = true ->
      c_state (state_of (call TimerFires later c))
      = (if isTerminal c then c_state c else timeout)).
Proof.
  intros Hfrom.
  destruct (fromContext_new _ _ _ _ _ Hfrom) as (first & rest & c0 & Hp & Hnew & ->).
  destruct (new_fields _ _ _ _ Hnew) as (_ & Hini & _ & _ & Hlog & _).
  destruct (new_initial _ _ _ _ Hnew)
    as (_ & Hem & Hh & _ & Hcr & _ & Hix & Hres & Herr & _).
  simpl in Hini, Hh. rewrite Hp. unfold getMessages. simpl.
  rewrite Hini, Hcr, Hlog, Hix, Hres, Herr, Hem, Hh.
  do 10 (split; [reflexivity|]).
  intros Ht. rewrite Ht in Hh.
  unfold call, bind, get, when. simpl. rewrite Hh.
  destruct (options ≫= fo_timeout) as [d|] eqn:Ed; [|discriminate].
  rewrite bool_decide_eq_true_2 by eauto.
  unfold handleTimeout, bind, get, when.
  assert (isTerminal (set_updated (ctx_updated context)
                        (set_state (ctx_state context) c0))
          = bool_decide (ctx_state context ∈ [completed; failed; cancelled; timeout]))
    as -> by reflexivity.
  destruct (bool_decide (ctx_state context ∈ _)); simpl; [reflexivity|].
  js_unfold. simpl. rewrite Hh. reflexivity.
Qed.

Lemma Conversation_fromContext_restores_witness :
  c_state MoreExamples.restored_completed = completed
  /\ c_created MoreExamples.restored_completed = 9%Z
  /\ c_timeoutHandle MoreExamples.restored_completed = Some 100%Z
  /\ c_state (state_of (call TimerFires 109 MoreExamples.restored_completed))
     = completed.
Proof.
  destruct (Conversation_fromContext_restores
              (toContext Examples.conversation_completed)
              (Some MoreExamples.timeout_100) "u" 9 109
              MoreExamples.restored_completed eq_refl)
    as (H1 & _ & _ & H2 & _ & _ & _ & _ & _ & H3 & H4).
  split; [exact H1|]. split; [exact H2|]. split; [exact H3|].
  exact (H4 eq_refl).
Defined.

End ConversationEnd.

Section ConversationParticipantsAndMetadata.
Import Conversation.

Lemma remove_first_snoc x (l : list string) :
  x ∉ l -> remove_first x (l ++ [x]) = l.
Proof.
  induction l as [|y l IH]; intros Hx; simpl.
  - destruct (decide (x = x)); [reflexivity | contradiction].
  - apply not_elem_of_cons in Hx as [Hne Hx].
    destruct (decide (y = x)); [congruence|]. rewrite IH by exact Hx. reflexivity.
Qed.

(** X15. A participant added and then removed. For an agent that is not a
    participant (so not the initiator, if the initiator is one),
    [addParticipant] makes it the last participant and
    [removeParticipant] then restores the list; the two calls return,
    [hasParticipant] answers yes in between and no at the end, and the
    two events are emitted. *)
Theorem Conversation_add_then_remove_participant
    (c : t) (agentId : string) (now later : Z) :
  agentId ∉ c_participants c ->
  agentId <> c_initiator c ->
  exists c1 c2,
    addParticipant agentId now c = (Return tt, c1)
    /\ removeParticipant agentId later c1 = (Return tt, c2)
    /\ c_participants c1 = c_participants c ++ [agentId]
    /\ hasParticipant agentId c1 = true
    /\ getParticipantCount c1 = S (getParticipantCount c)
    /\ c_participants c2 = c_participants c
    /\ hasParticipant agentId c2 = false
    /\ getParticipantCount c2 = getParticipantCount c
    /\ c_emitted c2 = c_emitted c ++ [participantAdded agentId;
                                      participantRemoved agentId]
    /\ c_updated c2 = later.
Proof.
  intros Hnot Hne.
  assert (agentId ∈ c_participants c ++ [agentId]) as Hin.
  { apply elem_of_app. right. apply list_elem_of_singleton. reflexivity. }
  exists (set_emitted (c_emitted c ++ [participantAdded agentId])
            (set_updated now (set_participants (c_participants c ++ [agentId]) c))).
  eexists. split.
  { js_unfold. simpl. rewrite (bool_decide_eq_false_2 _ Hnot). reflexivity. }
  split.
  { js_unfold. simpl. rewrite (bool_decide_eq_false_2 _ Hne). simpl.
    rewrite (bool_decide_eq_true_2 _ Hin). reflexivity. }
  unfold hasParticipant, getParticipantCount. simpl.
  rewrite remove_first_snoc by exact Hnot.
  rewrite (bool_decide_eq_true_2 _ Hin), (bool_decide_eq_false_2 _ Hnot).
  rewrite length_app, <- app_assoc. simpl. repeat split; auto; lia.
Qed.

Lemma Conversation_add_then_remove_participant_witness :
  exists c1 c2,
    addParticipant "C" 1 Examples.conversation_AB = (Return tt, c1)
    /\ removeParticipant "C" 2 c1 = (Return tt, c2)
    /\ c_participants c2 = ["A"; "B"].
Proof.
  destruct (Conversation_add_then_remove_participant Examples.conversation_AB "C" 1 2)
    as (c1 & c2 & H1 & H2 & _ & _ & _ & H3 & _).
  - simpl. intros H. apply elem_of_cons in H as [H | H]; [discriminate|].
    apply elem_of_cons in H as [H | H]; [discriminate|].
    apply elem_of_nil in H. exact H.
  - discriminate.
  - exists c1, c2. auto.
Defined.

(** X16. Metadata written is metadata read, for the keys that are no names
    of [Object.prototype]. After [setMetadata(key, value)] with such a
    key, [getMetadata(key)] returns the value and the other such keys
    read as before; the value is in the context [toContext] returns and
    in the conversation [fromContext] builds from it. *)
Theorem Conversation_metadata_round_trip
    (c : t) (key : string) (value : JsValue) (now : Z) :
  ordinary_key key ->
  exists c',
    setMetadata key value now c = (Return tt, c')
    /\ getMetadata key c' = value
    /\ (forall key',
          ordinary_key key' -> key' <> key ->
          getMetadata key' c' = getMetadata key' c)
    /\ c_state c' = c_state c
    /\ c_messages c' = c_messages c
    /\ c_updated c' = now
    /\ c_emitted c' = c_emitted c
    /\ ctx_metadata (toContext c') = Some (<[key := value]> (c_metadata c))
    /\ (forall options uuid later c'',
          fromContext (toContext c') options uuid later = Return c'' ->
          getMetadata key c'' = value).
Proof.
  intros _.
  js_unfold. unfold getMetadata. simpl. eexists. split; [reflexivity|]. simpl.
  rewrite lookup_insert_eq. split; [reflexivity|]. split.
  { intros key' _ Hne. rewrite lookup_insert_ne by congruence. reflexivity. }
  do 5 (split; [reflexivity|]).
  intros options uuid later c'' Hfrom.
  destruct (fromContext_new _ _ _ _ _ Hfrom) as (first & rest & c0 & _ & Hnew & ->).
  destruct (new_fields _ _ _ _ Hnew) as (_ & _ & _ & _ & _ & _ & Hmd & _).
  simpl in *. rewrite Hmd, lookup_insert_eq. reflexivity.
Qed.

Lemma ordinary_key_topic : ordinary_key "topic" /\ ordinary_key "other".
Proof.
  split; intros H;
    repeat (apply elem_of_cons in H as [H | H]; [discriminate|]);
    apply elem_of_nil in H; exact H.
Qed.

Lemma Conversation_metadata_round_trip_witness :
  exists c',
    setMetadata "topic" (JStr "rocq") 3 Examples.conversation_AB = (Return tt, c')
    /\ getMetadata "topic" c' = JStr "rocq"
    /\ getMetadata "other" c' = JUndefined.
Proof.
  destruct (Conversation_metadata_round_trip Examples.conversation_AB "topic"
              (JStr "rocq") 3 (proj1 ordinary_key_topic)) as (c' & H1 & H2 & H3 & _).
  exists c'. split; [exact H1|]. split; [exact H2|].
  rewrite (H3 "other" (proj2 ordinary_key_topic)) by discriminate. reflexivity.
Defined.

End ConversationParticipantsAndMetadata.

(** * Further properties of [RequestResponseProtocol] *)

Section ProtocolPromises.
Import RequestResponseProtocol.
Local Open Scope Z_scope.

Lemma finished_store requestId a r s e p p' :
  well_formed p ->
  pendingRequests p !! requestId = Some a ->
  finished requestId a r s e p p' ->
  store_step p p'.
Proof.
  intros (_ & _ & _ & _ & Hun & _) Hp (E1 & _ & E3 & _ & _ & E6 & _).
  right. left. exists requestId, a, (s, clock p).
  specialize (Hun _ _ Hp). unfold settled_with in E6. rewrite Hun in E6. auto.
Qed.

Lemma store_step_refl p : store_step p p.
Proof. left. auto. Qed.

Lemma handleResponse_store message p :
  well_formed p -> store_step p (state_of (handleResponse message p)).
Proof.
  intros Hwf.
  destruct (handleResponse_cases message p Hwf)
    as [E | (id & a & r & p' & _ & _ & Hp & _ & E & Hf)]; rewrite E; simpl.
  - apply store_step_refl.
  - eapply finished_store; eauto.
Qed.

Lemma retrying_store a r p p' : retrying a r p p' -> store_step p p'.
Proof. intros (E1 & _ & E3 & _ & _ & E6 & _). left. auto. Qed.

Lemma handleFailure_store message p :
  well_formed p -> store_step p (state_of (handleFailure message p)).
Proof.
  intros Hwf.
  destruct (handleFailure_cases message p Hwf)
    as [E | (id & a & r & p' & _ & _ & Hp & _ & E & [[_ Hr] | [_ Hf]])];
    rewrite E; simpl.
  - apply store_step_refl.
  - eapply retrying_store; eauto.
  - eapply finished_store; eauto.
Qed.

Lemma handleTimeout_store requestId p :
  well_formed p -> store_step p (state_of (handleTimeout requestId p)).
Proof.
  intros Hwf.
  destruct (handleTimeout_cases requestId p Hwf)
    as [E | (a & r & p' & Hp & _ & E & [[_ Hr] | [_ Hf]])]; rewrite E; simpl.
  - apply store_step_refl.
  - eapply retrying_store; eauto.
  - eapply finished_store; eauto.
Qed.

Lemma store_step_fired h tm p p' :
  store_step (fired h tm p) p' -> store_step p p'.
Proof. destruct p. exact id. Qed.

(** Every input is such a step. *)
Lemma step_store i p : well_formed p -> store_step p (step i p).
Proof.
  intros Hwf.
  destruct i as [message conversation options | message conversation
                | message uuid | requestId | h | ms]; simpl.
  - destruct (decide (m_performative message = "request")) as [E | E].
    + destruct (initiateRequest_effect message conversation options p E)
        as (p' & E' & (E1 & _ & E3 & _ & _ & E6 & _)). rewrite E'. simpl.
      right. right. exists (m_id message). auto.
    + rewrite initiateRequest_rejects by exact E. apply store_step_refl.
  - unfold handleMessageWithConversation.
    destruct (_ && _); [apply handleResponse_store, Hwf|].
    destruct (bool_decide (_ = "request")); [left; destruct p; auto|].
    destruct (_ && _); [apply handleFailure_store, Hwf | apply store_step_refl].
  - unfold handleMessage. unfold bind at 1. unfold get at 1.
    destruct (Message_new _ uuid (clock p)) as [e | internalMessage];
      [apply store_step_refl|].
    destruct (_ && _); [apply handleResponse_store, Hwf|].
    destruct (_ && _); [apply handleFailure_store, Hwf | apply store_step_refl].
  - destruct (cancelRequest_cases requestId p Hwf)
      as [E | (a & r & p' & Hp & _ & E & Hf)]; rewrite E; simpl.
    + apply store_step_refl.
    + eapply finished_store; eauto.
  - destruct (timers p !! h) as [tm|] eqn:H.
    + rewrite (fire_effect _ _ _ H). apply (store_step_fired h tm).
      pose proof (well_formed_fired p h tm Hwf) as Hwf'.
      destruct (t_callback tm) as [requestId | a].
      * apply handleTimeout_store, Hwf'.
      * destruct (heap (fired h tm p) !! a) as [r|] eqn:Hh.
        -- destruct (retryRequest_resume_effect a r _ Hh) as (p' & E & Hpos & Hneg).
           rewrite E. simpl. destruct (decide (0 < defaultTimeout (fired h tm p))).
           ++ destruct (Hpos ltac:(lia)) as (E1 & _ & E3 & _ & _ & E6 & _).
              left. auto.
           ++ destruct (Hneg ltac:(lia)) as (E1 & _ & E3 & _ & _ & E6 & _).
              left. auto.
        -- unfold retryRequest_resume, bind, get. rewrite Hh. apply store_step_refl.
    + rewrite (fire_unarmed _ _ H). apply store_step_refl.
  - left. destruct p; auto.
Qed.

Lemma steps_well_formed inputs : forall p, well_formed p -> well_formed (steps inputs p).
Proof.
  induction inputs as [|i inputs IH]; intros p H; simpl; [exact H|].
  apply IH, well_formed_step, H.
Qed.

Lemma reachable_protocol_r1_delay : reachable Examples.protocol_r1_delay.
Proof.
  apply reachable_step; [exact reachable_protocol_r1|].
  exists {| mo_id := Some "f1"; mo_timestamp := Some 5; mo_conversationId := None;
            mo_performative := "failure"; mo_sender := "B"; mo_receiver := inl "A";
            mo_content := JStr "busy"; mo_inReplyTo := Some "r1" |}, "u", 5.
  split; [discriminate | reflexivity].
Qed.

Lemma store_step_settled p p' a s :
  store_step p p' -> settled p !! a = Some s -> settled p' !! a = Some s.
Proof.
  intros [(_ & E & _) | [(id & a' & s' & _ & Hun & _ & E & _) | (id & _ & E & _)]] H;
    rewrite E; auto.
  rewrite lookup_insert_ne; [exact H | congruence].
Qed.

Lemma store_step_orphaned p p' a :
  store_step p p' -> orphaned a p -> orphaned a p'.
Proof.
  intros [(E1 & E2 & E3) | [(id & a' & s' & Hp & _ & E1 & E2 & E3) | (id & E1 & E2 & E3)]]
    (Hlt & Hun & Hno); unfold orphaned; rewrite E1, E2, E3.
  - auto.
  - split; [exact Hlt|]. split.
    + rewrite lookup_insert_ne; [exact Hun|]. intros <-. exact (Hno _ Hp).
    + intros id' H. apply lookup_delete_Some in H as [_ H]. exact (Hno _ H).
  - split; [lia|]. split; [exact Hun|].
    intros id' H. apply lookup_insert_Some in H as [[_ H] | [_ H]]; [lia|].
    exact (Hno _ H).
Qed.

(** X17. A promise is settled once. In every state the protocol can be in,
    the promise of a pending request is not settled; and a promise that is
    settled keeps its settlement, the value and the time, whatever inputs
    follow. *)
Theorem Protocol_promises_settle_once
    (p : t) (a : addr) (s : Settlement * Z) (inputs : list Input) :
  reachable p ->
  settled p !! a = Some s ->
  (forall requestId, pendingRequests p !! requestId <> Some a)
  /\ settled (steps inputs p) !! a = Some s.
Proof.
  intros Hr Hs. pose proof (protocol_reachable_well_formed p Hr) as Hwf. split.
  - intros requestId Hp. destruct Hwf as (_ & _ & _ & _ & Hun & _).
    rewrite (Hun _ _ Hp) in Hs. discriminate.
  - clear Hr. revert p Hwf Hs.
    induction inputs as [|i inputs IH]; intros p Hwf Hs; simpl; [exact Hs|].
    apply IH; [apply well_formed_step, Hwf|].
    eapply store_step_settled; [apply step_store, Hwf | exact Hs].
Qed.

Lemma Protocol_promises_settle_once_witness :
  settled
    (steps [Receive Examples.failure_r1 Examples.conversation_AB;
            CancelRequest "r1";
            InitiateRequest Examples.request_r1 Examples.conversation_AB no_options]
       (step (Receive Examples.inform_r1 Examples.conversation_AB) Examples.protocol_r1))
    !! 0%nat
  = Some (Resolved Examples.inform_r1, 0).
Proof.
  apply (Protocol_promises_settle_once
           (step (Receive Examples.inform_r1 Examples.conversation_AB)
              Examples.protocol_r1) 0%nat (Resolved Examples.inform_r1, 0)).
  - apply reachable_step; [exact reachable_protocol_r1|].
    exists {| mo_id := Some "i1"; mo_timestamp := Some 5; mo_conversationId := None;
              mo_performative := "inform"; mo_sender := "B"; mo_receiver := inl "A";
              mo_content := JStr "pong"; mo_inReplyTo := Some "r1" |}, "u", 5.
    split; [discriminate | reflexivity].
  - reflexivity.
Defined.

(** X18. A request initiated under an id that is pending orphans the promise
    of the request that was pending: the entry of the id now refers to
    the new object, and whatever inputs follow, the old promise is never
    resolved and never rejected. *)
Theorem Protocol_reused_id_orphans_promise
    (p : t) (message : Message) (conversation : Conversation.t)
    (options : RequestResponseOptions) (a : addr) (inputs : list Input) :
  reachable p ->
  m_performative message = "request" ->
  pendingRequests p !! m_id message = Some a ->
  pendingRequests (step (InitiateRequest message conversation options) p)
    !! m_id message = Some (nextAddr p)
  /\ a <> nextAddr p
  /\ settled (steps inputs (step (InitiateRequest message conversation options) p))
       !! a = None.
Proof.
  intros Hr Hperf Hp. pose proof (protocol_reachable_well_formed p Hr) as Hwf.
  pose proof (well_formed_step (InitiateRequest message conversation options) p Hwf)
    as Hwf'.
  assert (a < nextAddr p)%nat as Hlt.
  { destruct Hwf as (Hh & _ & _ & Hm & _). destruct (Hm _ _ Hp) as (r & Hr' & _).
    exact (Hh _ _ Hr'). }
  assert (pendingRequests (step (InitiateRequest message conversation options) p)
          = <[m_id message := nextAddr p]> (pendingRequests p)
          /\ settled (step (InitiateRequest message conversation options) p) = settled p
          /\ nextAddr (step (InitiateRequest message conversation options) p)
             = S (nextAddr p)) as (E1 & E2 & E3).
  { simpl.
    destruct (initiateRequest_effect message conversation options p Hperf)
      as (p' & E' & (E1 & _ & E3 & _ & _ & E6 & _)). rewrite E'. simpl. auto. }
  split; [rewrite E1; apply lookup_insert_eq|]. split; [lia|].
  assert (orphaned a (step (InitiateRequest message conversation options) p)) as Ho.
  { unfold orphaned. rewrite E1, E2, E3. split; [lia|]. split.
    - destruct Hwf as (_ & _ & _ & _ & Hun & _). exact (Hun _ _ Hp).
    - intros id H. apply lookup_insert_Some in H as [[_ H] | [Hne H]]; [lia|].
      destruct Hwf as (_ & _ & _ & Hm & _).
      destruct (Hm _ _ Hp) as (r & Hr1 & Hid1).
      destruct (Hm _ _ H) as (r' & Hr2 & Hid2). congruence. }
  revert Hwf' Ho. generalize (step (InitiateRequest message conversation options) p).
  clear. induction inputs as [|i inputs IH]; intros p Hwf Ho; simpl.
  - destruct Ho as (_ & H & _). exact H.
  - apply IH; [apply well_formed_step, Hwf|].
    eapply store_step_orphaned; [apply step_store, Hwf | exact Ho].
Qed.

Lemma Protocol_reused_id_orphans_promise_witness :
  settled
    (steps [Receive Examples.inform_r1 Examples.conversation_AB; CancelRequest "r1"]
       Examples.protocol_r1_twice) !! 0%nat = None.
Proof.
  apply (Protocol_reused_id_orphans_promise Examples.protocol_r1 Examples.request_r1
           Examples.conversation_AB no_options 0%nat
           [Receive Examples.inform_r1 Examples.conversation_AB; CancelRequest "r1"]
           reachable_protocol_r1 eq_refl eq_refl).
Defined.

End ProtocolPromises.

Section ProtocolReplyRoundTrip.
Import RequestResponseProtocol.
Local Open Scope Z_scope.

Lemma constructed_sender message : constructed message -> m_sender message <> "".
Proof.
  intros (options & uuid & now & _ & Hnew). unfold Message_new in Hnew.
  destruct (Message_validate _) eqn:Hv; [discriminate|]. injection Hnew as <-.
  unfold Message_validate in Hv. simpl in *.
  destruct (truthy_str (mo_performative options)); [|discriminate]. simpl in Hv.
  destruct (truthy_str (mo_sender options)) eqn:Hs; [|discriminate].
  unfold truthy_str in Hs. destruct (decide (mo_sender options = "")); [discriminate|auto].
Qed.

(** The replies of [createResponse] and [createFailure]: with a sender
    that is not empty, to a request with one, the constructor accepts
    them. *)
Lemma reply_constructed performative request content sender uuid now :
  performative <> "" -> sender <> "" -> m_sender request <> "" ->
  Message_new {| mo_id := None;
                 mo_timestamp := None;
                 mo_sender := sender;
                 mo_receiver := inl (m_sender request);
                 mo_performative := performative;
                 mo_content := content;
                 mo_inReplyTo := Some (m_id request);
                 mo_conversationId := m_conversationId request |} uuid now
  = inr {| m_id := uuid;
           m_conversationId := m_conversationId request;
           m_performative := performative;
           m_sender := sender;
           m_receiver := inl (m_sender request);
           m_content := content;
           m_timestamp := now;
           m_inReplyTo := Some (m_id request) |}.
Proof.
  intros Hp Hs Hr. unfold Message_new, Message_validate, receiver_falsy,
    receiver_empty_array, truthy_str. simpl.
  destruct (decide (performative = "")); [contradiction|].
  destruct (decide (sender = "")); [contradiction|].
  destruct (decide (m_sender request = "")); [contradiction|]. reflexivity.
Qed.

Lemma initiated_then_pending message conversation options p p' :
  well_formed p ->
  initiated message conversation options p p' ->
  pendingRequests p' !! m_id message = Some (nextAddr p)
  /\ heap p' !! nextAddr p = Some (new_request message conversation options p)
  /\ cleared (new_request message conversation options p) (timers p') = timers p.
Proof.
  intros (_ & Htm & _) (E1 & E2 & _ & E4 & _).
  rewrite E1, E2, E4. split; [apply lookup_insert_eq|].
  split; [apply lookup_insert_eq|].
  unfold cleared, new_request. simpl.
  destruct (bool_decide (0 < num_or (opt_timeout options) (defaultTimeout p))).
  - apply delete_insert_id.
    destruct (timers p !! nextTimer p) as [tm|] eqn:E; [|reflexivity].
    specialize (Htm _ _ E). lia.
  - reflexivity.
Qed.

(** X19. Request and response. The message [createResponse] builds for a
    request, handled after the request is initiated, resolves the promise
    of the request with that message: the entry is gone, the deadline
    timer is cleared and the two events are emitted. *)
Theorem Protocol_createResponse_resolves
    (p : t) (request : Message) (conversation conversation' : Conversation.t)
    (options : RequestResponseOptions) (content : JsValue) (sender uuid : string)
    (now : Z) :
  reachable p ->
  constructed request ->
  m_performative request = "request" ->
  sender <> "" ->
  exists response p1 p2,
    createResponse request content sender uuid now = inr response
    /\ m_inReplyTo response = Some (m_id request)
    /\ m_receiver response = inl (m_sender request)
    /\ m_conversationId response = m_conversationId request
    /\ initiateRequest request conversation options p = (Return (nextAddr p), p1)
    /\ handleMessageWithConversation response conversation' p1 = (Return tt, p2)
    /\ settled p2 !! nextAddr p = Some (Resolved response, clock p)
    /\ pendingRequests p2 !! m_id request = None
    /\ timers p2 = timers p
    /\ emitted p2 = emitted p ++ [requestInitiated request conversation;
                                  responseReceived response request].
Proof.
  intros Hr Hc Hperf Hs. pose proof (protocol_reachable_well_formed p Hr) as Hwf.
  unfold createResponse.
  rewrite (reply_constructed "inform" request content sender uuid now)
    by (try discriminate; auto using constructed_sender).
  destruct (initiateRequest_effect request conversation options p Hperf)
    as (p1 & E1 & Hi).
  destruct (initiated_then_pending _ _ _ _ _ Hwf Hi) as (Hp1 & Hh1 & Htm).
  eexists. exists p1.
  edestruct (handleResponse_effect
               {| m_id := uuid; m_conversationId := m_conversationId request;
                  m_performative := "inform"; m_sender := sender;
                  m_receiver := inl (m_sender request); m_content := content;
                  m_timestamp := now; m_inReplyTo := Some (m_id request) |}
               (m_id request) (nextAddr p) _ p1 eq_refl (constructed_id _ Hc) Hp1 Hh1)
    as (p2 & E2 & (F1 & _ & _ & F4 & _ & F6 & F7 & _)).
  exists p2. split; [reflexivity|]. do 3 (split; [reflexivity|]).
  split; [exact E1|]. split.
  { unfold handleMessageWithConversation. simpl.
    unfold truthy_str. destruct (decide (m_id request = "")) as [E | _];
      [destruct (constructed_id _ Hc E)|]. simpl. exact E2. }
  destruct Hi as (_ & _ & _ & _ & _ & I6 & I7 & I8 & _).
  rewrite F6, F1, F4, F7, Htm, I7, I6, I8. unfold settled_with.
  assert (settled p !! nextAddr p = None) as Hun.
  { destruct Hwf as (_ & _ & _ & _ & _ & Hlt).
    destruct (settled p !! nextAddr p) as [s|] eqn:E; [|reflexivity].
    specialize (Hlt _ _ E). lia. }
  rewrite Hun. split; [apply lookup_insert_eq|].
  split; [apply lookup_delete_eq|]. split; [reflexivity|].
  rewrite <- app_assoc. reflexivity.
Qed.

Lemma Protocol_createResponse_resolves_witness :
  exists response p1 p2,
    createResponse Examples.request_r1 (JStr "pong") "B" "u" 9 = inr response
    /\ initiateRequest Examples.request_r1 Examples.conversation_AB no_options
         (new no_options) = (Return 0%nat, p1)
    /\ handleMessageWithConversation response Examples.conversation_AB p1
       = (Return tt, p2)
    /\ settled p2 !! 0%nat = Some (Resolved response, 0).
Proof.
  destruct (Protocol_createResponse_resolves (new no_options) Examples.request_r1
              Examples.conversation_AB Examples.conversation_AB no_options
              (JStr "pong") "B" "u" 9 (reachable_new no_options)
              constructed_request_r1 eq_refl)
    as (response & p1 & p2 & H1 & _ & _ & _ & H2 & H3 & H4 & _); [discriminate|].
  exists response, p1, p2. auto.
Defined.

(** X20. Request and failure. When the request is initiated with a maximum of
    retries that is not positive (a negative option, since zero counts as
    absent), the message [createFailure] builds for it rejects the promise
    at once, with the text of the error, or with ['Request failed'] when
    the text is empty. *)
Theorem Protocol_createFailure_rejects
    (p : t) (request : Message) (conversation conversation' : Conversation.t)
    (options : RequestResponseOptions) (error sender uuid : string) (now : Z) :
  reachable p ->
  constructed request ->
  m_performative request = "request" ->
  sender <> "" ->
  num_or (opt_maxRetries options) (defaultMaxRetries p) <= 0 ->
  exists failure p1 p2,
    createFailure request error sender uuid now = inr failure
    /\ m_inReplyTo failure = Some (m_id request)
    /\ initiateRequest request conversation options p = (Return (nextAddr p), p1)
    /\ handleMessageWithConversation failure conversation' p1 = (Return tt, p2)
    /\ settled p2 !! nextAddr p
       = Some (Rejected (RequestFailed (if decide (error = "") then "Request failed"
                                        else error)), clock p)
    /\ pendingRequests p2 !! m_id request = None
    /\ timers p2 = timers p.
Proof.
  intros Hr Hc Hperf Hs Hmax. pose proof (protocol_reachable_well_formed p Hr) as Hwf.
  unfold createFailure.
  rewrite (reply_constructed "failure" request (JStr error) sender uuid now)
    by (try discriminate; auto using constructed_sender).
  destruct (initiateRequest_effect request conversation options p Hperf)
    as (p1 & E1 & Hi).
  destruct (initiated_then_pending _ _ _ _ _ Hwf Hi) as (Hp1 & Hh1 & Htm).
  eexists. exists p1.
  edestruct (handleFailure_final
               {| m_id := uuid; m_conversationId := m_conversationId request;
                  m_performative := "failure"; m_sender := sender;
                  m_receiver := inl (m_sender request); m_content := JStr error;
                  m_timestamp := now; m_inReplyTo := Some (m_id request) |}
               (m_id request) (nextAddr p) _ p1 eq_refl (constructed_id _ Hc) Hp1 Hh1)
    as (p2 & E2 & (F1 & _ & _ & F4 & _ & F6 & F7 & _)); [simpl; lia|].
  exists p2. split; [reflexivity|]. split; [reflexivity|].
  split; [exact E1|]. split.
  { rewrite handleMessageWithConversation_failure by reflexivity. exact E2. }
  destruct Hi as (_ & _ & _ & _ & _ & I6 & I7 & I8 & _).
  rewrite F6, F1, F4, Htm, I6, I8. unfold settled_with.
  assert (settled p !! nextAddr p = None) as Hun.
  { destruct Hwf as (_ & _ & _ & _ & _ & Hlt).
    destruct (settled p !! nextAddr p) as [s|] eqn:E; [|reflexivity].
    specialize (Hlt _ _ E). lia. }
  rewrite Hun. split; [|split; [apply lookup_delete_eq | reflexivity]].
  rewrite lookup_insert_eq. simpl. unfold str_or, truthy_str.
  destruct (decide (error = "")); reflexivity.
Qed.

Lemma Protocol_createFailure_rejects_witness :
  exists failure p1 p2,
    createFailure Examples.request_r1 "" "B" "u" 9 = inr failure
    /\ initiateRequest Examples.request_r1 Examples.conversation_AB
         {| opt_timeout := None; opt_maxRetries := Some (-1); opt_retryDelay := None |}
         (new no_options) = (Return 0%nat, p1)
    /\ handleMessageWithConversation failure Examples.conversation_AB p1
       = (Return tt, p2)
    /\ settled p2 !! 0%nat = Some (Rejected (RequestFailed "Request failed"), 0).
Proof.
  destruct (Protocol_createFailure_rejects (new no_options) Examples.request_r1
              Examples.conversation_AB Examples.conversation_AB
              {| opt_timeout := None; opt_maxRetries := Some (-1);
                 opt_retryDelay := None |}
              "" "B" "u" 9 (reachable_new no_options)
              constructed_request_r1 eq_refl)
    as (failure & p1 & p2 & H1 & _ & H2 & H3 & H4 & _);
    [discriminate | vm_compute; discriminate |].
  exists failure, p1, p2. auto.
Defined.

End ProtocolReplyRoundTrip.

Section ProtocolTeardown.
Import RequestResponseProtocol.
Local Open Scope Z_scope.

Lemma cancellations_cons requestId requestIds p :
  cancellations (requestId :: requestIds) p
  = match getPendingRequest requestId p with
    | Some (_, r) => [requestCancelled (pr_message r)]
    | None => []
    end ++ cancellations requestIds p.
Proof.
  unfold cancellations. simpl.
  destruct (getPendingRequest requestId p) as [[a r]|]; reflexivity.
Qed.

Lemma cancellations_frame requestIds p p' :
  heap p' = heap p ->
  (forall requestId, requestId ∈ requestIds ->
     pendingRequests p' !! requestId = pendingRequests p !! requestId) ->
  cancellations requestIds p' = cancellations requestIds p.
Proof.
  intros Hh. induction requestIds as [|requestId requestIds IH]; intros H;
    [reflexivity|].
  rewrite !cancellations_cons. f_equal.
  - unfold getPendingRequest. rewrite H, Hh by (apply elem_of_cons; auto).
    reflexivity.
  - apply IH. intros id Hin. apply H, elem_of_cons. auto.
Qed.

(** The loop of [cancelAllRequests] over ids that are pending. *)
Lemma cancelEach_effect requestIds : forall p,
  well_formed p ->
  NoDup requestIds ->
  (forall requestId, requestId ∈ requestIds ->
     is_Some (pendingRequests p !! requestId)) ->
  exists p',
    cancelEach requestIds p = (Return tt, p')
    /\ (forall requestId,
          pendingRequests p' !! requestId
          = if decide (requestId ∈ requestIds) then None
            else pendingRequests p !! requestId)
    /\ heap p' = heap p
    /\ clock p' = clock p
    /\ emitted p' = emitted p ++ cancellations requestIds p
    /\ (forall a s, settled p !! a = Some s -> settled p' !! a = Some s)
    /\ (forall requestId a,
          requestId ∈ requestIds -> pendingRequests p !! requestId = Some a ->
          settled p' !! a = Some (Rejected RequestCancelled, clock p))
    /\ (forall h tm, timers p' !! h = Some tm -> timers p !! h = Some tm)
    /\ (forall requestId a r h,
          requestId ∈ requestIds -> pendingRequests p !! requestId = Some a ->
          heap p !! a = Some r -> pr_timeout r = Some h -> timers p' !! h = None)
    /\ (forall h,
          (forall requestId a r,
              requestId ∈ requestIds -> pendingRequests p !! requestId = Some a ->
              heap p !! a = Some r -> pr_timeout r <> Some h) ->
          timers p' !! h = timers p !! h).
Proof.
  induction requestIds as [|requestId requestIds IH]; intros p Hwf Hnd Hall.
  - exists p. split; [reflexivity|]. split.
    { intros id. destruct (decide (id ∈ [])) as [H | _]; [|reflexivity].
      apply elem_of_nil in H. destruct H. }
    unfold cancellations. simpl. rewrite app_nil_r.
    repeat split; auto; intros *; intros H; apply elem_of_nil in H; destruct H.
  - apply NoDup_cons in Hnd as [Hnotin Hnd].
    destruct (Hall requestId) as [a Hp]; [apply elem_of_cons; auto|].
    pose proof Hwf as (_ & _ & _ & Hm & Hun & _).
    destruct (Hm _ _ Hp) as (r & Hr & Hid).
    destruct (cancelRequest_effect requestId a r p Hp Hr) as (p1 & E1 & Hf).
    pose proof (well_formed_finished _ _ _ _ _ _ _ Hwf Hp Hr Hf) as Hwf1.
    destruct Hf as (F1 & F2 & _ & F4 & _ & F6 & F7 & F8 & _).
    destruct (IH p1 Hwf1 Hnd)
      as (p' & E & G1 & G2 & G3 & G4 & G5 & G6 & G7 & G8 & G9).
    { intros id Hin. rewrite F1, lookup_delete_ne by (intros <-; contradiction).
      apply Hall, elem_of_cons. auto. }
    exists p'. split.
    { simpl. unfold bind at 1. rewrite E1. exact E. }
    assert (settled p1 = <[a := (Rejected RequestCancelled, clock p)]> (settled p))
      as F6'.
    { rewrite F6. unfold settled_with. rewrite (Hun _ _ Hp). reflexivity. }
    refine (conj _ (conj _ (conj _ (conj _ (conj _ (conj _ (conj _ (conj _ _)))))))).
    + intros id. rewrite G1, F1.
      destruct (decide (id = requestId)) as [-> | Hne].
      * destruct (decide (requestId ∈ requestId :: requestIds)) as [_ | Hn];
          [|exfalso; apply Hn, elem_of_cons; auto].
        destruct (decide (requestId ∈ requestIds)); [reflexivity|].
        apply lookup_delete_eq.
      * rewrite lookup_delete_ne by congruence.
        destruct (decide (id ∈ requestIds)) as [Hin | Hnin];
          destruct (decide (id ∈ requestId :: requestIds)) as [H | H];
          try reflexivity; exfalso.
        -- apply H, elem_of_cons. auto.
        -- apply elem_of_cons in H as [H | H]; contradiction.
    + congruence.
    + congruence.
    + rewrite G4, F7, cancellations_cons,
        (getPendingRequest_found _ _ _ _ Hp Hr), <- app_assoc. f_equal. f_equal.
      apply cancellations_frame; [exact F2|].
      intros id Hin. rewrite F1. apply lookup_delete_ne. intros <-. contradiction.
    + intros a' s H. apply G5. rewrite F6'.
      rewrite lookup_insert_ne; [exact H|]. intros <-.
      rewrite (Hun _ _ Hp) in H. discriminate.
    + intros id a' Hin Hp'. apply elem_of_cons in Hin as [-> | Hin].
      * assert (a' = a) as -> by congruence.
        apply G5. rewrite F6'. apply lookup_insert_eq.
      * rewrite <- F8. apply (G6 id); [exact Hin|].
        rewrite F1, lookup_delete_ne; [exact Hp'|]. intros <-. contradiction.
    + intros h tm H. apply G7 in H. rewrite F4 in H. eapply cleared_lookup, H.
    + intros id a' r' h Hin Hp' Hr' Hh. apply elem_of_cons in Hin as [-> | Hin].
      * assert (a' = a) as -> by congruence.
        assert (r' = r) as -> by congruence.
        destruct (timers p' !! h) as [tm|] eqn:Et; [|reflexivity].
        apply G7 in Et. rewrite F4 in Et. unfold cleared in Et. rewrite Hh in Et.
        rewrite lookup_delete_eq in Et. discriminate.
      * apply (G8 id a' r' h); [exact Hin | | congruence | exact Hh].
        rewrite F1, lookup_delete_ne; [exact Hp'|]. intros <-. contradiction.
    + intros h Hother. rewrite G9.
      * rewrite F4. unfold cleared. destruct (pr_timeout r) as [h'|] eqn:Eh;
          [|reflexivity].
        apply lookup_delete_ne. intros <-.
        apply (Hother requestId a r); auto. apply elem_of_cons. auto.
      * intros id a' r' Hin Hp' Hr'. rewrite F1 in Hp'.
        apply lookup_delete_Some in Hp' as [_ Hp']. rewrite F2 in Hr'.
        apply (Hother id a' r'); auto. apply elem_of_cons. auto.
Qed.

(** X21. [cancelAllRequests] (and [cleanup], which calls it) leaves no
    request pending: the map is empty and the state is [idle]; the promise
    of every request that was pending is rejected with
    ['Request cancelled'], the promises settled before keep their
    settlement, and one ['requestCancelled'] is emitted for each request,
    in the order of the keys. The timers it clears are those whose
    handles the pending entries hold, and no other: every other timer is
    armed as it was, the timer of a retry delay in progress among them. *)
Theorem Protocol_cancelAllRequests
    (p : t) (requestIds : list string) :
  reachable p ->
  enumerates requestIds p ->
  exists p',
    cancelAllRequests requestIds p = (Return tt, p')
    /\ cleanup requestIds p = (Return tt, p')
    /\ pendingRequests p' = ∅
    /\ getPendingRequestCount p' = 0%nat
    /\ hasPendingRequests p' = false
    /\ getCurrentState p' = "idle"
    /\ (forall requestId a,
          pendingRequests p !! requestId = Some a ->
          settled p' !! a = Some (Rejected RequestCancelled, clock p))
    /\ (forall a s, settled p !! a = Some s -> settled p' !! a = Some s)
    /\ emitted p' = emitted p ++ cancellations requestIds p
    /\ length (cancellations requestIds p) = getPendingRequestCount p
    /\ (forall requestId a r h,
          pendingRequests p !! requestId = Some a ->
          heap p !! a = Some r -> pr_timeout r = Some h -> timers p' !! h = None)
    /\ (forall h,
          (forall requestId a r,
              pendingRequests p !! requestId = Some a ->
              heap p !! a = Some r -> pr_timeout r <> Some h) ->
          timers p' !! h = timers p !! h)
    /\ (forall h tm a,
          timers p !! h = Some tm -> t_callback tm = ResumeRetry a ->
          timers p' !! h = Some tm).
Proof.
  intros Hr [Hnd Hen]. pose proof (protocol_reachable_well_formed p Hr) as Hwf.
  destruct (cancelEach_effect requestIds p Hwf Hnd)
    as (p' & E & G1 & G2 & G3 & G4 & G5 & G6 & G7 & G8 & G9).
  { intros id Hin. apply Hen, Hin. }
  assert (pendingRequests p' = ∅) as Hempty.
  { apply map_empty. intros id. rewrite G1.
    destruct (decide (id ∈ requestIds)) as [_ | Hnin]; [reflexivity|].
    destruct (pendingRequests p !! id) as [a|] eqn:Hp; [|reflexivity].
    exfalso. apply Hnin, Hen. eauto. }
  assert (forall h,
            (forall requestId a r,
                pendingRequests p !! requestId = Some a ->
                heap p !! a = Some r -> pr_timeout r <> Some h) ->
            timers p' !! h = timers p !! h) as Hother.
  { intros h H. apply G9. intros id a r _. apply H. }
  exists p'. split; [exact E|]. split; [exact E|]. split; [exact Hempty|].
  unfold getPendingRequestCount, hasPendingRequests, getCurrentState.
  rewrite Hempty, map_size_empty. do 3 (split; [reflexivity|]).
  split.
  { intros id a Hp. apply (G6 id); [|exact Hp]. apply Hen. eauto. }
  split; [exact G5|]. split; [exact G4|]. split.
  { clear E G1 G2 G3 G4 G5 G6 G7 G8 G9 Hother Hempty p'.
    assert (length (cancellations requestIds p) = length requestIds) as ->.
    { assert (forall id, id ∈ requestIds -> is_Some (pendingRequests p !! id)) as H
        by (intros id Hin; apply Hen, Hin).
      clear Hen Hnd. induction requestIds as [|id ids IH]; [reflexivity|].
      rewrite cancellations_cons.
      destruct (H id) as [a Hp]; [apply elem_of_cons; auto|].
      destruct Hwf as (_ & _ & _ & Hm & _). destruct (Hm _ _ Hp) as (r & Hr' & _).
      rewrite (getPendingRequest_found _ _ _ _ Hp Hr'). simpl. f_equal. apply IH.
      intros id' Hin. apply H, elem_of_cons. auto. }
    assert (requestIds ≡ₚ (map_to_list (pendingRequests p)).*1) as Hperm.
    { apply NoDup_Permutation; [exact Hnd | apply NoDup_fst_map_to_list|].
      intros id. rewrite Hen. rewrite list_elem_of_fmap. split.
      - intros [a Hp]. exists (id, a). split; [reflexivity|].
        apply elem_of_map_to_list. exact Hp.
      - intros ([id' a] & -> & Hin). apply elem_of_map_to_list in Hin. eauto. }
    rewrite Hperm, length_fmap. apply length_map_to_list. }
  split.
  { intros id a r h Hp Hr' Hh. apply (G8 id a r h); auto. apply Hen. eauto. }
  split; [exact Hother|].
  intros h tm a Ht Hcb. rewrite Hother; [exact Ht|].
  intros id a' r Hp Hr' Hh.
  destruct (reachable_handles_sound p Hr) as (_ & S2).
  specialize (S2 _ _ _ _ Hr' Hh Ht). congruence.
Qed.

Lemma Protocol_cancelAllRequests_witness :
  exists p',
    cancelAllRequests ["r1"] Examples.protocol_r1_delay = (Return tt, p')
    /\ getCurrentState p' = "idle"
    /\ settled p' !! 0%nat = Some (Rejected RequestCancelled, 0)
    /\ timers p' !! 1%nat
       = Some {| t_delay := 1000; t_due := 1000; t_callback := ResumeRetry 0%nat |}.
Proof.
  destruct (Protocol_cancelAllRequests Examples.protocol_r1_delay ["r1"]
              reachable_protocol_r1_delay)
    as (p' & H1 & _ & _ & _ & _ & H2 & H3 & _ & _ & _ & _ & _ & H4).
  - split; [apply NoDup_singleton|]. intros requestId.
    assert (pendingRequests Examples.protocol_r1_delay = {["r1" := 0%nat]}) as ->
      by (vm_compute; reflexivity).
    rewrite list_elem_of_singleton. split.
    + intros ->. exists 0%nat. apply lookup_singleton_eq.
    + intros [a H]. apply lookup_singleton_Some in H as [<- _]. reflexivity.
  - exists p'. split; [exact H1|]. split; [exact H2|].
    split; [apply (H3 "r1"); reflexivity|].
    apply (H4 1%nat _ 0%nat); reflexivity.
Defined.

End ProtocolTeardown.

Section ProtocolInterface.
Import RequestResponseProtocol.
Local Open Scope Z_scope.

(** X22. A message [validateMessage] does not accept is ignored by both
    handlers: the state of the protocol is as before, and
    [handleMessageWithConversation] returns. *)
Theorem Protocol_handlers_ignore_invalid_messages
    (p : t) (message : Message) (conversation : Conversation.t) (uuid : string) :
  validateMessage message = false ->
  handleMessageWithConversation message conversation p = (Return tt, p)
  /\ state_of (handleMessage message uuid p) = p.
Proof.
  unfold validateMessage. intros H. apply bool_decide_eq_false in H.
  assert (m_performative message <> "request" /\ m_performative message <> "inform"
          /\ m_performative message <> "failure") as (H1 & H2 & H3).
  { repeat split; intros E; apply H; rewrite E; set_solver. }
  unfold handleMessageWithConversation, handleMessage, bind, get.
  rewrite (bool_decide_eq_false_2 _ H1), (bool_decide_eq_false_2 _ H2),
    (bool_decide_eq_false_2 _ H3). simpl.
  split; [reflexivity|]. destruct (Message_new _ uuid (clock p)); reflexivity.
Qed.

Lemma Protocol_handlers_ignore_invalid_messages_witness :
  handleMessageWithConversation (MessageClass.core MoreExamples.ping)
    Examples.conversation_AB Examples.protocol_r1
  = (Return tt, Examples.protocol_r1).
Proof.
  apply (Protocol_handlers_ignore_invalid_messages Examples.protocol_r1
           (MessageClass.core MoreExamples.ping) Examples.conversation_AB "u" eq_refl).
Defined.

Lemma constructed_rebuilt message uuid now :
  constructed message -> m_timestamp message <> 0 ->
  Message_new {| mo_id := Some (m_id message);
                 mo_performative := m_performative message;
                 mo_sender := m_sender message;
                 mo_receiver := m_receiver message;
                 mo_content := m_content message;
                 mo_timestamp := Some (m_timestamp message);
                 mo_conversationId := m_conversationId message;
                 mo_inReplyTo := m_inReplyTo message |} uuid now
  = inr message.
Proof.
  intros Hc Hts. pose proof (constructed_id _ Hc) as Hid.
  destruct Hc as (options & uuid' & now' & _ & Hnew). unfold Message_new in *.
  destruct (Message_validate _) eqn:Hv in Hnew; [discriminate|].
  injection Hnew as Hm.
  assert (Message_validate message = None) as Hv'.
  { rewrite <- Hm. exact Hv. }
  simpl. unfold str_or, num_or, truthy_str.
  destruct (decide (m_id message = "")); [contradiction|].
  destruct (decide (m_timestamp message = 0)); [contradiction|].
  destruct message. simpl in *. rewrite Hv'. reflexivity.
Qed.

(** X23. The two entry points. For a message the constructor has built (with
    a timestamp), [handleMessage] does what
    [handleMessageWithConversation] does, except for a request: of a
    request it takes no notice, where the other emits
    ['requestReceived']. *)
Theorem Protocol_handleMessage_agrees
    (p : t) (message : Message) (conversation : Conversation.t) (uuid : string) :
  constructed message ->
  m_timestamp message <> 0 ->
  (m_performative message <> "request" ->
     handleMessage message uuid p
     = handleMessageWithConversation message conversation p)
  /\ (m_performative message = "request" ->
        handleMessage message uuid p = (Return tt, p)
        /\ handleMessageWithConversation message conversation p
           = (Return tt, set_emitted
                           (emitted p ++ [requestReceived message conversation]) p)).
Proof.
  intros Hc Hts.
  assert (handleMessage message uuid p
          = (if bool_decide (m_performative message = "inform")
                && truthy_ostr (m_inReplyTo message)
             then handleResponse message
             else if bool_decide (m_performative message = "failure")
                     && truthy_ostr (m_inReplyTo message)
                  then handleFailure message
                  else ret tt) p) as ->.
  { unfold handleMessage. unfold bind at 1. unfold get at 1.
    rewrite (constructed_rebuilt message uuid (clock p) Hc Hts). reflexivity. }
  unfold handleMessageWithConversation. split.
  - intros Hne. rewrite (bool_decide_eq_false_2 _ Hne). reflexivity.
  - intros E. rewrite E. simpl. split; reflexivity.
Qed.

Lemma Protocol_handleMessage_agrees_witness :
  handleMessage Examples.request_r1 "u" Examples.protocol_r1
  = (Return tt, Examples.protocol_r1).
Proof.
  apply (Protocol_handleMessage_agrees Examples.protocol_r1 Examples.request_r1
           Examples.conversation_AB "u" constructed_request_r1).
  - discriminate.
  - reflexivity.
Defined.

(** X24. [initiateRequest] of a request returns the promise of a new object
    that is pending under the id of the message and not settled; the
    protocol is then [waiting], and the number of pending requests is one
    more, or the same when the id was pending already. A message that is
    not a request is refused and nothing changes. *)
Theorem Protocol_initiateRequest_registers
    (p : t) (message : Message) (conversation : Conversation.t)
    (options : RequestResponseOptions) :
  reachable p ->
  (m_performative message = "request" ->
     exists p',
       initiateRequest message conversation options p = (Return (nextAddr p), p')
       /\ getPendingRequest (m_id message) p'
          = Some (nextAddr p, new_request message conversation options p)
       /\ settled p' !! nextAddr p = None
       /\ hasPendingRequests p' = true
       /\ getCurrentState p' = "waiting"
       /\ getPendingRequestCount p'
          = match pendingRequests p !! m_id message with
            | Some _ => getPendingRequestCount p
            | None => S (getPendingRequestCount p)
            end)
  /\ (m_performative message <> "request" ->
        initiateRequest message conversation options p = (Throw NotARequest, p)).
Proof.
  intros Hr. pose proof (protocol_reachable_well_formed p Hr) as Hwf.
  split; [|apply initiateRequest_rejects].
  intros Hperf.
  destruct (initiateRequest_effect message conversation options p Hperf)
    as (p' & E & Hi).
  destruct (initiated_then_pending _ _ _ _ _ Hwf Hi) as (Hp & Hh & _).
  destruct Hi as (I1 & _ & _ & _ & _ & I6 & _).
  exists p'. split; [exact E|].
  split; [apply getPendingRequest_found; assumption|]. split.
  { rewrite I6. destruct Hwf as (_ & _ & _ & _ & _ & Hlt).
    destruct (settled p !! nextAddr p) as [s|] eqn:Es; [|reflexivity].
    specialize (Hlt _ _ Es). lia. }
  unfold hasPendingRequests, getCurrentState, getPendingRequestCount.
  rewrite I1, map_size_insert.
  destruct (pendingRequests p !! m_id message) as [a|] eqn:Ep; unfold id.
  - assert (size (pendingRequests p) <> 0%nat) as Hne.
    { intros H0. apply map_size_empty_iff in H0. rewrite H0, lookup_empty in Ep.
      discriminate. }
    rewrite bool_decide_eq_true_2 by lia.
    rewrite bool_decide_eq_false_2 by exact Hne. auto.
  - rewrite bool_decide_eq_true_2 by lia.
    rewrite bool_decide_eq_false_2 by lia. auto.
Qed.

Lemma Protocol_initiateRequest_registers_witness :
  exists p',
    initiateRequest Examples.request_r1 Examples.conversation_AB no_options
      Examples.protocol_r1 = (Return 1%nat, p')
    /\ getPendingRequestCount p' = 1%nat.
Proof.
  destruct (Protocol_initiateRequest_registers Examples.protocol_r1
              Examples.request_r1 Examples.conversation_AB no_options
              reachable_protocol_r1) as [H _].
  destruct (H eq_refl) as (p' & E & _ & _ & _ & _ & Hc).
  exists p'. split; [exact E | exact Hc].
Defined.

(** X25. A response that arrives during the delay of a retry resolves the
    promise and removes the entry, but the retry goes on: when the timer
    of the delay fires, ['requestRetry'] is emitted for the request that
    was resolved, and, when the default timeout of the protocol is
    positive, a deadline timer is armed for it although it is no longer
    pending; when the default is not positive no timer is armed. *)
Theorem Protocol_retry_resumes_after_response
    (p : t) (requestId : string) (a : addr) (h : handle) (tm : Timer)
    (message : Message) (conversation : Conversation.t) :
  reachable p ->
  pendingRequests p !! requestId = Some a ->
  timers p !! h = Some tm ->
  t_callback tm = ResumeRetry a ->
  m_performative message = "inform" ->
  m_inReplyTo message = Some requestId ->
  exists r p1 p2,
    heap p !! a = Some r
    /\ handleMessageWithConversation message conversation p = (Return tt, p1)
    /\ settled p1 !! a = Some (Resolved message, clock p)
    /\ pendingRequests p1 !! requestId = None
    /\ fire h p1 = (Return tt, p2)
    /\ emitted p2 = emitted p ++ [responseReceived message (pr_message r);
                                  requestRetry (pr_message r) (pr_retries r)]
    /\ pendingRequests p2 !! requestId = None
    /\ (0 < defaultTimeout p ->
        timers p2 !! nextTimer p
        = Some {| t_delay := defaultTimeout p;
                  t_due := Z.max (clock p) (t_due tm)
                           + effective_delay (defaultTimeout p);
                  t_callback := HandleTimeout requestId |})
    /\ (defaultTimeout p <= 0 -> timers p2 = delete h (cleared r (timers p))).
Proof.
  intros Hr Hp Ht Hcb Hperf Hreply.
  pose proof (protocol_reachable_well_formed p Hr) as Hwf.
  pose proof (reachable_request_ids p requestId a Hr Hp) as Hid.
  destruct (reachable_handles_sound p Hr) as (_ & Hts).
  pose proof Hwf as (_ & _ & _ & Hm & Hun & _).
  destruct (Hm _ _ Hp) as (r & Hh & Hrid).
  destruct (handleResponse_effect message requestId a r p Hreply Hid Hp Hh)
    as (p1 & E1 & (F1 & F2 & F3 & F4 & F5 & F6 & F7 & F8 & F9 & _)).
  assert (timers p1 !! h = Some tm) as Ht1.
  { rewrite F4. unfold cleared. destruct (pr_timeout r) as [h'|] eqn:Eh; [|exact Ht].
    rewrite lookup_delete_ne; [exact Ht|]. intros <-.
    specialize (Hts _ _ _ _ Hh Eh Ht). congruence. }
  assert (heap (fired h tm p1) !! a = Some r) as Hh1.
  { destruct p1. simpl in *. rewrite F2. exact Hh. }
  destruct (retryRequest_resume_effect a r _ Hh1) as (p2 & E2 & Hre & Hnot).
  assert (defaultTimeout (fired h tm p1) = defaultTimeout p) as Hd.
  { destruct p1. simpl in *. exact F9. }
  rewrite Hd in Hre, Hnot.
  assert (emitted (fired h tm p1) = emitted p1
          /\ pendingRequests (fired h tm p1) = pendingRequests p1
          /\ nextTimer (fired h tm p1) = nextTimer p1
          /\ clock (fired h tm p1) = Z.max (clock p1) (t_due tm)
          /\ timers (fired h tm p1) = delete h (timers p1))
    as (K1 & K2 & K3 & K4 & K5) by (destruct p1; auto).
  assert (emitted p2 = emitted (fired h tm p1)
                       ++ [requestRetry (pr_message r) (pr_retries r)]
          /\ pendingRequests p2 = pendingRequests (fired h tm p1)) as (G7 & G1).
  { destruct (decide (0 < defaultTimeout p)) as [Hpos | Hneg].
    - destruct (Hre Hpos) as (G1 & _ & _ & _ & _ & _ & G7 & _). auto.
    - destruct (Hnot ltac:(lia)) as (G1 & _ & _ & _ & _ & _ & G7 & _). auto. }
  exists r, p1, p2. split; [exact Hh|]. split.
  { unfold handleMessageWithConversation. rewrite Hperf, Hreply. simpl.
    unfold truthy_str. destruct (decide (requestId = "")); [contradiction|].
    simpl. exact E1. }
  split.
  { rewrite F6. unfold settled_with. rewrite (Hun _ _ Hp). apply lookup_insert_eq. }
  split; [rewrite F1; apply lookup_delete_eq|].
  split.
  { rewrite (fire_effect _ _ _ Ht1), Hcb. exact E2. }
  split; [rewrite G7, K1, F7, <- app_assoc; reflexivity|].
  split; [rewrite G1, K2, F1; apply lookup_delete_eq|].
  split.
  - intros Hpos. destruct (Hre Hpos) as (_ & _ & _ & G4 & _).
    rewrite G4, K3, F5, lookup_insert_eq, Hd, K4, F8, Hrid. reflexivity.
  - intros Hneg. destruct (Hnot Hneg) as (_ & _ & _ & G4 & _).
    rewrite G4, K5, F4. reflexivity.
Qed.

Lemma Protocol_retry_resumes_after_response_witness :
  exists p1 p2,
    handleMessageWithConversation Examples.inform_r1 Examples.conversation_AB
      Examples.protocol_r1_delay = (Return tt, p1)
    /\ settled p1 !! 0%nat = Some (Resolved Examples.inform_r1, 0)
    /\ fire 1%nat p1 = (Return tt, p2)
    /\ pendingRequests p2 !! "r1" = None
    /\ timers p2 !! 2%nat
       = Some {| t_delay := 30000; t_due := 31000;
                 t_callback := HandleTimeout "r1" |}.
Proof.
  destruct (Protocol_retry_resumes_after_response Examples.protocol_r1_delay "r1"
              0%nat 1%nat
              {| t_delay := 1000; t_due := 1000; t_callback := ResumeRetry 0%nat |}
              Examples.inform_r1 Examples.conversation_AB
              reachable_protocol_r1_delay)
    as (r & p1 & p2 & _ & H1 & H2 & _ & H3 & _ & H4 & H5 & _);
    try reflexivity.
  exists p1, p2. split; [exact H1|]. split; [exact H2|]. split; [exact H3|].
  split; [exact H4|]. apply H5. reflexivity.
Defined.

(** X5. A message of [Message.createRequest] is a request the protocol
    takes. With a sender and a receiver, the factory returns a message
    whose performative is ['request'] and whose identifier and timestamp
    are new (it takes neither from its options), with the content type of
    the options or ['application/json']; [initiateRequest] registers it
    under this identifier. *)
Theorem Message_createRequest_is_initiated
    (p : t) (conversation : Conversation.t) (protocolOptions : RequestResponseOptions)
    (sender : string) (receiver : string + list string) (content : JsValue)
    (options : MessageClass.Partial) (uuid : string) (now : Z) :
  reachable p ->
  uuid <> "" -> sender <> "" -> receiver <> inl "" -> receiver <> inr [] ->
  exists m p',
    MessageClass.createRequest sender receiver content options uuid now = inr m
    /\ MessageClass.msg_id m = uuid
    /\ MessageClass.msg_timestamp m = now
    /\ MessageClass.msg_performative m = "request"
    /\ MessageClass.msg_contentType m
       = Some (str_or (MessageClass.pa_contentType options) "application/json")
    /\ constructed (MessageClass.core m)
    /\ initiateRequest (MessageClass.core m) conversation protocolOptions p
       = (Return (nextAddr p), p')
    /\ pendingRequests p' !! uuid = Some (nextAddr p).
Proof.
  intros Hr Hu Hs Hr1 Hr2. unfold MessageClass.createRequest.
  eexists.
  assert (forall o n m,
            MessageClass.new o uuid n = inr m ->
            constructed (MessageClass.core m)) as Hcore.
  { intros o n m H. exists (MessageClass.core_options o), uuid, n.
    split; [exact Hu|]. pose proof (Message_core_new o uuid n) as Hc.
    rewrite H in Hc. exact Hc. }
  match goal with
  | |- exists p', MessageClass.new ?o uuid now = inr ?m /\ _ =>
      assert (MessageClass.new o uuid now = inr m) as Hnew
  end.
  { apply Message_new_inr. split; [|reflexivity].
    apply validate_None. simpl. repeat split; auto; discriminate. }
  edestruct (initiateRequest_effect) as (p' & E & (I1 & _)); [|exists p'].
  2:{ split; [exact Hnew|]. do 3 (split; [reflexivity|]). split.
      { simpl. unfold truthy_ostr, str_or.
        destruct (MessageClass.pa_contentType options) as [ct|]; [|reflexivity].
        destruct (truthy_str ct); reflexivity. }
      split; [exact (Hcore _ _ _ Hnew)|]. split; [exact E|].
      rewrite I1. apply lookup_insert_eq. }
  reflexivity.
Qed.

Lemma Message_createRequest_is_initiated_witness :
  exists m p',
    MessageClass.createRequest "A" (inl "B") (JStr "ping") MessageClass.nothing "u" 7
    = inr m
    /\ initiateRequest (MessageClass.core m) Examples.conversation_AB no_options
         (new no_options) = (Return 0%nat, p')
    /\ pendingRequests p' !! "u" = Some 0%nat.
Proof.
  destruct (Message_createRequest_is_initiated (new no_options)
              Examples.conversation_AB no_options "A" (inl "B") (JStr "ping")
              MessageClass.nothing "u" 7 (reachable_new no_options))
    as (m & p' & H1 & _ & _ & _ & _ & _ & H2 & H3); try discriminate.
  exists m, p'. auto.
Defined.

End ProtocolInterface.

Section ProtocolBudget.
Import RequestResponseProtocol.
Local Open Scope Z_scope.

Lemma budget_kept_finished requestId a r s e p p' :
  finished requestId a r s e p p' -> budget_kept p -> budget_kept p'.
Proof. intros (_ & E & _) H a' r'. rewrite E. apply H. Qed.

Lemma budget_kept_retrying a r p p' :
  heap p !! a = Some r -> pr_retries r < pr_maxRetries r ->
  retrying a r p p' -> budget_kept p -> budget_kept p'.
Proof.
  intros Hh Hlt (_ & E & _) H a' r'. rewrite E. intros Hr.
  apply lookup_insert_Some in Hr as [[_ <-] | [_ Hr]]; [|exact (H _ _ Hr)].
  destruct (H _ _ Hh) as (H1 & H2 & H3 & H4). unfold within_budget. simpl.
  repeat split; auto; lia.
Qed.

Lemma budget_kept_fired h tm p : budget_kept p -> budget_kept (fired h tm p).
Proof. destruct p. exact id. Qed.

Lemma budget_kept_handleFailure message p :
  well_formed p -> budget_kept p -> budget_kept (state_of (handleFailure message p)).
Proof.
  intros Hwf H.
  destruct (handleFailure_cases message p Hwf)
    as [E | (id & a & r & p' & _ & _ & _ & Hh & E & [[Hlt Hr] | [_ Hf]])];
    rewrite E; simpl.
  - exact H.
  - eapply budget_kept_retrying; eauto.
  - eapply budget_kept_finished; eauto.
Qed.

Lemma budget_kept_handleResponse message p :
  well_formed p -> budget_kept p -> budget_kept (state_of (handleResponse message p)).
Proof.
  intros Hwf H.
  destruct (handleResponse_cases message p Hwf)
    as [E | (id & a & r & p' & _ & _ & _ & _ & E & Hf)]; rewrite E; simpl.
  - exact H.
  - eapply budget_kept_finished; eauto.
Qed.

Lemma budget_kept_step i p :
  well_formed p -> budget_kept p -> budget_kept (step i p).
Proof.
  intros Hwf H.
  destruct i as [message conversation options | message conversation
                | message uuid | requestId | h | ms]; simpl.
  - destruct (decide (m_performative message = "request")) as [E | E].
    + destruct (initiateRequest_effect message conversation options p E)
        as (p' & E' & (_ & E2 & _)). rewrite E'. simpl.
      intros a r. rewrite E2. intros Hr.
      apply lookup_insert_Some in Hr as [[_ <-] | [_ Hr]]; [|exact (H _ _ Hr)].
      unfold within_budget, new_request. simpl. repeat split; auto; lia.
    + rewrite initiateRequest_rejects by exact E. exact H.
  - unfold handleMessageWithConversation.
    destruct (_ && _); [apply budget_kept_handleResponse; assumption|].
    destruct (bool_decide (_ = "request")); [destruct p; exact H|].
    destruct (_ && _); [apply budget_kept_handleFailure; assumption | exact H].
  - unfold handleMessage. unfold bind at 1. unfold get at 1.
    destruct (Message_new _ uuid (clock p)) as [e | internalMessage]; [exact H|].
    destruct (_ && _); [apply budget_kept_handleResponse; assumption|].
    destruct (_ && _); [apply budget_kept_handleFailure; assumption | exact H].
  - destruct (cancelRequest_cases requestId p Hwf)
      as [E | (a & r & p' & _ & _ & E & Hf)]; rewrite E; simpl; [exact H|].
    eapply budget_kept_finished; eauto.
  - destruct (timers p !! h) as [tm|] eqn:Ht.
    + rewrite (fire_effect _ _ _ Ht).
      pose proof (well_formed_fired p h tm Hwf) as Hwf'.
      pose proof (budget_kept_fired h tm p H) as H'.
      destruct (t_callback tm) as [requestId | a].
      * destruct (handleTimeout_cases requestId _ Hwf')
          as [E | (a & r & p' & _ & Hh & E & [[Hlt Hr] | [_ Hf]])];
          rewrite E; simpl.
        -- exact H'.
        -- eapply budget_kept_retrying; eauto.
        -- eapply budget_kept_finished; eauto.
      * destruct (heap (fired h tm p) !! a) as [r|] eqn:Hh.
        -- destruct (retryRequest_resume_effect a r _ Hh) as (p' & E & Hpos & Hneg).
           rewrite E. simpl. destruct (decide (0 < defaultTimeout (fired h tm p))).
           ++ destruct (Hpos ltac:(lia)) as (_ & E2 & _).
              intros a' r'. rewrite E2. intros Hr.
              apply lookup_insert_Some in Hr as [[_ <-] | [_ Hr]];
                [exact (H' _ _ Hh) | exact (H' _ _ Hr)].
           ++ destruct (Hneg ltac:(lia)) as (_ & E2 & _).
              intros a' r'. rewrite E2. apply H'.
        -- unfold retryRequest_resume, bind, get. rewrite Hh. exact H'.
    + rewrite (fire_unarmed _ _ Ht). exact H.
  - destruct p. exact H.
Qed.

Lemma reachable_budget_kept p : reachable p -> budget_kept p.
Proof.
  induction 1 as [options | i p Hr IH _].
  - intros a r H. unfold new in H. simpl in H. rewrite lookup_empty in H.
    discriminate.
  - apply budget_kept_step; [apply protocol_reachable_well_formed, Hr | exact IH].
Qed.

(** X26. What [getPendingRequest] returns. In every state the protocol can be
    in, the object of a pending request holds a request whose id is the
    key, its promise is not settled, and its count of retries is between
    zero and its maximum (it is zero when the maximum is not positive):
    no request is retried more often than its maximum allows. *)
Theorem Protocol_retries_within_budget
    (p : t) (requestId : string) (a : addr) (r : PendingRequest) :
  reachable p ->
  getPendingRequest requestId p = Some (a, r) ->
  pr_id r = requestId
  /\ m_id (pr_message r) = requestId
  /\ m_performative (pr_message r) = "request"
  /\ 0 <= pr_retries r
  /\ pr_retries r <= Z.max 0 (pr_maxRetries r)
  /\ settled p !! a = None.
Proof.
  intros Hr H. apply getPendingRequest_Some in H as [Hp Hh].
  destruct (protocol_reachable_well_formed p Hr) as (_ & _ & _ & Hm & Hun & _).
  destruct (Hm _ _ Hp) as (r' & Hh' & Hid).
  assert (r' = r) as -> by congruence.
  destruct (reachable_budget_kept p Hr a r Hh) as (H1 & H2 & H3 & H4).
  split; [exact Hid|]. split; [congruence|]. split; [exact H2|].
  split; [exact H3|]. split; [exact H4|]. exact (Hun _ _ Hp).
Qed.

Lemma Protocol_retries_within_budget_witness :
  match getPendingRequest "r1" Examples.protocol_r1_delay with
  | Some (_, r) => pr_retries r <= Z.max 0 (pr_maxRetries r)
  | None => True
  end.
Proof.
  destruct (getPendingRequest "r1" Examples.protocol_r1_delay) as [[a r]|] eqn:E;
    [|exact I].
  apply (Protocol_retries_within_budget Examples.protocol_r1_delay "r1" a r
           reachable_protocol_r1_delay E).
Defined.

End ProtocolBudget.
